(** * Lease-contract assistant: date validator and conversation router

    A shallow embedding of [date_validator.py] (class [DateValidator]) and of
    the routing logic of [llm_client.py] (class [LLMClient]), together with
    the properties of the specification that concern them.

    The last part covers more of the code: the quick check of
    [date_validator.py], the context detection of [utils.py] with the
    clause templates of [clauses.py], and the text splitters of
    [split_clauses.py], [split_law.py] and [ingest_to_supabase.py].

    Python values are modelled as follows.
    - [str] is a list of Unicode code points ([list N]); literals are written
      as UTF-8 text and decoded by [u].
    - [int] is [Z].
    - An operation that may raise returns a [res]: [Ok v] or [Raise e].
    - [datetime] is a record of its seven fields (naive, no time zone).
    - The text-completion backend, the JSON decoder of the classifier reply
      and [str.isalpha] are parameters of the router.

    The library functions ([re], [int], [str] methods, [calendar],
    [datetime], [datetime.strptime]) follow CPython 3.11. *)

From Stdlib Require Import ZArith NArith List Lia Bool Ascii String.
From stdpp Require Import gmap.
Import ListNotations.

Local Open Scope N_scope.

(** ** Python strings *)

Module Str.

Definition str := list N.

(** UTF-8 decoding of a literal, so that Arabic messages are written as text. *)
Fixpoint utf8_decode (bs : list N) : str :=
  match bs with
  | [] => []
  | b :: r =>
    if b <? 0x80 then b :: utf8_decode r
    else if b <? 0xE0 then
      match r with
      | b1 :: r1 => ((b mod 0x20) * 0x40 + b1 mod 0x40) :: utf8_decode r1
      | _ => []
      end
    else if b <? 0xF0 then
      match r with
      | b1 :: b2 :: r2 =>
        ((b mod 0x10) * 0x1000 + (b1 mod 0x40) * 0x40 + b2 mod 0x40) :: utf8_decode r2
      | _ => []
      end
    else
      match r with
      | b1 :: b2 :: b3 :: r3 =>
        ((b mod 0x08) * 0x40000 + (b1 mod 0x40) * 0x1000
         + (b2 mod 0x40) * 0x40 + b3 mod 0x40) :: utf8_decode r3
      | _ => []
      end
  end.

Definition u (s : string) : str :=
  utf8_decode (map N_of_ascii (list_ascii_of_string s)).

Definition nl : str := [10].

Fixpoint eqb (a b : str) : bool :=
  match a, b with
  | [], [] => true
  | x :: a', y :: b' => (x =? y) && eqb a' b'
  | _, _ => false
  end.

(** [str.isspace] on one character; this is also the class [\s] of [re]. *)
Definition isspace (c : N) : bool :=
  ((9 <=? c) && (c <=? 13)) || ((0x1c <=? c) && (c <=? 0x20))
  || (c =? 0x85) || (c =? 0xa0) || (c =? 0x1680)
  || ((0x2000 <=? c) && (c <=? 0x200a))
  || (c =? 0x2028) || (c =? 0x2029) || (c =? 0x202f) || (c =? 0x205f)
  || (c =? 0x3000).

(** First code points of the blocks of ten decimal digits (category Nd,
    Unicode 14.0); the mathematical digits U+1D7CE..U+1D7FF are five
    consecutive blocks. *)
Definition nd_blocks : list N :=
  [ 0x30; 0x660; 0x6f0; 0x7c0; 0x966; 0x9e6; 0xa66; 0xae6; 0xb66; 0xbe6;
    0xc66; 0xce6; 0xd66; 0xde6; 0xe50; 0xed0; 0xf20; 0x1040; 0x1090; 0x17e0;
    0x1810; 0x1946; 0x19d0; 0x1a80; 0x1a90; 0x1b50; 0x1bb0; 0x1c40; 0x1c50;
    0xa620; 0xa8d0; 0xa900; 0xa9d0; 0xa9f0; 0xaa50; 0xabf0; 0xff10; 0x104a0;
    0x10d30; 0x11066; 0x110f0; 0x11136; 0x111d0; 0x112f0; 0x11450; 0x114d0;
    0x11650; 0x116c0; 0x11730; 0x118e0; 0x11950; 0x11c50; 0x11d50; 0x11da0;
    0x16a60; 0x16ac0; 0x16b50;
    0x1d7ce; 0x1d7d8; 0x1d7e2; 0x1d7ec; 0x1d7f6;
    0x1e140; 0x1e2f0; 0x1e950; 0x1fbf0 ].

(** [unicodedata.decimal]: the value of a decimal digit, in any script. *)
Fixpoint decimal_in (blocks : list N) (c : N) : option Z :=
  match blocks with
  | [] => None
  | b :: bs =>
    if (b <=? c) && (c <? b + 10) then Some (Z.of_N (c - b))
    else decimal_in bs c
  end.

Definition decimal (c : N) : option Z := decimal_in nd_blocks c.

(** The class [\d] of [re] on [str] patterns. *)
Definition isdigit (c : N) : bool :=
  match decimal c with Some _ => true | None => false end.

Fixpoint lstrip (s : str) : str :=
  match s with
  | c :: s' => if isspace c then lstrip s' else s
  | [] => []
  end.

Definition rstrip (s : str) : str := rev (lstrip (rev s)).

(** [s.strip()] *)
Definition strip (s : str) : str := rstrip (lstrip s).

(** [s.startswith(p)] *)
Fixpoint startswith (s p : str) {struct p} : bool :=
  match p, s with
  | [], _ => true
  | x :: p', y :: s' => (x =? y) && startswith s' p'
  | _ :: _, [] => false
  end.

(** [needle in hay] *)
Fixpoint contains (hay needle : str) : bool :=
  startswith hay needle ||
  match hay with
  | [] => false
  | _ :: hay' => contains hay' needle
  end.

(** [sep.join(parts)] *)
Fixpoint join (sep : str) (parts : list str) : str :=
  match parts with
  | [] => []
  | [p] => p
  | p :: ps => p ++ sep ++ join sep ps
  end.

(** [s.split(sep)] for a separator of one character. *)
Fixpoint split (sep : N) (s : str) : list str :=
  match s with
  | [] => [[]]
  | c :: s' =>
    if c =? sep then [] :: split sep s'
    else match split sep s' with
         | p :: ps => (c :: p) :: ps
         | [] => [[c]]
         end
  end.

(** [str(n)] for an integer. *)
Fixpoint digits_of (fuel : nat) (n : Z) (acc : str) : str :=
  match fuel with
  | O => acc
  | S f =>
    let acc' := (0x30 + Z.to_N (n mod 10)) :: acc in
    if (n <? 10)%Z then acc' else digits_of f (n / 10)%Z acc'
  end.

Definition of_int (n : Z) : str :=
  let fuel := S (Z.to_nat (Z.log2 (Z.abs n))) in
  if (n <? 0)%Z then 0x2d :: digits_of fuel (- n)%Z []
  else digits_of fuel n [].

(** [f"{n:02d}"] *)
Definition of_int_02d (n : Z) : str :=
  let s := of_int n in
  if (length s <? 2)%nat then 0x30 :: s else s.

(** Whitespace that [int()] skips around a literal: the ASCII characters
    accepted by C [isspace], and every non-ASCII [str.isspace] character. *)
Definition int_space (c : N) : bool :=
  (c =? 0x20) || ((9 <=? c) && (c <=? 13)) || ((0x80 <=? c) && isspace c).

(** Digits after the first one: a single underscore may separate two digits. *)
Fixpoint int_body (s : str) (acc : Z) (ndig : nat) : option (Z * nat * str) :=
  match s with
  | [] => Some (acc, ndig, [])
  | c :: s' =>
    match decimal c with
    | Some d => int_body s' (10 * acc + d)%Z (S ndig)
    | None =>
      if c =? 0x5f then
        match s' with
        | c2 :: s'' =>
          match decimal c2 with
          | Some d => int_body s'' (10 * acc + d)%Z (S ndig)
          | None => None
          end
        | [] => None
        end
      else Some (acc, ndig, s)
    end
  end.

(** [sys.int_info.default_max_str_digits] *)
Definition max_str_digits : nat := 4300.

Fixpoint skip_int_space (s : str) : str :=
  match s with
  | c :: s' => if int_space c then skip_int_space s' else s
  | [] => []
  end.

(** [int(s)] in base ten; [None] stands for [ValueError].  The literal is
    optional blanks, an optional sign, digits, optional blanks; more than
    [max_str_digits] digits are refused. *)
Definition int (s : str) : option Z :=
  let s1 := skip_int_space s in
  let '(sign, s2) :=
    match s1 with
    | 0x2b :: r => (1%Z, r)
    | 0x2d :: r => ((-1)%Z, r)
    | _ => (1%Z, s1)
    end in
  match s2 with
  | [] => None
  | c :: r =>
    match decimal c with
    | None => None
    | Some d =>
      match int_body r d 1 with
      | None => None
      | Some (v, n, rest) =>
        if forallb int_space rest && (n <=? max_str_digits)%nat
        then Some (sign * v)%Z else None
      end
    end
  end.

End Str.

Import Str.


(** ** Regular expressions ([re])

    A backtracking matcher with the priorities of Python's engine: the
    alternatives of [|] are tried from left to right, quantifiers are greedy,
    and the first complete match found is the result. *)

Module Re.

Inductive regex : Type :=
| Eps : regex
| Chr : (N -> bool) -> regex
| Cat : regex -> regex -> regex
| Alt : regex -> regex -> regex
| Star : regex -> regex
| Grp : nat -> regex -> regex.

(** Captured groups, most recent first. *)
Definition caps := list (nat * str).

Section Matcher.
Context {A : Type}.

(** [rmatch r s c k]: match [r] at the start of [s], then hand the rest of
    the input and the captures to the continuation [k]; backtrack into [r]
    when [k] fails. *)
Fixpoint rmatch (r : regex) (s : str) (c : caps)
         (k : str -> caps -> option A) {struct r} : option A :=
  match r with
  | Eps => k s c
  | Chr p =>
    match s with
    | x :: s' => if p x then k s' c else None
    | [] => None
    end
  | Cat r1 r2 => rmatch r1 s c (fun s' c' => rmatch r2 s' c' k)
  | Alt r1 r2 =>
    match rmatch r1 s c k with
    | Some a => Some a
    | None => rmatch r2 s c k
    end
  | Star r1 =>
    (fix loop (n : nat) (s : str) (c : caps) {struct n} : option A :=
       match n with
       | O => k s c
       | S n' =>
         match rmatch r1 s c
                 (fun s' c' =>
                    if (length s' <? length s)%nat then loop n' s' c' else None)
         with
         | Some a => Some a
         | None => k s c
         end
       end) (length s) s c
  | Grp i r1 =>
    rmatch r1 s c
      (fun s' c' => k s' ((i, firstn (length s - length s') s) :: c'))
  end.
End Matcher.

(** A match object: the matched text ([m.group()]) and the groups. *)
Record match_obj := MatchObj { m_text : str; m_caps : caps; m_rest : str }.

(** [m.group(i)] *)
Fixpoint group (c : caps) (i : nat) : option str :=
  match c with
  | [] => None
  | (j, t) :: c' => if (i =? j)%nat then Some t else group c' i
  end.

(** [re.match(r, s)] *)
Definition match_ (r : regex) (s : str) : option match_obj :=
  rmatch r s []
    (fun s' c => Some (MatchObj (firstn (length s - length s') s) c s')).

(** [re.search(r, s)]: the match at the leftmost position that has one. *)
Fixpoint search (r : regex) (s : str) : option match_obj :=
  match match_ r s with
  | Some m => Some m
  | None =>
    match s with
    | [] => None
    | _ :: s' => search r s'
    end
  end.

(** [re.finditer(r, s)]: successive non-overlapping matches, left to right.
    The scan resumes where the previous match ended. The patterns of this
    program match no empty text; after an empty match the scan moves one
    character forward. *)
Fixpoint finditer_fuel (fuel : nat) (r : regex) (s : str) : list match_obj :=
  match fuel with
  | O => []
  | S f =>
    match search r s with
    | None => []
    | Some m =>
      m :: match m_text m, m_rest m with
           | [], _ :: rest => finditer_fuel f r rest
           | [], [] => []
           | _ :: _, rest => finditer_fuel f r rest
           end
    end
  end.

Definition finditer (r : regex) (s : str) : list match_obj :=
  finditer_fuel (S (length s)) r s.

(** *** Pattern syntax *)

Definition range (a b : N) : N -> bool := fun c => (a <=? c) && (c <=? b).
Definition one_of (l : list N) : N -> bool := fun c => existsb (N.eqb c) l.

(** [\d], [\s] *)
Definition d : regex := Chr isdigit.
Definition sp : regex := Chr isspace.

(** [r+], [r{1,2}], [r{4}] *)
Definition plus (r : regex) : regex := Cat r (Star r).
Definition rep12 (r : regex) : regex := Cat r (Alt r Eps).
Definition rep4 (r : regex) : regex := Cat r (Cat r (Cat r r)).

Fixpoint cat_all (rs : list regex) : regex :=
  match rs with
  | [] => Eps
  | [r] => r
  | r :: rs' => Cat r (cat_all rs')
  end.

(** A literal character, and one under [re.IGNORECASE].  The letters that
    occur in the patterns of this program (f r o m t e and Arabic letters)
    have no case variants outside ASCII. *)
Definition lit (c : N) : regex := Chr (N.eqb c).

Definition ascii_lower (c : N) : N :=
  if (0x41 <=? c) && (c <=? 0x5a) then c + 0x20 else c.

Definition ilit (c : N) : regex := Chr (fun x => ascii_lower x =? ascii_lower c).

Definition lits (s : str) : regex := cat_all (map lit s).
Definition ilits (s : str) : regex := cat_all (map ilit s).

End Re.

Import Re.

(** ** Exceptions *)

Inductive exn : Type := ValueError | OverflowError.

Inductive res (A : Type) : Type :=
| Ok : A -> res A
| Raise : exn -> res A.

Arguments Ok {A} _.
Arguments Raise {A} _.

#[export] Instance res_ret : MRet res := @Ok.
#[export] Instance res_bind : MBind res :=
  fun A B (f : A -> res B) (m : res A) =>
    match m with
    | Ok a => f a
    | Raise e => Raise e
    end.

(** [try: m  except ValueError: h] *)
Definition except_ValueError {A : Type} (m : res A) (h : res A) : res A :=
  match m with
  | Raise ValueError => h
  | _ => m
  end.

(** A call that raises [ValueError] on failure, from an optional result. *)
Definition or_ValueError {A : Type} (o : option A) : res A :=
  match o with
  | Some a => Ok a
  | None => Raise ValueError
  end.

(** ** [calendar] and [datetime] *)

Local Open Scope Z_scope.

Module Calendar.

(** [calendar.isleap] *)
Definition isleap (year : Z) : bool :=
  (year mod 4 =? 0) && (negb (year mod 100 =? 0) || (year mod 400 =? 0)).

Definition mdays (month : Z) : Z :=
  match month with
  | 1 => 31 | 2 => 28 | 3 => 31 | 4 => 30 | 5 => 31 | 6 => 30
  | 7 => 31 | 8 => 31 | 9 => 30 | 10 => 31 | 11 => 30 | 12 => 31
  | _ => 0
  end.

(** [calendar.monthrange(year, month)[1]]: the number of days of the month;
    [IllegalMonthError] is a [ValueError]. *)
Definition monthrange (year month : Z) : res Z :=
  if (1 <=? month) && (month <=? 12)
  then Ok (mdays month + (if (month =? 2) && isleap year then 1 else 0))
  else Raise ValueError.

End Calendar.

Module Datetime.

Record datetime : Type := mkdt {
  year : Z; month : Z; day : Z;
  hour : Z; minute : Z; second : Z; microsecond : Z
}.

Definition MINYEAR : Z := 1.
Definition MAXYEAR : Z := 9999.

(** The constructor of CPython converts its arguments to C [int] first: an
    argument beyond 32 bits raises [OverflowError], before any range check. *)
Definition c_int (z : Z) : bool := (- 2 ^ 31 <=? z) && (z <? 2 ^ 31).

Definition days_in_month (y m : Z) : Z :=
  Calendar.mdays m + (if (m =? 2) && Calendar.isleap y then 1 else 0).

(** [datetime(year, month, day)] *)
Definition new (y m d : Z) : res datetime :=
  if negb (c_int y && c_int m && c_int d) then Raise OverflowError
  else if (MINYEAR <=? y) && (y <=? MAXYEAR) && (1 <=? m) && (m <=? 12)
          && (1 <=? d) && (d <=? days_in_month y m)
  then Ok (mkdt y m d 0 0 0 0)
  else Raise ValueError.

Definition fields (a : datetime) : list Z :=
  [year a; month a; day a; hour a; minute a; second a; microsecond a].

Fixpoint lex_lt (a b : list Z) : bool :=
  match a, b with
  | x :: a', y :: b' => (x <? y) || ((x =? y) && lex_lt a' b')
  | _, _ => false
  end.

(** [a < b] and [a <= b] on naive datetimes. *)
Definition lt (a b : datetime) : bool := lex_lt (fields a) (fields b).
Definition le (a b : datetime) : bool := negb (lt b a).

Fixpoint days_before_month (fuel : nat) (y m : Z) : Z :=
  match fuel with
  | O => 0
  | S f =>
    if m <=? 1 then 0
    else days_in_month y (m - 1) + days_before_month f y (m - 1)
  end.

(** [d.toordinal()]: 1 for 0001-01-01. *)
Definition toordinal (a : datetime) : Z :=
  let y := year a - 1 in
  y * 365 + y / 4 - y / 100 + y / 400
  + days_before_month 12 (year a) (month a) + day a.

Definition day_us : Z := 86400 * 1000000.

(** Microseconds since 0001-01-01 00:00. *)
Definition micros (a : datetime) : Z :=
  (toordinal a - 1) * day_us
  + ((hour a * 60 + minute a) * 60 + second a) * 1000000 + microsecond a.

(** [(a - b).days]: a [timedelta] is normalised with a non-negative time
    part, so its days are the floor of the difference. *)
Definition sub_days (a b : datetime) : Z := (micros a - micros b) / day_us.

(** [a < b - timedelta(days=n)]; the subtraction raises [OverflowError] when
    it leaves the supported range of dates. *)
Definition lt_minus_days (a b : datetime) (n : Z) : res bool :=
  if (toordinal b - n <? 1) || (3652059 <? toordinal b - n)
  then Raise OverflowError
  else Ok (micros a <? micros b - n * day_us).

(** [d.strftime('%d/%m/%Y')] (the C library does not pad the year). *)
Definition strftime_dmY (a : datetime) : str :=
  of_int_02d (day a) ++ u "/" ++ of_int_02d (month a) ++ u "/" ++ of_int (year a).

(** *** [datetime.strptime] *)

Definition gY : nat := 0.
Definition gm : nat := 1.
Definition gd : nat := 2.

(** The directives used by the formats of this program, from the table of
    [_strptime.TimeRE]; any other character after [%] is a bad directive. *)
Definition directive (c : N) : option regex :=
  if (c =? 0x64)%N then        (* d: 3[0-1]|[1-2]\d|0[1-9]|[1-9]| [1-9] *)
    Some (Grp gd
      (Alt (Cat (lit 0x33) (Chr (range 0x30 0x31)))
      (Alt (Cat (Chr (range 0x31 0x32)) d)
      (Alt (Cat (lit 0x30) (Chr (range 0x31 0x39)))
      (Alt (Chr (range 0x31 0x39))
           (Cat (lit 0x20) (Chr (range 0x31 0x39))))))))
  else if (c =? 0x6d)%N then   (* m: 1[0-2]|0[1-9]|[1-9] *)
    Some (Grp gm
      (Alt (Cat (lit 0x31) (Chr (range 0x30 0x32)))
      (Alt (Cat (lit 0x30) (Chr (range 0x31 0x39)))
           (Chr (range 0x31 0x39)))))
  else if (c =? 0x59)%N then   (* Y: \d\d\d\d *)
    Some (Grp gY (rep4 d))
  else None.

(** [TimeRE.pattern]: directives are replaced by their expressions, every
    other character stands for itself ([None] for a bad directive or a stray
    [%]). The formats of this program contain no blanks. *)
Fixpoint pattern (fmt : str) : option regex :=
  match fmt with
  | [] => Some Eps
  | c :: rest =>
    if (c =? 0x25)%N then
      match rest with
      | x :: rest' =>
        match directive x, pattern rest' with
        | Some r, Some p => Some (Cat r p)
        | _, _ => None
        end
      | [] => None
      end
    else option_map (Cat (ilit c)) (pattern rest)
  end.

Definition group_int (c : caps) (g : nat) (default : Z) : res Z :=
  match group c g with
  | Some t => or_ValueError (int t)
  | None => Ok default
  end.

(** [datetime.strptime(s, fmt)]: the whole of [s] must match. *)
Definition strptime (s fmt : str) : res datetime :=
  r ← or_ValueError (pattern fmt);
  found ← or_ValueError (match_ r s);
  match m_rest found with
  | _ :: _ => Raise ValueError
  | [] =>
    y ← group_int (m_caps found) gY 1900;
    m ← group_int (m_caps found) gm 1;
    d ← group_int (m_caps found) gd 1;
    new y m d
  end.

End Datetime.

Import Datetime.

(** ** [date_validator.py]: class [DateValidator] *)

Module DateValidator.

Definition DATE_FORMATS : list str :=
  [ u "%d/%m/%Y"; u "%d-%m-%Y"; u "%Y/%m/%d"; u "%Y-%m-%d"; u "%d.%m.%Y";
    u "%-d/%-m/%Y"; u "%#d/%#m/%Y" ].

Definition ARABIC_MONTHS : list (str * Z) :=
  [ (u "يناير", 1); (u "ينايר", 1);
    (u "فبراير", 2); (u "شباط", 2);
    (u "مارس", 3); (u "آذار", 3);
    (u "أبريل", 4); (u "نيسان", 4); (u "ابريل", 4);
    (u "مايو", 5); (u "أيار", 5); (u "ماي", 5);
    (u "يونيو", 6); (u "حزيران", 6); (u "يونيه", 6);
    (u "يوليو", 7); (u "تموز", 7); (u "يوليه", 7);
    (u "أغسطس", 8); (u "آب", 8); (u "اغسطس", 8);
    (u "سبتمبر", 9); (u "أيلول", 9);
    (u "أكتوبر", 10); (u "تشرين الأول", 10); (u "اكتوبر", 10);
    (u "نوفمبر", 11); (u "تشرين الثاني", 11);
    (u "ديسمبر", 12); (u "كانون الأول", 12); (u "دسمبر", 12) ].

(** [ARABIC_MONTHS.get(name)] *)
Fixpoint months_get (table : list (str * Z)) (name : str) : option Z :=
  match table with
  | [] => None
  | (k, v) :: table' => if Str.eqb k name then Some v else months_get table' name
  end.

(** [is_leap_year] *)
Definition is_leap_year (year : Z) : bool := Calendar.isleap year.

(** [is_valid_date]: both exceptions of the body are caught. *)
Definition is_valid_date (day month year : Z) : bool :=
  let body : res bool :=
    if negb ((1 <=? month) && (month <=? 12)) then Ok false
    else
      max_day ← Calendar.monthrange year month;
      if negb ((1 <=? day) && (day <=? max_day)) then Ok false
      else _ ← Datetime.new year month day; Ok true
  in
  match body with
  | Ok b => b
  | Raise ValueError | Raise OverflowError => false
  end.

(** The class [أ-ي] of Arabic letters. *)
Definition arabic_letter : regex := Chr (range 0x623 0x64a).

(** [(\d{1,2})\s+([أ-ي]+)\s+(\d{4})] *)
Definition arabic_pattern : regex :=
  cat_all [Grp 1 (rep12 d); plus sp; Grp 2 (plus arabic_letter); plus sp;
           Grp 3 (rep4 d)].

(** The Arabic month-name branch of [parse_date]; [Ok None] when the branch
    falls through to the standard formats. *)
Definition parse_arabic (date_str : str) : res (option datetime) :=
  match search arabic_pattern date_str with
  | None => Ok None
  | Some m =>
    match group (m_caps m) 1, group (m_caps m) 2, group (m_caps m) 3 with
    | Some day, Some month_name, Some year =>
      match months_get ARABIC_MONTHS month_name with
      | None => Ok None
      | Some month =>
        if month =? 0 then Ok None
        else
          except_ValueError
            (y ← or_ValueError (int year);
             dd ← or_ValueError (int day);
             dt ← Datetime.new y month dd;
             Ok (Some dt))
            (Ok None)
      end
    | _, _, _ => Ok None
    end
  end.

(** The loop over [DATE_FORMATS]: the first format that parses wins. *)
Fixpoint parse_formats (fmts : list str) (date_str : str) : res (option datetime) :=
  match fmts with
  | [] => Ok None
  | fmt :: fmts' =>
    except_ValueError
      (dt ← strptime date_str fmt; Ok (Some dt))
      (parse_formats fmts' date_str)
  end.

(** The body of the last [try] of [parse_date]: the loop over the
    separators. A [ValueError] leaves the loop as a whole. *)
Fixpoint parse_manual (seps : list N) (date_str : str) : res (option datetime) :=
  match seps with
  | [] => Ok None
  | sep :: seps' =>
    if contains date_str [sep] then
      match split sep date_str with
      | [p0; p1; p2] =>
        if (length p2 =? 4)%nat then
          day ← or_ValueError (int p0);
          month ← or_ValueError (int p1);
          year ← or_ValueError (int p2);
          dt ← Datetime.new year month day;
          Ok (Some dt)
        else if (length p0 =? 4)%nat then
          year ← or_ValueError (int p0);
          month ← or_ValueError (int p1);
          day ← or_ValueError (int p2);
          dt ← Datetime.new year month day;
          Ok (Some dt)
        else parse_manual seps' date_str
      | _ => parse_manual seps' date_str
      end
    else parse_manual seps' date_str
  end.

(** [parse_date] *)
Definition parse_date (date_str : str) : res (option datetime) :=
  match date_str with
  | [] => Ok None
  | _ =>
    let date_str := strip date_str in
    a ← parse_arabic date_str;
    match a with
    | Some dt => Ok (Some dt)
    | None =>
      f ← parse_formats DATE_FORMATS date_str;
      match f with
      | Some dt => Ok (Some dt)
      | None =>
        except_ValueError
          (parse_manual [0x2f; 0x2d; 0x2e]%N date_str)
          (Ok None)
      end
    end
  end.

Definition in_year_range (y : Z) : bool := (1900 <=? y) && (y <=? 2100).

(** [validate_date]: [(is_valid, error_message, parsed_date)] *)
Definition validate_date (date_str : str) : res (bool * str * option datetime) :=
  parsed ← parse_date date_str;
  match parsed with
  | None => Ok (false, u "Invalid date format: " ++ date_str, None)
  | Some parsed =>
    if negb (is_valid_date (day parsed) (month parsed) (year parsed)) then
      Ok (false,
          u "Invalid date: " ++ date_str
            ++ u " (this date does not exist in the calendar)", None)
    else if negb (in_year_range (year parsed)) then
      Ok (false, u "Year out of reasonable range: " ++ of_int (year parsed), None)
    else Ok (true, [], Some parsed)
  end.

Section WithReference.

(** [self.reference_date]: the "today" of the validator. *)
Variable reference_date : datetime.

(** [validate_date_range]; a date that [validate_date] accepts comes with
    its [datetime]. *)
Definition validate_date_range (start_date_str end_date_str : str)
           (allow_past_start : bool)
           (min_duration_days max_duration_days : Z) : res (bool * str) :=
  '(start_valid, start_error, start_date) ← validate_date start_date_str;
  match start_valid, start_date with
  | true, Some start_date =>
    '(end_valid, end_error, end_date) ← validate_date end_date_str;
    match end_valid, end_date with
    | true, Some end_date =>
      if negb allow_past_start && Datetime.lt start_date reference_date then
        Ok (false,
            u "Start date " ++ start_date_str ++ u " is in the past. "
              ++ u "Lease contracts should start on or after today ("
              ++ strftime_dmY reference_date ++ u ")")
      else if Datetime.le end_date start_date then
        Ok (false,
            u "End date " ++ end_date_str ++ u " must be after start date "
              ++ start_date_str ++ u ". "
              ++ u "The lease period goes backward in time.")
      else
        let duration := sub_days end_date start_date in
        if duration <? min_duration_days then
          Ok (false,
              u "Lease duration too short: " ++ of_int duration ++ u " days. "
                ++ u "Minimum duration is " ++ of_int min_duration_days
                ++ u " days.")
        else if max_duration_days <? duration then
          Ok (false,
              u "Lease duration too long: " ++ of_int duration ++ u " days ("
                ++ of_int (duration / 365) ++ u " years). "
                ++ u "Maximum duration is " ++ of_int (max_duration_days / 365)
                ++ u " years.")
        else Ok (true, [])
    | _, _ => Ok (false, u "End date error: " ++ end_error)
    end
  | _, _ => Ok (false, u "Start date error: " ++ start_error)
  end.

(** One entry of [found_dates]. *)
Record finding : Type := Finding {
  f_text : str; f_parsed : option datetime; f_valid : bool; f_error : str
}.

(** [[/.-]] *)
Definition sep_class : regex := Chr (one_of [0x2f; 0x2e; 0x2d]%N).

(** [\d{1,2}[/.-]\d{1,2}[/.-]\d{4}] *)
Definition dmy : regex :=
  cat_all [rep12 d; sep_class; rep12 d; sep_class; rep4 d].

Definition date_patterns : list regex :=
  [ dmy;
    cat_all [rep4 d; sep_class; rep12 d; sep_class; rep12 d];
    cat_all [rep12 d; plus sp; plus arabic_letter; plus sp; rep4 d] ].

(** [[:\s]+] *)
Definition colon_or_space : regex :=
  plus (Chr (fun c => (c =? 0x3a)%N || isspace c)).

(** The range phrases, compiled with [re.IGNORECASE]. *)
Definition range_patterns : list regex :=
  [ cat_all [ilits (u "من"); plus sp; Grp 1 dmy; plus sp;
             Alt (ilits (u "إلى")) (Alt (ilits (u "حتى")) (ilits (u "الى")));
             plus sp; Grp 2 dmy];
    cat_all [ilits (u "from"); plus sp; Grp 1 dmy; plus sp; ilits (u "to");
             plus sp; Grp 2 dmy];
    cat_all [ilits (u "From"); colon_or_space; Grp 1 dmy; plus sp;
             ilits (u "to"); plus sp; Grp 2 dmy];
    cat_all [ilits (u "Term"); colon_or_space; ilits (u "from"); plus sp;
             Grp 1 dmy; plus sp; ilits (u "to"); plus sp; Grp 2 dmy] ].

(** The body of the inner loop over the matches of one date pattern. *)
Fixpoint scan_matches (ms : list match_obj) (found : list finding)
         (errors : list str) : res (list finding * list str) :=
  match ms with
  | [] => Ok (found, errors)
  | m :: ms' =>
    let date_str := m_text m in
    '(is_valid, error, parsed) ← validate_date date_str;
    let found := found ++ [Finding date_str parsed is_valid error] in
    let errors :=
      if (is_valid : bool) then errors
      else errors ++ [u "Invalid date '" ++ date_str ++ u "': " ++ error] in
    scan_matches ms' found errors
  end.

(** The loop over [date_patterns]. *)
Fixpoint scan_patterns (ps : list regex) (text : str) (found : list finding)
         (errors : list str) : res (list finding * list str) :=
  match ps with
  | [] => Ok (found, errors)
  | p :: ps' =>
    '(found, errors) ← scan_matches (finditer p text) found errors;
    scan_patterns ps' text found errors
  end.

(** The body of the inner loop over the matches of one range pattern. *)
Fixpoint scan_range_matches (ms : list match_obj) (allow_past_start : bool)
         (errors : list str) : res (list str) :=
  match ms with
  | [] => Ok errors
  | m :: ms' =>
    match group (m_caps m) 1, group (m_caps m) 2 with
    | Some start_str, Some end_str =>
      '(is_valid, error) ←
        validate_date_range start_str end_str allow_past_start 1 36500;
      scan_range_matches ms' allow_past_start
        (if (is_valid : bool) then errors else errors ++ [error])
    | _, _ => scan_range_matches ms' allow_past_start errors
    end
  end.

(** The loop over [range_patterns]. *)
Fixpoint scan_ranges (ps : list regex) (text : str) (allow_past_start : bool)
         (errors : list str) : res (list str) :=
  match ps with
  | [] => Ok errors
  | p :: ps' =>
    errors ← scan_range_matches (finditer p text) allow_past_start errors;
    scan_ranges ps' text allow_past_start errors
  end.

(** [extract_and_validate_dates]: [(all_valid, error_message, found_dates)] *)
Definition extract_and_validate_dates (text : str) (allow_past_start : bool)
  : res (bool * str * list finding) :=
  '(found_dates, errors) ← scan_patterns date_patterns text [] [];
  match errors with
  | _ :: _ => Ok (false, join (u "; ") errors, found_dates)
  | [] =>
    errors ← scan_ranges range_patterns text allow_past_start [];
    match errors with
    | _ :: _ => Ok (false, join (u "; ") errors, found_dates)
    | [] => Ok (true, [], found_dates)
    end
  end.

(** The search for the next leap year in [get_validation_suggestions]. *)
Fixpoint next_leap_from (fuel : nat) (next_leap limit : Z) : Z :=
  match fuel with
  | O => next_leap
  | S f =>
    if negb (is_leap_year next_leap) && (next_leap <? limit)
    then next_leap_from f (next_leap + 1) limit
    else next_leap
  end.

(** [get_validation_suggestions] *)
Definition get_validation_suggestions (date_str : str) : res (list str) :=
  parsed ← parse_date date_str;
  match parsed with
  | None => Ok [u "Use format DD/MM/YYYY (e.g., 23/02/2026)"]
  | Some parsed =>
    let y := year parsed in
    let suggestions :=
      if (month parsed =? 2) && (day parsed =? 29) && negb (is_leap_year y)
      then
        let next_leap := next_leap_from 10 (y + 1) (y + 10) in
        [ u "February 29 does not exist in " ++ of_int y
            ++ u " (not a leap year)";
          u "Try: 28/02/" ++ of_int y ++ u " or 01/03/" ++ of_int y ]
        ++ (if next_leap <? y + 10
            then [u "Or use a leap year: 29/02/" ++ of_int next_leap]
            else [])
      else [] in
    max_day ← Calendar.monthrange y (month parsed);
    let suggestions :=
      if max_day <? day parsed then
        suggestions
        ++ [ u "Day " ++ of_int (day parsed) ++ u " is invalid for month "
               ++ of_int (month parsed) ++ u "/" ++ of_int y ++ u ". "
               ++ u "Maximum day is " ++ of_int max_day;
             u "Try: " ++ of_int max_day ++ u "/" ++ of_int_02d (month parsed)
               ++ u "/" ++ of_int y ]
      else suggestions in
    old ← lt_minus_days parsed reference_date 365;
    Ok (if (old : bool) then
          suggestions
          ++ [ u "Date is in the past (" ++ strftime_dmY parsed ++ u "). "
                 ++ u "Consider using a current or future date." ]
        else suggestions)
  end.

End WithReference.

End DateValidator.

Import DateValidator.

(** ** [llm_client.py]: class [LLMClient] *)

Module LLMClient.

Definition MIN_CONTRACT_LENGTH : nat := 200.

Inductive lang : Type := arabic | english.

(** The action tag of a routing result. *)
Inductive action : Type := updated | unchanged | none.

(** The contract operations, recorded when they are entered. *)
Inductive op : Type := OpGenerate | OpEdit | OpReview | OpExplain.

(** The mutable part of the client: [_contract_memory], the number of
    completion calls made so far, and the operations invoked so far. *)
Record state : Type := State {
  contract_memory : gmap str str;
  ncalls : nat;
  invoked : list op
}.

(** Computations over the client: they read and write the state and may
    raise; the state reached when an exception is raised is kept. *)
Definition M (A : Type) : Type := state -> res A * state.

#[export] Instance M_ret : MRet M := fun A a st => (Ok a, st).
#[export] Instance M_bind : MBind M :=
  fun A B (f : A -> M B) (m : M A) st =>
    match m st with
    | (Ok a, st') => f a st'
    | (Raise e, st') => (Raise e, st')
    end.

(** A computation that does not touch the state. *)
Definition lift {A : Type} (r : res A) : M A := fun st => (r, st).

(** The entry into a contract operation. *)
Definition enter (o : op) : M unit :=
  fun st => (Ok tt, State (contract_memory st) (ncalls st) (invoked st ++ [o])).

(** Python truthiness of a [str] and of an [Optional[str]]. *)
Definition truthy (s : str) : bool := negb (Str.eqb s []).
Definition truthy_opt (o : option str) : bool :=
  match o with Some s => truthy s | None => false end.

(** The text of an [Optional[str]] that holds one. *)
Definition get_str (o : option str) : str :=
  match o with Some s => s | None => [] end.

(** An [Optional[str]] interpolated in an f-string. *)
Definition fmt_opt (o : option str) : str :=
  match o with Some s => s | None => u "None" end.

(** The two marks of an error message. *)
Definition WARNING : str := u "⚠️".
Definition ERROR_TOKEN : str := u "خطأ".

(** The test of the router for "this text is an error message":
    [t and (t.startswith("⚠️") or "خطأ" in t[:50])]. *)
Definition is_error_message (t : option str) : bool :=
  match t with
  | Some t => truthy t && (startswith t WARNING || contains (firstn 50 t) ERROR_TOKEN)
  | None => false
  end.

Section Client.

(** The text-completion backend: the text of the reply to the n-th
    completion call of the client, [None] when the call fails
    ([_chat_completion] returns [None] on any exception). The reply may
    depend on the prompt in any way; retrieval and prompt construction only
    feed the prompt and are not modelled. *)
Variable backend : nat -> option str.

(** The decoding of the classifier reply in [_classify_intent] (removal of
    code fences, [json.loads], access to the three fields): the value of
    the field [action], or [None] when any step of the [try] block raises. *)
Variable json_action : str -> option str.

(** [str.isalpha] on one character. *)
Variable isalpha : N -> bool.

(** [self.date_validator.reference_date] *)
Variable reference_date : datetime.

(** [set_current_contract] *)
Definition set_current_contract (contract session_id : str) : M unit :=
  fun st =>
    (Ok tt, State (<[session_id := contract]> (contract_memory st))
                  (ncalls st) (invoked st)).

(** [get_current_contract] *)
Definition get_current_contract (session_id : str) : M (option str) :=
  fun st => (Ok (contract_memory st !! session_id), st).

(** [clear_contract] *)
Definition clear_contract (session_id : str) : M unit :=
  fun st =>
    (Ok tt, State (delete session_id (contract_memory st))
                  (ncalls st) (invoked st)).

(** [_chat_completion]: the text of the reply, or [None]. *)
Definition _chat_completion : M (option str) :=
  fun st =>
    (Ok (backend (ncalls st)),
     State (contract_memory st) (S (ncalls st)) (invoked st)).

(** [sum(1 for c in text if p(c))] *)
Fixpoint count (p : N -> bool) (text : str) : Z :=
  match text with
  | [] => 0
  | c :: text' => (if p c then 1 else 0) + count p text'
  end.

(** [_detect_language]: Arabic when more than 0.3 of the alphabetic
    characters are in U+0600..U+06FF. The source compares the floating-point
    quotient of the two counts with 0.3; the comparison below is the exact
    one, and the two agree on every text of fewer than 10^15 characters. *)
Definition _detect_language (text : str) : lang :=
  match text with
  | [] => english
  | _ =>
    let arabic_chars := count (range 0x600 0x6ff) text in
    let total_chars := count isalpha text in
    if total_chars =? 0 then english
    else if 3 * total_chars <? 10 * arabic_chars then arabic else english
  end.

(** [_validate_dates_in_text]: [(is_valid, error_message_if_invalid)] *)
Definition _validate_dates_in_text (text : str) (lg : lang)
  : M (bool * option str) :=
  '(all_valid, error_msg, found_dates) ←
    lift (extract_and_validate_dates reference_date text false);
  if negb all_valid then
    let alert :=
      match lg with
      | arabic =>
        u "⚠️ خطأ في التاريخ:" ++ nl ++ nl ++ error_msg ++ nl ++ nl
          ++ u "الرجاء تصحيح التاريخ والمحاولة مرة أخرى."
      | english =>
        u "⚠️ Date Validation Error:" ++ nl ++ nl ++ error_msg ++ nl ++ nl
          ++ u "Please correct the date and try again."
      end in
    mret (false, Some alert)
  else mret (true, None).

(** [_classify_intent]: the label [intent["action"]]. *)
Definition _classify_intent (user_input : str) (has_contract : bool)
           (lg : lang) : M str :=
  response ← _chat_completion;
  match response with
  | None => mret (u "chat")
  | Some content =>
    match json_action content with
    | Some a => mret a
    | None => mret (u "chat")
    end
  end.

(** [generate_contract] *)
Definition generate_contract (user_input : str) : M (option str) :=
  _ ← enter OpGenerate;
  let lg := _detect_language user_input in
  '(dates_valid, error_msg) ← _validate_dates_in_text user_input lg;
  if negb dates_valid then mret error_msg
  else
    response ← _chat_completion;
    match response with
    | None =>
      mret (Some (match lg with
                  | arabic => u "عذراً، حدث خطأ في إنشاء العقد."
                  | english => u "Sorry, error generating contract."
                  end))
    | Some content =>
      let generated_contract := strip content in
      '(dates_valid, error_msg) ← _validate_dates_in_text generated_contract lg;
      if negb dates_valid then
        mret (Some (match lg with
                    | arabic =>
                      u "⚠️ العقد المُنشأ يحتوي على تواريخ غير صحيحة:" ++ nl ++ nl
                        ++ fmt_opt error_msg ++ nl ++ nl
                        ++ u "الرجاء المحاولة مرة أخرى."
                    | english =>
                      u "⚠️ Generated contract contains invalid dates:" ++ nl ++ nl
                        ++ fmt_opt error_msg ++ nl ++ nl ++ u "Please try again."
                    end))
      else mret (Some generated_contract)
    end.

(** [edit_contract] *)
Definition edit_contract (current_contract user_request : str) : M (option str) :=
  _ ← enter OpEdit;
  let lg := _detect_language user_request in
  '(dates_valid, error_msg) ← _validate_dates_in_text user_request lg;
  if negb dates_valid then mret error_msg
  else
    response ← _chat_completion;
    match response with
    | None =>
      mret (Some (match lg with
                  | arabic => u "عذراً، حدث خطأ في التعديل."
                  | english => u "Sorry, error during edit."
                  end))
    | Some content =>
      let edited_contract := strip content in
      '(dates_valid, error_msg) ← _validate_dates_in_text edited_contract lg;
      if negb dates_valid then
        mret (Some (match lg with
                    | arabic =>
                      u "⚠️ التعديل أنتج تواريخ غير صحيحة:" ++ nl ++ nl
                        ++ fmt_opt error_msg ++ nl ++ nl ++ u "العقد الأصلي محفوظ."
                    | english =>
                      u "⚠️ Edit produced invalid dates:" ++ nl ++ nl
                        ++ fmt_opt error_msg ++ nl ++ nl
                        ++ u "Original contract preserved."
                    end))
      else mret (Some edited_contract)
    end.

(** [review_contract]: the date scan only feeds the prompt. *)
Definition review_contract (contract_text : str) : M (option str) :=
  _ ← enter OpReview;
  let lg := _detect_language contract_text in
  _ ← lift (extract_and_validate_dates reference_date contract_text true);
  response ← _chat_completion;
  match response with
  | None =>
    mret (Some (match lg with
                | arabic => u "عذراً، حدث خطأ في المراجعة."
                | english => u "Sorry, error during review."
                end))
  | Some content => mret (Some (strip content))
  end.

(** [explain_clause] *)
Definition explain_clause (contract_text user_query : str) : M (option str) :=
  _ ← enter OpExplain;
  let user_language := _detect_language user_query in
  response ← _chat_completion;
  match response with
  | None =>
    mret (Some (match user_language with
                | arabic => u "عذراً، لم أستطع الشرح."
                | english => u "Sorry, couldn't explain."
                end))
  | Some content => mret (Some (strip content))
  end.

(** The contract the router works on: the caller's contract, stripped,
    when it is not blank, else the stored one. *)
Definition supplied (current_contract : option str) : bool :=
  match current_contract with
  | Some c => truthy c && truthy (strip c)
  | None => false
  end.

(** The routing of [get_chat_response] on the classified intent (its
    [if]/[elif] chain). *)
Definition dispatch (user_input session_id : str) (lg : lang)
           (active_contract : option str) (action_type : str)
  : M (str * option str * action) :=
  let has_contract :=
    match active_contract with Some _ => true | None => false end in
  if Str.eqb action_type (u "create") then
    contract ← generate_contract user_input;
    if is_error_message contract then
      if truthy_opt active_contract
      then mret (get_str contract, active_contract, unchanged)
      else mret (get_str contract, None, none)
    else if truthy_opt contract then
      _ ← set_current_contract (get_str contract) session_id;
      let msg := match lg with
                 | arabic => u "تم إنشاء العقد بنجاح ✓"
                 | english => u "Contract created successfully ✓"
                 end in
      mret (msg, contract, updated)
    else
      let error_msg := match lg with
                       | arabic => u "خطأ في إنشاء العقد"
                       | english => u "Error creating contract"
                       end in
      if truthy_opt active_contract
      then mret (error_msg, active_contract, unchanged)
      else mret (error_msg, None, none)
  else if Str.eqb action_type (u "edit") then
    match active_contract with
    | None =>
      let msg :=
        match lg with
        | arabic => u "أحتاج عقد موجود لأعدله. الصق العقد أو اطلب إنشاء عقد جديد."
        | english =>
          u "I need an existing contract to edit. Paste one or ask me to create a new contract."
        end in
      mret (msg, None, none)
    | Some active =>
      upd ← edit_contract active user_input;
      if is_error_message upd then mret (get_str upd, active_contract, unchanged)
      else if truthy_opt upd
              && (MIN_CONTRACT_LENGTH <=? length (strip (get_str upd)))%nat
              && negb (Str.eqb (get_str upd) active)
      then
        _ ← set_current_contract (get_str upd) session_id;
        let msg := match lg with
                   | arabic => u "تم التعديل بنجاح ✓"
                   | english => u "Updated successfully ✓"
                   end in
        mret (msg, upd, updated)
      else
        let msg := match lg with
                   | arabic => u "لم أتمكن من التعديل. هل يمكنك توضيح الطلب؟"
                   | english => u "Couldn't update. Can you clarify?"
                   end in
        mret (msg, active_contract, unchanged)
    end
  else if Str.eqb action_type (u "explain") then
    match active_contract with
    | None =>
      mret (match lg with
            | arabic => u "أحتاج عقد لأشرحه. الصق العقد أو اطلب إنشاء عقد جديد."
            | english =>
              u "I need a contract to explain. Paste one or ask me to create a new contract."
            end, None, none)
    | Some active =>
      explanation ← explain_clause active user_input;
      mret (get_str explanation, active_contract, unchanged)
    end
  else if Str.eqb action_type (u "review") then
    match active_contract with
    | None =>
      mret (match lg with
            | arabic => u "أحتاج عقد لأراجعه. الصق العقد أو اطلب إنشاء عقد جديد."
            | english =>
              u "I need a contract to review. Paste one or ask me to create a new contract."
            end, None, none)
    | Some active =>
      review ← review_contract active;
      mret (get_str review, active_contract, unchanged)
    end
  else
    response ← _chat_completion;
    match response with
    | None =>
      let msg := match lg with
                 | arabic => u "عذراً، خطأ في معالجة الطلب"
                 | english => u "Sorry, error processing request"
                 end in
      if has_contract then mret (msg, active_contract, unchanged)
      else mret (msg, None, none)
    | Some content =>
      let result := strip content in
      if has_contract then mret (result, active_contract, unchanged)
      else mret (result, None, none)
    end.

(** [get_chat_response]: [(message, contract, action)] *)
Definition get_chat_response (user_input : str) (current_contract : option str)
           (session_id : str) : M (str * option str * action) :=
  let lg := _detect_language user_input in
  _ ← (if supplied current_contract
       then set_current_contract (get_str current_contract) session_id
       else mret tt);
  stored_contract ← get_current_contract session_id;
  let active_contract :=
    if supplied current_contract
    then Some (strip (get_str current_contract))
    else stored_contract in
  let has_contract :=
    match active_contract with Some _ => true | None => false end in
  action_type ← _classify_intent user_input has_contract lg;
  dispatch user_input session_id lg active_contract action_type.

End Client.

End LLMClient.

Import LLMClient.

(** ** [date_validator.py]: the module-level function [is_valid_date] *)

Module Convenience.

(** [is_valid_date(date_str)] *)
Definition is_valid_date (date_str : str) : res bool :=
  '(is_valid, _, _) ← validate_date date_str;
  Ok is_valid.

End Convenience.

(** ** Further Python built-ins *)

Module Builtins.

(** The indices [i, i + step, ...] below [stop]. *)
Fixpoint range_from (fuel i stop step : nat) : list nat :=
  match fuel with
  | O => []
  | S f =>
    if (i <? stop)%nat then i :: range_from f (i + step) stop step else []
  end.

(** [range(0, stop, step)] for [stop >= 0]: a zero step raises
    [ValueError], a negative one gives the empty range. *)
Definition range0 (stop : nat) (step : Z) : res (list nat) :=
  if step =? 0 then Raise ValueError
  else if step <? 0 then Ok []
  else Ok (range_from stop 0 stop (Z.to_nat step)).

(** [lst[i:j]] for [0 <= i <= j] *)
Definition slice {A : Type} (lst : list A) (i j : nat) : list A :=
  firstn (j - i) (skipn i lst).

(** [re.sub(r'\n{2,}', '\n', text)]: a run of newlines becomes one. *)
Fixpoint collapse_newlines (s : str) : str :=
  match s with
  | [] => []
  | c :: s' =>
    match s' with
    | c' :: _ =>
      if ((c =? 10) && (c' =? 10))%N then collapse_newlines s'
      else c :: collapse_newlines s'
    | [] => [c]
    end
  end.

End Builtins.

Import Builtins.

(** ** [config.py]: the context keywords *)

Module Config.

Definition CONTEXT_PATTERNS : list (str * list str) :=
  [ (u "furnished",
     [u "furnished"; u "مفروش"; u "مفروشة"; u "أثاث"; u "furniture"]);
    (u "commercial",
     [u "commercial"; u "business"; u "تجاري"; u "تجارية"; u "محل"; u "مكتب"]);
    (u "short_term",
     [ u "short";
       u "daily";
       u "weekly";
       u "monthly";
       u "قصيرة";
       u "يومي";
       u "أسبوعي";
       u "شهري" ]);
    (u "shared",
     [u "shared"; u "roommate"; u "مشترك"; u "مشاركة"; u "زميل سكن"]);
    (u "with_parking",
     [u "parking"; u "garage"; u "موقف"; u "جراج"; u "سيارة"]);
    (u "with_pets",
     [ u "pet";
       u "dog";
       u "cat";
       u "حيوان";
       u "كلب";
       u "قطة";
       u "حيوانات أليفة" ]);
    (u "with_garden",
     [u "garden"; u "yard"; u "حديقة"; u "فناء"]);
    (u "villa",
     [u "villa"; u "فيلا"]);
    (u "office",
     [u "office"; u "مكتب"]);
    (u "shop",
     [u "shop"; u "store"; u "retail"; u "محل"; u "متجر"]);
    (u "warehouse",
     [u "warehouse"; u "storage"; u "مستودع"; u "مخزن"]);
    (u "agricultural",
     [u "agricultural"; u "farm"; u "land"; u "زراعي"; u "مزرعة"; u "أرض"]);
    (u "tourism",
     [u "tourism"; u "vacation"; u "holiday"; u "سياحي"; u "إجازة"; u "عطلة"]);
    (u "seasonal",
     [u "seasonal"; u "summer"; u "winter"; u "موسمي"; u "صيفي"; u "شتوي"]);
    (u "students",
     [u "student"; u "university"; u "college"; u "طالب"; u "جامعة"; u "طلاب"]) ].

End Config.

(** ** [utils.py] *)

Module Utils.

Section Lower.

(** [str.lower] *)
Variable lower : str -> str.

(** [detect_lease_context]: the contexts in the order of
    [CONTEXT_PATTERNS], each with the flag "one of its words occurs in the
    lowered text". *)
Definition detect_lease_context (text : str) : list (str * bool) :=
  let text_lower := lower text in
  map (fun '(key, patterns) =>
         (key, existsb (fun word => contains text_lower word) patterns))
      Config.CONTEXT_PATTERNS.

End Lower.

End Utils.

(** ** [clauses.py] *)

Module Clauses.

Record template : Type := Template { title : str; clauses : list str }.

Definition CONTEXTUAL_CLAUSE_TEMPLATES : list (str * template) :=
  [ (u "furnished",
     Template (u "FURNISHED APARTMENT CLAUSES (5 additional clauses)")
       [ u "28. Furniture Inventory (جرد الأثاث المفصل) - complete list with conditions";
         u "29. Furniture Maintenance & Damage Liability (الصيانة والمسؤولية عن الأضرار)";
         u "30. Appliances List & Warranties (الأجهزة الكهربائية والضمانات)";
         u "31. Furniture Return Conditions (شروط إعادة الأثاث)";
         u "32. Prohibited Furniture Modifications (التعديلات المحظورة على الأثاث)" ]);
    (u "commercial",
     Template (u "COMMERCIAL LEASE CLAUSES (4 additional clauses)")
       [ u "Business License Requirements (متطلبات الترخيص التجاري)";
         u "Permitted Business Activities (الأنشطة التجارية المسموحة)";
         u "Signage & Branding Rights (حقوق اللافتات والعلامة التجارية)";
         u "Commercial Insurance Requirements (متطلبات التأمين التجاري)" ]);
    (u "short_term",
     Template (u "SHORT-TERM LEASE CLAUSES (3 additional clauses)")
       [ u "Extended Stay Conditions (شروط الإقامة الممتدة)";
         u "Daily/Weekly Rate Structure (هيكل الأسعار اليومي/الأسبوعي)";
         u "Early Checkout Penalties (غرامات المغادرة المبكرة)" ]);
    (u "shared",
     Template (u "SHARED ACCOMMODATION CLAUSES (4 additional clauses)")
       [ u "Roommate Rights & Responsibilities (حقوق ومسؤوليات الزملاء)";
         u "Shared Space Usage Rules (قواعد استخدام المساحات المشتركة)";
         u "Individual vs Joint Liability (المسؤولية الفردية مقابل المشتركة)";
         u "Roommate Change Procedures (إجراءات تغيير الزملاء)" ]);
    (u "with_parking",
     Template (u "PARKING CLAUSES (2 additional clauses)")
       [ u "Parking Space Assignment (تخصيص موقف السيارات)";
         u "Parking Violations & Penalties (مخالفات المواقف والغرامات)" ]);
    (u "with_pets",
     Template (u "PET CLAUSES (3 additional clauses)")
       [ u "Permitted Pet Types & Sizes (أنواع وأحجام الحيوانات المسموحة)";
         u "Pet Deposit & Damage Liability (تأمين الحيوانات والمسؤولية عن الأضرار)";
         u "Pet Care & Neighbor Considerations (العناية بالحيوانات ومراعاة الجيران)" ]);
    (u "with_garden",
     Template (u "GARDEN/YARD CLAUSES (2 additional clauses)")
       [ u "Garden Maintenance Responsibilities (مسؤوليات صيانة الحديقة)";
         u "Landscaping Restrictions (قيود تنسيق الحدائق)" ]);
    (u "villa",
     Template (u "VILLA-SPECIFIC CLAUSES (3 additional clauses)")
       [ u "Pool Maintenance & Safety (صيانة المسبح والسلامة)";
         u "External Areas Responsibilities (مسؤوليات المناطق الخارجية)";
         u "Staff/Helper Accommodation (إقامة العمالة المساعدة)" ]);
    (u "office",
     Template (u "OFFICE LEASE CLAUSES (4 additional clauses)")
       [ u "Working Hours & Access (ساعات العمل والدخول)";
         u "Office Equipment & Fixtures (المعدات والتجهيزات المكتبية)";
         u "Client/Visitor Policies (سياسات العملاء والزوار)";
         u "Data/Internet Infrastructure (البنية التحتية للبيانات والإنترنت)" ]);
    (u "shop",
     Template (u "SHOP/RETAIL CLAUSES (4 additional clauses)")
       [ u "Display Window Rights (حقوق واجهة العرض)";
         u "Operating Hours Restrictions (قيود ساعات التشغيل)";
         u "Customer Parking Arrangements (ترتيبات مواقف العملاء)";
         u "Retail License Compliance (الامتثال لترخيص البيع بالتجزئة)" ]);
    (u "warehouse",
     Template (u "WAREHOUSE CLAUSES (4 additional clauses)")
       [ u "Loading/Unloading Facilities (مرافق التحميل والتفريغ)";
         u "Storage Material Restrictions (قيود مواد التخزين)";
         u "Fire Safety & Security Requirements (متطلبات السلامة من الحرائق والأمن)";
         u "Inventory Management Rules (قواعد إدارة المخزون)" ]);
    (u "agricultural",
     Template (u "AGRICULTURAL LAND CLAUSES (5 additional clauses)")
       [ u "Permitted Crops/Activities (المحاصيل/الأنشطة المسموحة)";
         u "Water Rights & Irrigation (حقوق المياه والري)";
         u "Equipment & Machinery Storage (تخزين المعدات والآلات)";
         u "Harvest Rights & Distribution (حقوق الحصاد والتوزيع)";
         u "Land Improvement Ownership (ملكية تحسينات الأرض)" ]);
    (u "tourism",
     Template (u "TOURISM/VACATION RENTAL CLAUSES (4 additional clauses)")
       [ u "Tourist Registration Requirements (متطلبات تسجيل السياح)";
         u "Cleaning & Housekeeping Services (خدمات التنظيف)";
         u "Maximum Occupancy Limits (حد أقصى للإشغال)";
         u "Cancellation & Refund Policy (سياسة الإلغاء والاسترداد)" ]);
    (u "seasonal",
     Template (u "SEASONAL LEASE CLAUSES (3 additional clauses)")
       [ u "Off-Season Property Access (الوصول للعقار خارج الموسم)";
         u "Seasonal Rate Variations (تفاوت الأسعار الموسمية)";
         u "Property Winterization/Preparation (تجهيز العقار للمواسم)" ]);
    (u "students",
     Template (u "STUDENT HOUSING CLAUSES (4 additional clauses)")
       [ u "Academic Calendar Alignment (التوافق مع التقويم الأكاديمي)";
         u "Parent/Guardian Guarantees (ضمانات ولي الأمر)";
         u "Study Environment Rules (قواعد بيئة الدراسة)";
         u "Summer Break Arrangements (ترتيبات العطلة الصيفية)" ]) ].

(** [ctx in CONTEXTUAL_CLAUSE_TEMPLATES] and
    [CONTEXTUAL_CLAUSE_TEMPLATES[ctx]] *)
Fixpoint templates_get (table : list (str * template)) (ctx : str)
  : option template :=
  match table with
  | [] => None
  | (k, v) :: table' => if Str.eqb k ctx then Some v else templates_get table' ctx
  end.

(** [generate_contextual_clauses]; the dictionary [contexts] is the list
    of its items, in insertion order. *)
Definition generate_contextual_clauses (contexts : list (str * bool)) : str :=
  let active :=
    flat_map (fun '(ctx, is_active) =>
                if (is_active : bool) then
                  match templates_get CONTEXTUAL_CLAUSE_TEMPLATES ctx with
                  | Some t => [t]
                  | None => []
                  end
                else [])
             contexts in
  match active with
  | [] => []
  | _ =>
    let sections :=
      map (fun t =>
             nl ++ u "**" ++ title t ++ u ":**" ++ nl
                ++ join nl (map (fun c => u "- " ++ c) (clauses t)))
          active in
    nl ++ nl ++ u "**ADDITIONAL CONTEXT-SPECIFIC CLAUSES:**" ++ concat sections
  end.

End Clauses.

(** ** [ingest_to_supabase.py] *)

Module Ingest.

(** [chunk_list(lst, n)], as the list of the chunks it yields. *)
Definition chunk_list {A : Type} (lst : list A) (n : Z) : res (list (list A)) :=
  idx ← range0 (length lst) n;
  Ok (map (fun i => slice lst i (i + Z.to_nat n)) idx).

End Ingest.

(** ** [split_clauses.py] *)

Module SplitClauses.

(** [r1|r2|...] *)
Fixpoint alt_all (r : regex) (rs : list regex) : regex :=
  match rs with
  | [] => r
  | r' :: rs' => Alt r (alt_all r' rs')
  end.

(** [CLAUSE_START_PATTERN] (written with [re.VERBOSE]: the blanks of the
    pattern do not count). *)
Definition CLAUSE_START_PATTERN : regex :=
  Grp 1
    (alt_all
       (cat_all [lits (u "المادة"); plus sp; plus d])
       [ cat_all [lits (u "البند"); plus sp; plus d];
         cat_all [lits (u "المادة"); plus sp;
                  Grp 2 (alt_all (lits (u "الأولى"))
                           [ lits (u "الثانية"); lits (u "الثالثة");
                             lits (u "الرابعة"); lits (u "الخامسة");
                             lits (u "السادسة"); lits (u "السابعة");
                             lits (u "الثامنة"); lits (u "التاسعة");
                             lits (u "العاشرة") ])];
         Grp 3 (alt_all (lits (u "أولاً"))
                  [ lits (u "ثانياً"); lits (u "ثالثاً"); lits (u "رابعاً");
                    lits (u "خامساً"); lits (u "سادساً"); lits (u "سابعاً");
                    lits (u "ثامناً"); lits (u "تاسعاً"); lits (u "عاشراً") ]);
         cat_all [Chr (one_of (u "أبجدهوزحطي")); Star sp;
                  Chr (one_of (u "-–:"))];
         cat_all [plus d; Star sp; Chr (one_of (u "-–:."))] ]).

(** [CLAUSE_START_PATTERN.match(line)], as a truth value. *)
Definition starts_clause (line : str) : bool :=
  match match_ CLAUSE_START_PATTERN line with
  | Some _ => true
  | None => false
  end.

(** The body of the loop of [split_into_chunks], on the pair of [chunks]
    and [buffer]. *)
Definition chunk_step (st : list str * str) (line : str) : list str * str :=
  let '(chunks, buffer) := st in
  if starts_clause line && truthy buffer
  then (chunks ++ [strip buffer], line)
  else (chunks, buffer ++ u " " ++ line).

(** [split_into_chunks] *)
Definition split_into_chunks (text : str) : list str :=
  let text := collapse_newlines text in
  let lines :=
    List.filter (fun l => (0 <? length l)%nat) (map strip (split 10 text)) in
  let '(chunks, buffer) := fold_left chunk_step lines ([], []) in
  let chunks := if truthy buffer then chunks ++ [strip buffer] else chunks in
  List.filter (fun c => (40 <? length c)%nat) chunks.

(** A chunk with its file, as [split_clauses.py] collects them, and a
    clause as [fix_broken_clauses] returns it ([clause_type] is the optional
    key ["type"]). *)
Record chunk : Type := Chunk { source_file : str; chunk_id : Z; text : str }.

Record clause : Type := Clause {
  clause_source_file : str; clause_text : str; clause_type : option str
}.

(** The body of the loop of [fix_broken_clauses], on the pair of [fixed]
    and [current]. *)
Definition fix_step (st : list clause * option clause) (ch : chunk)
  : list clause * option clause :=
  let '(fixed, current) := st in
  let text := strip (text ch) in
  if negb (truthy text) then (fixed, current)
  else if starts_clause text then
    (match current with
     | Some c => fixed ++ [c]
     | None => fixed
     end,
     Some (Clause (source_file ch) text None))
  else
    match current with
    | Some c =>
      if Str.eqb (clause_source_file c) (source_file ch)
      then (fixed,
            Some (Clause (clause_source_file c)
                         (clause_text c ++ u " " ++ text) (clause_type c)))
      else (fixed ++ [c], Some (Clause (source_file ch) text None))
    | None =>
      (fixed ++ [Clause (source_file ch) text (Some (u "metadata"))], None)
    end.

(** [fix_broken_clauses] *)
Definition fix_broken_clauses (chunks : list chunk) : list clause :=
  let '(fixed, current) := fold_left fix_step chunks ([], None) in
  match current with
  | Some c => fixed ++ [c]
  | None => fixed
  end.

End SplitClauses.

(** ** [split_law.py] *)

Module SplitLaw.

Section Library.

(** [unicodedata.normalize("NFKC", text)] *)
Variable normalize_NFKC : str -> str.

(** [re.split(pattern, text, flags=re.MULTILINE)] with the pattern of the
    article headings: the pieces of the text. *)
Variable split_articles : str -> list str.

(** The loop over the pieces ("clean, filter, safety split"). *)
Fixpoint law_chunks (parts : list str) (min_len max_chars : Z)
         (chunks : list str) : res (list str) :=
  match parts with
  | [] => Ok chunks
  | p :: parts' =>
    let p := strip p in
    if Z.of_nat (length p) <? min_len
    then law_chunks parts' min_len max_chars chunks
    else if Z.of_nat (length p) <=? max_chars
    then law_chunks parts' min_len max_chars (chunks ++ [p])
    else
      idx ← range0 (length p) max_chars;
      let subs :=
        List.filter (fun sub => min_len <=? Z.of_nat (length sub))
               (map (fun i => strip (slice p i (i + Z.to_nat max_chars))) idx) in
      law_chunks parts' min_len max_chars (chunks ++ subs)
  end.

(** [split_law_by_article] *)
Definition split_law_by_article (text : str) (min_len max_chars : Z)
  : res (list str) :=
  let text := normalize_NFKC text in
  let text := strip (collapse_newlines text) in
  law_chunks (split_articles text) min_len max_chars [].

End Library.

End SplitLaw.

(** * Vocabulary of the properties *)

(** What the matcher computes, as a relation: [Matches r s c] when [r]
    matches exactly the text [s] and captures [c]. *)
Inductive Matches : regex -> str -> caps -> Prop :=
| MEps : Matches Eps [] []
| MChr p x : p x = true -> Matches (Chr p) [x] []
| MCat r1 r2 s1 s2 c1 c2 :
    Matches r1 s1 c1 -> Matches r2 s2 c2 ->
    Matches (Cat r1 r2) (s1 ++ s2) (c2 ++ c1)
| MAltL r1 r2 s c : Matches r1 s c -> Matches (Alt r1 r2) s c
| MAltR r1 r2 s c : Matches r2 s c -> Matches (Alt r1 r2) s c
| MStar0 r : Matches (Star r) [] []
| MStarS r s1 s2 c1 c2 :
    Matches r s1 c1 -> Matches (Star r) s2 c2 ->
    Matches (Star r) (s1 ++ s2) (c2 ++ c1)
| MGrp i r s c : Matches r s c -> Matches (Grp i r) s ((i, s) :: c).

(** The longest text an expression can match, when there is a bound. *)
Fixpoint maxlen (r : regex) : option nat :=
  match r with
  | Eps => Some O
  | Chr _ => Some 1%nat
  | Cat r1 r2 =>
    match maxlen r1, maxlen r2 with
    | Some a, Some b => Some (a + b)%nat
    | _, _ => None
    end
  | Alt r1 r2 =>
    match maxlen r1, maxlen r2 with
    | Some a, Some b => Some (Nat.max a b)
    | _, _ => None
    end
  | Star _ => None
  | Grp _ r1 => maxlen r1
  end.

(** Every group numbered [i] in [r] captures at most [n] characters. *)
Fixpoint group_bound (i n : nat) (r : regex) : bool :=
  match r with
  | Eps | Chr _ => true
  | Cat r1 r2 | Alt r1 r2 => group_bound i n r1 && group_bound i n r2
  | Star r1 => group_bound i n r1
  | Grp j r1 =>
    group_bound i n r1 &&
    (negb (i =? j)%nat ||
     match maxlen r1 with
     | Some k => (k <=? n)%nat
     | None => false
     end)
  end.

(** No character class of [r] accepts a character of [bad]. *)
Fixpoint avoids (bad : list N) (r : regex) : bool :=
  match r with
  | Eps => true
  | Chr p => forallb (fun b => negb (p b)) bad
  | Cat r1 r2 | Alt r1 r2 => avoids bad r1 && avoids bad r2
  | Star r1 | Grp _ r1 => avoids bad r1
  end.

(** A calendar date at midnight. *)
Definition calendar_date (a : datetime) : Prop :=
  1 <= year a <= 9999 /\ 1 <= month a <= 12
  /\ 1 <= day a <= days_in_month (year a) (month a)
  /\ hour a = 0 /\ minute a = 0 /\ second a = 0 /\ microsecond a = 0.

(** The result of an operation is not an uncaught [OverflowError]. *)
Definition safe {A : Type} (r : res A) : Prop := r <> Raise OverflowError.

(** The operation returns a value. *)
Definition returns {A : Type} (r : res A) : Prop := exists a, r = Ok a.

(** The groups of a format are short enough for a C [int]. *)
Definition format_ok (fmt : str) : bool :=
  match pattern fmt with
  | Some r => group_bound gY 9 r && group_bound gm 9 r && group_bound gd 9 r
  | None => true
  end.

(** The characters of the parts of a split. *)
Fixpoint total_length (parts : list str) : nat :=
  match parts with
  | [] => O
  | p :: ps => (length p + total_length ps)%nat
  end.

(** The texts on which [parse_date] is known to return. *)
Definition parsable (s : str) : Prop :=
  (length s <= 10)%nat \/ (forall b, In b [0x2f; 0x2d; 0x2e]%N -> ~ In b s).

(** The three error messages of [validate_date]. *)
Definition format_error (s : str) : str := u "Invalid date format: " ++ s.
Definition calendar_error (s : str) : str :=
  u "Invalid date: " ++ s ++ u " (this date does not exist in the calendar)".
Definition year_error (y : Z) : str :=
  u "Year out of reasonable range: " ++ of_int y.

(** The extra day of a leap year. *)
Definition leap_day (y : Z) : Z := if Calendar.isleap y then 1 else 0.

(** The month lengths as a function of the leap flag of the year. *)
Definition month_length (leap : bool) (m : Z) : Z :=
  Calendar.mdays m + (if (m =? 2) && leap then 1 else 0).

(** [days_before_month], on the leap flag of the year. *)
Fixpoint days_before (fuel : nat) (leap : bool) (m : Z) : Z :=
  match fuel with
  | O => 0
  | S f =>
    if m <=? 1 then 0
    else month_length leap (m - 1) + days_before f leap (m - 1)
  end.

(** The days before the first of January of year [y]. *)
Definition days_before_year (y : Z) : Z :=
  (y - 1) * 365 + (y - 1) / 4 - (y - 1) / 100 + (y - 1) / 400.

(** Reference dates for the examples: 15 January 2026, 10:30, and
    1 June 1999, 00:00. *)
Definition ref_2026_01_15 : datetime := mkdt 2026 1 15 10 30 0 0.
Definition ref_1999_06_01 : datetime := mkdt 1999 6 1 0 0 0 0.

(** The date-like matches of a text, in the order of the scan. *)
Definition date_matches (text : str) : list match_obj :=
  flat_map (fun p => finditer p text) date_patterns.

(** The range phrases of a text, in the order of the scan. *)
Definition range_matches (text : str) : list match_obj :=
  flat_map (fun p => finditer p text) range_patterns.

(** The finding [f] records the validation of the match [m]. *)
Definition checked (m : match_obj) (f : finding) : Prop :=
  f_text f = m_text m
  /\ validate_date (m_text m) = Ok (f_valid f, f_error f, f_parsed f).

(** The entry of an invalid date in the combined message. *)
Definition entry (f : finding) : str :=
  u "Invalid date '" ++ f_text f ++ u "': " ++ f_error f.

(** The entries of the invalid dates among the findings. *)
Definition date_errors (fs : list finding) : list str :=
  flat_map (fun f => if f_valid f then [] else [entry f]) fs.

(** [o] records the validation of the range phrase [m]: its error, if any. *)
Definition range_checked (reference_date : datetime) (allow_past_start : bool)
           (m : match_obj) (o : option str) : Prop :=
  exists s e v msg,
    group (m_caps m) 1 = Some s /\ group (m_caps m) 2 = Some e
    /\ validate_date_range reference_date s e allow_past_start 1 36500 = Ok (v, msg)
    /\ o = if (v : bool) then None else Some msg.

(** The errors of the invalid ranges. *)
Definition range_errors (os : list (option str)) : list str :=
  flat_map (fun o => match o with Some e => [e] | None => [] end) os.

(** The text [p] occurs in [msg]. *)
Definition occurs (p msg : str) : Prop := exists pre post, msg = pre ++ p ++ post.

(** Every match of [r] captures the group [i]. *)
Fixpoint captures (i : nat) (r : regex) : bool :=
  match r with
  | Eps | Chr _ | Star _ => false
  | Cat r1 r2 => captures i r1 || captures i r2
  | Alt r1 r2 => captures i r1 && captures i r2
  | Grp j r1 => (i =? j)%nat || captures i r1
  end.

(** A date pattern matches texts that [parse_date] can take. *)
Definition date_pattern_ok (r : regex) : bool :=
  match maxlen r with
  | Some n => (n <=? 10)%nat
  | None => avoids [0x2f; 0x2d; 0x2e]%N r
  end.

(** A range pattern captures both dates, each of at most ten characters. *)
Definition range_pattern_ok (r : regex) : bool :=
  captures 1 r && captures 2 r && group_bound 1 10 r && group_bound 2 10 r.

(** A text with a backward range and an impossible date. *)
Definition backward_and_impossible : str :=
  u "Lease from 10/01/2027 to 05/01/2027, signed 30/02/2026.".

(** The text passes the date scan of the generate and edit operations. *)
Definition passes_scan (reference_date : datetime) (text : str) : Prop :=
  exists msg fs,
    extract_and_validate_dates reference_date text false = Ok (true, msg, fs).

(** What [generate_contract] returns: an error message, the English
    fallback text, or a stripped completion that passes the scan. *)
Definition generated (reference_date : datetime) (o : option str) : Prop :=
  is_error_message o = true
  \/ o = Some (u "Sorry, error generating contract.")
  \/ exists content,
       o = Some (strip content) /\ passes_scan reference_date (strip content).

(** What [edit_contract] returns, likewise. *)
Definition edited (reference_date : datetime) (o : option str) : Prop :=
  is_error_message o = true
  \/ o = Some (u "Sorry, error during edit.")
  \/ exists content,
       o = Some (strip content) /\ passes_scan reference_date (strip content).

(** The memory after the router has taken over the caller's contract. *)
Definition sync (current_contract : option str) (session_id : str)
           (mem : gmap str str) : gmap str str :=
  if supplied current_contract
  then <[session_id := get_str current_contract]> mem
  else mem.

(** The contract the router works on. *)
Definition active (current_contract : option str) (session_id : str)
           (mem : gmap str str) : option str :=
  if supplied current_contract
  then Some (strip (get_str current_contract))
  else mem !! session_id.

(** The label the classifier returns on the [n]-th completion call. *)
Definition intent_of (backend : nat -> option str)
           (json_action : str -> option str) (n : nat) : str :=
  match backend n with
  | None => u "chat"
  | Some content =>
    match json_action content with
    | Some a => a
    | None => u "chat"
    end
  end.

(** What the dispatch returns, by action tag. *)
Definition routed (reference_date : datetime) (sid : str) (act : option str)
           (intent : str) (mem1 : gmap str str) (c : option str) (a : action)
           (mem' : gmap str str) : Prop :=
  match a with
  | updated =>
    exists t, c = Some t /\ mem' = <[sid := t]> mem1
              /\ passes_scan reference_date t
              /\ (intent = u "create"
                  \/ (intent = u "edit"
                      /\ exists a0 content,
                           act = Some a0 /\ t <> a0 /\ t = strip content))
  | unchanged => c = act /\ (exists a0, act = Some a0) /\ mem' = mem1
  | none => c = None /\ mem' = mem1
  end.

(** The double quote. *)
Definition quote : str := [0x22]%N.

(** The text that follows the first occurrence of [marker] in [s]. *)
Fixpoint after (marker s : str) : option str :=
  if startswith s marker then Some (skipn (length marker) s)
  else match s with
       | [] => None
       | _ :: s' => after marker s'
       end.

(** The text before the first [c] of [s]. *)
Fixpoint upto (c : N) (s : str) : str :=
  match s with
  | [] => []
  | x :: s' => if (x =? c)%N then [] else x :: upto c s'
  end.

(** A decoder for the examples: it reads the label of a reply of the form
    [{"action": "<label>", ...}]. *)
Definition read_action (content : str) : option str :=
  option_map (upto 0x22)
             (after (quote ++ u "action" ++ quote ++ u ": " ++ quote) content).

(** A classifier reply with the given label. *)
Definition reply (label : str) : str :=
  u "{" ++ quote ++ u "action" ++ quote ++ u ": " ++ quote ++ label ++ quote
    ++ u ", " ++ quote ++ u "confidence" ++ quote ++ u ": 0.9, "
    ++ quote ++ u "reasoning" ++ quote ++ u ": " ++ quote ++ u "request"
    ++ quote ++ u "}".

(** [str.isalpha] on ASCII and Arabic letters. *)
Definition letter (c : N) : bool :=
  range 0x41 0x5a c || range 0x61 0x7a c || range 0x621 0x64a c.

(** A backend that answers the [n]-th call with the [n]-th reply of a
    list, and fails afterwards. *)
Definition scripted (replies : list (option str)) (n : nat) : option str :=
  match nth_error replies n with
  | Some r => r
  | None => None
  end.

(** The session, the texts and the states of the examples. *)
Definition default_session : str := u "default".

Definition lease : str :=
  u "LEASE AGREEMENT. The landlord lets the apartment to the tenant for one year.".

Definition create_request : str := u "Create a lease contract for an apartment".
Definition edit_request : str := u "Add a clause about pets".

Definition empty_state : state := State ∅ 0 [].
Definition lease_state : state := State {[ default_session := lease ]} 0 [].

(** ** Vocabulary of the further properties *)

(** Every match of [r] holds a character with the property [P]. *)
Fixpoint requires (P : N -> Prop) (r : regex) : Prop :=
  match r with
  | Eps | Star _ => False
  | Chr p => forall x, p x = true -> P x
  | Cat r1 r2 => requires P r1 \/ requires P r2
  | Alt r1 r2 => requires P r1 /\ requires P r2
  | Grp _ r1 => requires P r1
  end.

(** The character is a decimal digit; the character is a blank. *)
Definition is_digit (x : N) : Prop := isdigit x = true.

Definition is_space (x : N) : Prop := isspace x = true.

(** The two suggestions that [get_validation_suggestions] can make. *)
Definition format_hint : str := u "Use format DD/MM/YYYY (e.g., 23/02/2026)".

Definition past_hint (a : datetime) : str :=
  u "Date is in the past (" ++ strftime_dmY a ++ u "). "
    ++ u "Consider using a current or future date.".

(** The message is the refusal of a lease that is too short. *)
Definition too_short (msg : str) : bool :=
  startswith msg (u "Lease duration too short").

(** Two texts differ at a position that both have. *)
Fixpoint mismatch (a p : str) : bool :=
  match a, p with
  | x :: a', y :: p' => negb (x =? y)%N || mismatch a' p'
  | _, _ => false
  end.

(** Every character that [r] matches has the property [P]. *)
Fixpoint within (P : N -> Prop) (r : regex) : Prop :=
  match r with
  | Eps => True
  | Chr p => forall x, p x = true -> P x
  | Cat r1 r2 | Alt r1 r2 => within P r1 /\ within P r2
  | Star r1 | Grp _ r1 => within P r1
  end.

(** Every character captured by a group numbered [i] in [r] has the
    property [P]. *)
Fixpoint group_within (P : N -> Prop) (i : nat) (r : regex) : Prop :=
  match r with
  | Eps | Chr _ => True
  | Cat r1 r2 | Alt r1 r2 => group_within P i r1 /\ group_within P i r2
  | Star r1 => group_within P i r1
  | Grp j r1 => group_within P i r1 /\ (i = j -> within P r1)
  end.

(** The letters of the class [أ-ي]. *)
Definition arabic_range (c : N) : Prop := (0x623 <= c <= 0x64a)%N.

(** The keys of [ARABIC_MONTHS] that hold a character outside [أ-ي]. *)
Definition unreachable_months : list str :=
  [ u "ينايר"; u "آذار"; u "آب"; u "تشرين الأول"; u "تشرين الثاني";
    u "كانون الأول" ].

(** The character of the decimal digit [k]. *)
Definition dg (k : Z) : N := (0x30 + Z.to_N k)%N.

(** The expression of a directive of [strptime]. *)
Definition dir (c : N) : regex :=
  match directive c with
  | Some r => r
  | None => Eps
  end.

(** The matcher takes [pre] for [r], with the captures [cs], whenever what
    follows is accepted: the first way in which [r] matches at the start of
    [pre ++ rest] is [pre] itself. *)
Definition accepts (r : regex) (pre : str) (cs : caps) : Prop :=
  forall (A : Type) (rest : str) (c : caps) (k : str -> caps -> option A) (v : A),
    k rest (cs ++ c) = Some v -> rmatch r (pre ++ rest) c k = Some v.

(** The expression of the format [%d/%m/%Y]. *)
Definition dmY_regex : regex :=
  Cat (dir 0x64) (Cat (ilit 0x2f) (Cat (dir 0x6d) (Cat (ilit 0x2f)
    (Cat (dir 0x59) Eps)))).

(** The contract operation that a turn enters, by intent and active
    contract. *)
Definition entered (intent : str) (act : option str) : list op :=
  if Str.eqb intent (u "create") then [OpGenerate]
  else
    match act with
    | None => []
    | Some _ =>
      if Str.eqb intent (u "edit") then [OpEdit]
      else if Str.eqb intent (u "explain") then [OpExplain]
      else if Str.eqb intent (u "review") then [OpReview]
      else []
    end.

(** The state [st'] is [st] after the operations [ops] have been entered
    and between [lo] and [hi] completion calls have been made. *)
Definition advanced (st st' : state) (ops : list op) (lo hi : nat) : Prop :=
  invoked st' = invoked st ++ ops
  /\ (ncalls st + lo <= ncalls st' <= ncalls st + hi)%nat.

(** The loop of the matcher on [r*], with its fuel. *)
Definition star_loop {A : Type} (r : regex) (k : str -> caps -> option A)
  : nat -> str -> caps -> option A :=
  fix loop (n : nat) (s : str) (c : caps) {struct n} : option A :=
    match n with
    | O => k s c
    | S n' =>
      match rmatch r s c
              (fun s' c' =>
                 if (length s' <? length s)%nat then loop n' s' c' else None)
      with
      | Some a => Some a
      | None => k s c
      end
    end.

(** Every element of a list after the first satisfies [P]. *)
Definition tail_all {A : Type} (P : A -> Prop) (l : list A) : Prop :=
  match l with
  | [] => True
  | _ :: t => Forall P t
  end.

(** The text holds no line break. *)
Definition one_line (s : str) : Prop := ~ In 10%N s.

(** The text of a chunk as [fix_broken_clauses] reads it, and the chunks
    it does not skip. *)
Definition chunk_text (ch : SplitClauses.chunk) : str :=
  strip (SplitClauses.text ch).

Definition nonblank (ch : SplitClauses.chunk) : bool := truthy (chunk_text ch).

(** The clause [c] is made of the run [g] of chunks: the run is not empty,
    its chunks are of the file of the clause, and the text of the clause is
    their texts joined by single blanks. *)
Definition made_of (g : list SplitClauses.chunk) (c : SplitClauses.clause)
  : Prop :=
  g <> []
  /\ Forall (fun ch => SplitClauses.source_file ch
                       = SplitClauses.clause_source_file c) g
  /\ SplitClauses.clause_text c = join (u " ") (map chunk_text g).

(** The entry is tagged as metadata. *)
Definition is_metadata (c : SplitClauses.clause) : Prop :=
  SplitClauses.clause_type c = Some (u "metadata").

(** The templates of the active contexts, as [generate_contextual_clauses]
    collects them. *)
Definition active_templates (contexts : list (str * bool))
  : list Clauses.template :=
  flat_map (fun '(ctx, is_active) =>
              if (is_active : bool) then
                match Clauses.templates_get Clauses.CONTEXTUAL_CLAUSE_TEMPLATES ctx with
                | Some t => [t]
                | None => []
                end
              else [])
           contexts.

(** The scan has accepted the date-like match [m]. *)
Definition valid_date_match (m : match_obj) : Prop :=
  exists a, validate_date (m_text m) = Ok (true, [], Some a).

(** The scan has accepted the range phrase [m]: the two dates it captures
    parse, the start is not before the reference date, and the end is later
    than the start. *)
Definition valid_range_match (reference_date : datetime) (m : match_obj)
  : Prop :=
  exists s e ds de,
    group (m_caps m) 1 = Some s /\ group (m_caps m) 2 = Some e
    /\ validate_date_range reference_date s e false 1 36500 = Ok (true, [])
    /\ parse_date s = Ok (Some ds) /\ parse_date e = Ok (Some de)
    /\ Datetime.lt ds reference_date = false
    /\ toordinal ds < toordinal de.

(** A lease that names its period, and one whose period runs backward. *)
Definition dated_lease : str :=
  u "LEASE AGREEMENT. The lease runs from 01/03/2026 to 01/03/2027.".

Definition backward_lease : str :=
  u "LEASE. The lease runs from 10/01/2027 until 05/01/2027.".

(** * Properties *)

(** ** Strings *)

Lemma eqb_eq (a b : str) : Str.eqb a b = true <-> a = b.
Proof.
  revert b; induction a as [|x a IH]; intros [|y b]; simpl; try easy.
  rewrite andb_true_iff, N.eqb_eq, IH. split.
  - intros [-> ->]; reflexivity.
  - intros H; injection H; auto.
Qed.

Lemma eqb_refl (a : str) : Str.eqb a a = true.
Proof. apply eqb_eq; reflexivity. Qed.

Lemma eqb_neq (a b : str) : Str.eqb a b = false <-> a <> b.
Proof.
  rewrite <- eqb_eq. destruct (Str.eqb a b); split; congruence.
Qed.

Lemma startswith_app (p s : str) : startswith (p ++ s) p = true.
Proof. induction p; simpl; [reflexivity|]. now rewrite N.eqb_refl. Qed.

Lemma lstrip_suffix (s : str) : exists pre, s = pre ++ lstrip s.
Proof.
  induction s as [|c s [pre IH]]; simpl.
  - now exists [].
  - destruct (isspace c).
    + exists (c :: pre). simpl. congruence.
    + now exists [].
Qed.

Lemma lstrip_head (s : str) c t : lstrip s = c :: t -> isspace c = false.
Proof.
  induction s as [|x s IH]; simpl; [discriminate|].
  destruct (isspace x) eqn:E; [exact IH|]. intros H; injection H; congruence.
Qed.

Lemma lstrip_length (s : str) : (length (lstrip s) <= length s)%nat.
Proof.
  destruct (lstrip_suffix s) as [pre E]. rewrite E at 2.
  rewrite length_app. lia.
Qed.

Lemma strip_length (s : str) : (length (strip s) <= length s)%nat.
Proof.
  unfold strip, rstrip. rewrite length_rev.
  etransitivity; [apply lstrip_length|]. rewrite length_rev. apply lstrip_length.
Qed.

Lemma lstrip_In (s : str) x : In x (lstrip s) -> In x s.
Proof.
  destruct (lstrip_suffix s) as [pre E]. rewrite E at 2.
  intros; apply in_or_app; now right.
Qed.

Lemma strip_In (s : str) x : In x (strip s) -> In x s.
Proof.
  unfold strip, rstrip. rewrite <- in_rev. intros H.
  apply lstrip_In in H. rewrite <- in_rev in H. now apply lstrip_In.
Qed.

(** A stripped text does not start with a blank. *)
Lemma strip_head (s : str) c t : strip s = c :: t -> isspace c = false.
Proof.
  unfold strip, rstrip. intros H.
  destruct (lstrip_suffix (rev (lstrip s))) as [pre E].
  assert (E' : lstrip s = rev (lstrip (rev (lstrip s))) ++ rev pre).
  { rewrite <- rev_app_distr, <- E. now rewrite rev_involutive. }
  rewrite H in E'. simpl in E'. eapply lstrip_head. exact E'.
Qed.

(** A text that starts with a blank is not the result of [strip]. *)
Lemma strip_fixed (a b : str) : strip a = b -> lstrip b = b.
Proof.
  intros <-. destruct (strip a) as [|c t] eqn:E; [reflexivity|].
  simpl. now rewrite (strip_head _ _ _ E).
Qed.

Lemma join_In (sep : str) (parts : list str) (p : str) :
  In p parts -> exists pre post, join sep parts = pre ++ p ++ post.
Proof.
  induction parts as [|q parts IH]; [easy|].
  intros [->|H].
  - destruct parts as [|q' parts].
    + exists [], []. simpl. now rewrite app_nil_r.
    + exists [], (sep ++ join sep (q' :: parts)). reflexivity.
  - destruct (IH H) as (pre & post & E).
    destruct parts as [|q' parts]; [easy|].
    exists (q ++ sep ++ pre), post.
    change (join sep (q :: q' :: parts)) with (q ++ sep ++ join sep (q' :: parts)).
    rewrite E. now rewrite <- !app_assoc.
Qed.

(** ** The matcher computes matches *)

Lemma firstn_app_length (s1 s2 : str) :
  firstn (length (s1 ++ s2) - length s2) (s1 ++ s2) = s1.
Proof.
  rewrite length_app.
  replace (length s1 + length s2 - length s2)%nat with (length s1) by lia.
  rewrite firstn_app, Nat.sub_diag, firstn_all. simpl. apply app_nil_r.
Qed.

Lemma rmatch_sound {A} (r : regex) :
  forall (s : str) (c : caps) (k : str -> caps -> option A) (a : A),
    rmatch r s c k = Some a ->
    exists s1 s2 c1,
      s = s1 ++ s2 /\ Matches r s1 c1 /\ k s2 (c1 ++ c) = Some a.
Proof.
  induction r as [|p|r1 IH1 r2 IH2|r1 IH1 r2 IH2|r1 IH1|i r1 IH1];
    intros s c k a H; simpl in H.
  - exists [], s, []. repeat split; [constructor | exact H].
  - destruct s as [|x s]; [discriminate|].
    destruct (p x) eqn:E; [|discriminate].
    exists [x], s, []. repeat split; [now constructor | exact H].
  - apply IH1 in H as (s1 & s2 & c1 & -> & M1 & H).
    apply IH2 in H as (s3 & s4 & c2 & -> & M2 & H).
    exists (s1 ++ s3), s4, (c2 ++ c1). rewrite <- !app_assoc.
    repeat split; [now constructor | exact H].
  - destruct (rmatch r1 s c k) eqn:E.
    + injection H as ->. apply IH1 in E as (s1 & s2 & c1 & -> & M1 & E).
      exists s1, s2, c1. repeat split; [now apply MAltL | exact E].
    + apply IH2 in H as (s1 & s2 & c1 & -> & M1 & E').
      exists s1, s2, c1. repeat split; [now apply MAltR | exact E'].
  - revert H. generalize (length s) at 1. intros n. revert s c.
    induction n as [|n IHn]; intros s c H.
    + exists [], s, []. repeat split; [constructor | exact H].
    + match type of H with
      | match ?m with _ => _ end = _ => destruct m eqn:E
      end.
      * injection H as ->.
        apply IH1 in E as (s1 & s2 & c1 & -> & M1 & E).
        destruct (length s2 <? length (s1 ++ s2))%nat; [|discriminate].
        apply IHn in E as (s3 & s4 & c2 & -> & M2 & E).
        exists (s1 ++ s3), s4, (c2 ++ c1). rewrite <- !app_assoc.
        repeat split; [now constructor | exact E].
      * exists [], s, []. repeat split; [constructor | exact H].
  - apply IH1 in H as (s1 & s2 & c1 & -> & M1 & H).
    rewrite firstn_app_length in H.
    exists s1, s2, ((i, s1) :: c1). repeat split; [now constructor | exact H].
Qed.

Lemma Matches_maxlen r s c :
  Matches r s c -> forall n, maxlen r = Some n -> (length s <= n)%nat.
Proof.
  induction 1; simpl; intros n E; try discriminate.
  - injection E as <-. simpl. lia.
  - injection E as <-. simpl. lia.
  - destruct (maxlen r1) as [a|]; [|discriminate].
    destruct (maxlen r2) as [b|]; [|discriminate].
    injection E as <-. rewrite length_app.
    specialize (IHMatches1 _ eq_refl). specialize (IHMatches2 _ eq_refl). lia.
  - destruct (maxlen r1) as [a|]; [|discriminate].
    destruct (maxlen r2) as [b|]; [|discriminate].
    injection E as <-. specialize (IHMatches _ eq_refl). lia.
  - destruct (maxlen r1) as [a|]; [|discriminate].
    destruct (maxlen r2) as [b|]; [|discriminate].
    injection E as <-. specialize (IHMatches _ eq_refl). lia.
  - auto.
Qed.

Lemma Matches_group_bound i n r s c :
  Matches r s c -> group_bound i n r = true ->
  forall t, In (i, t) c -> (length t <= n)%nat.
Proof.
  induction 1; simpl; intros G t Hin; try easy.
  - apply andb_true_iff in G as [G1 G2].
    apply in_app_or in Hin as [Hin|Hin]; eauto.
  - apply andb_true_iff in G as [G1 G2]. eauto.
  - apply andb_true_iff in G as [G1 G2]. eauto.
  - apply in_app_or in Hin as [Hin|Hin]; eauto.
  - apply andb_true_iff in G as [G1 G2].
    destruct Hin as [E|Hin]; [|eauto].
    injection E as -> ->. rewrite Nat.eqb_refl in G2. simpl in G2.
    destruct (maxlen r) as [k|] eqn:Ek; [|discriminate].
    apply Nat.leb_le in G2.
    pose proof (Matches_maxlen _ _ _ H _ Ek). lia.
Qed.

Lemma Matches_avoids bad r s c :
  Matches r s c -> avoids bad r = true ->
  forall b, In b bad -> ~ In b s.
Proof.
  induction 1; simpl; intros G b Hb Hin; try easy.
  - destruct Hin as [->|[]].
    rewrite forallb_forall in G. specialize (G _ Hb).
    rewrite H in G. discriminate.
  - apply andb_true_iff in G as [G1 G2].
    apply in_app_or in Hin as [Hin|Hin]; [eapply IHMatches1|eapply IHMatches2]; eauto.
  - apply andb_true_iff in G as [G1 G2]. eapply IHMatches; eauto.
  - apply andb_true_iff in G as [G1 G2]. eapply IHMatches; eauto.
  - apply in_app_or in Hin as [Hin|Hin]; [eapply IHMatches1|eapply IHMatches2]; eauto.
  - eapply IHMatches; eauto.
Qed.

Lemma group_In (c : caps) i t : group c i = Some t -> In (i, t) c.
Proof.
  induction c as [|[j x] c IH]; simpl; [discriminate|].
  destruct (Nat.eqb_spec i j) as [->|].
  - intros E; injection E as ->. now left.
  - intros E; right; auto.
Qed.

Lemma match_sound r s m :
  match_ r s = Some m -> Matches r (m_text m) (m_caps m).
Proof.
  unfold match_. intros H.
  apply rmatch_sound in H as (s1 & s2 & c1 & -> & M & H).
  rewrite firstn_app_length, app_nil_r in H. injection H as <-. exact M.
Qed.

Lemma search_sound r s m :
  search r s = Some m -> Matches r (m_text m) (m_caps m).
Proof.
  induction s as [|x s IH]; simpl.
  - destruct (match_ r []) eqn:E; [|discriminate].
    intros H; injection H as <-. now apply match_sound in E.
  - destruct (match_ r (x :: s)) eqn:E.
    + intros H; injection H as <-. now apply match_sound in E.
    + exact IH.
Qed.

Lemma finditer_fuel_sound r n :
  forall s m, In m (finditer_fuel n r s) -> Matches r (m_text m) (m_caps m).
Proof.
  induction n as [|n IH]; simpl; intros s m; [easy|].
  destruct (search r s) as [m0|] eqn:E; [|easy].
  intros [<-|Hin]; [now apply search_sound in E|].
  destruct (m_text m0), (m_rest m0); try easy; eauto.
Qed.

Lemma finditer_sound r s m :
  In m (finditer r s) -> Matches r (m_text m) (m_caps m).
Proof. apply finditer_fuel_sound. Qed.

(** ** Integers read from short texts fit a C [int] *)

Lemma decimal_in_range blocks c v :
  decimal_in blocks c = Some v -> 0 <= v <= 9.
Proof.
  induction blocks as [|b bs IH]; simpl; [discriminate|].
  destruct ((b <=? c)%N && (c <? b + 10)%N) eqn:E; [|exact IH].
  intros H; injection H as <-.
  apply andb_true_iff in E as [E1 E2].
  apply N.leb_le in E1. apply N.ltb_lt in E2. lia.
Qed.

Lemma decimal_range c v : decimal c = Some v -> 0 <= v <= 9.
Proof. apply decimal_in_range. Qed.

Lemma int_body_bound n :
  forall s acc nd v nd' rest,
    (length s <= n)%nat -> 0 <= acc ->
    int_body s acc nd = Some (v, nd', rest) ->
    0 <= v < (acc + 1) * 10 ^ Z.of_nat (length s).
Proof.
  induction n as [|n IH]; intros s acc nd v nd' rest Hlen Hacc H.
  - destruct s; [|simpl in Hlen; lia]. simpl in H. injection H as <- _ _.
    simpl. lia.
  - destruct s as [|c s]; simpl in H.
    + injection H as <- _ _. simpl. lia.
    + simpl in Hlen.
      assert (P : forall k, 0 <= k -> 10 ^ (k + 1) = 10 * 10 ^ k).
      { intros k Hk. rewrite Z.pow_add_r by lia. lia. }
      assert (Q : forall k, 0 <= k -> 0 < 10 ^ k).
      { intros k Hk. apply Z.pow_pos_nonneg; lia. }
      destruct (decimal c) as [dv|] eqn:Ed.
      * apply decimal_range in Ed.
        apply IH in H; [|lia|lia].
        rewrite length_cons, Nat2Z.inj_succ, <- Z.add_1_r, P by lia.
        pose proof (Q (Z.of_nat (length s)) ltac:(lia)). nia.
      * destruct (c =? 95)%N.
        -- destruct s as [|c2 s]; [discriminate|].
           destruct (decimal c2) as [dv|] eqn:Ed2; [|discriminate].
           apply decimal_range in Ed2. simpl in Hlen.
           apply IH in H; [|lia|lia].
           rewrite !length_cons, !Nat2Z.inj_succ, <- !Z.add_1_r, !P by lia.
           pose proof (Q (Z.of_nat (length s)) ltac:(lia)). nia.
        -- injection H as <- _ _.
           pose proof (Q (Z.of_nat (length (c :: s))) ltac:(lia)). nia.
Qed.

Lemma skip_int_space_length s : (length (skip_int_space s) <= length s)%nat.
Proof.
  induction s as [|c s IH]; simpl; [lia|].
  destruct (int_space c); simpl; lia.
Qed.

Lemma int_bound s z : int s = Some z -> Z.abs z < 10 ^ Z.of_nat (length s).
Proof.
  unfold int. pose proof (skip_int_space_length s) as L.
  set (s1 := skip_int_space s) in *.
  assert (B : forall sign s2, (sign = 1 \/ sign = -1) ->
            (length s2 <= length s)%nat ->
            match s2 with
            | [] => None
            | c :: r =>
              match decimal c with
              | Some d =>
                match int_body r d 1 with
                | Some (v, n, rest) =>
                  if forallb int_space rest && (n <=? max_str_digits)%nat
                  then Some (sign * v) else None
                | None => None
                end
              | None => None
              end
            end = Some z -> Z.abs z < 10 ^ Z.of_nat (length s)).
  { intros sign s2 Hs Hl H. destruct s2 as [|c r]; [discriminate|].
    destruct (decimal c) as [dv|] eqn:Ed; [|discriminate].
    destruct (int_body r dv 1) as [[[v n] rest]|] eqn:Eb; [|discriminate].
    destruct (forallb int_space rest && (n <=? max_str_digits)%nat); [|discriminate].
    injection H as <-. apply decimal_range in Ed.
    apply int_body_bound with (n := length r) in Eb; [|lia|lia].
    simpl in Hl.
    assert (10 * 10 ^ Z.of_nat (length r) <= 10 ^ Z.of_nat (length s)).
    { replace (10 * 10 ^ Z.of_nat (length r)) with (10 ^ (Z.of_nat (length r) + 1)).
      - apply Z.pow_le_mono_r; lia.
      - rewrite Z.pow_add_r by lia. lia. }
    assert (0 < 10 ^ Z.of_nat (length r)) by (apply Z.pow_pos_nonneg; lia).
    destruct Hs as [-> | ->]; nia. }
  destruct s1 as [|c r] eqn:E1.
  - discriminate.
  - destruct c as [|p]; [apply (B 1 (0%N :: r)); [auto|simpl in *; lia]|].
    do 6 (destruct p as [p|p|]; try (apply (B 1 (_ :: r)); [auto|simpl in *; lia])).
    all: try (apply (B 1 r); [auto|simpl in *; lia]).
    all: try (apply (B (-1) r); [auto|simpl in *; lia]).
Qed.

(** ** Dates built by the constructor *)

Lemma new_Ok y m d a :
  Datetime.new y m d = Ok a -> a = mkdt y m d 0 0 0 0 /\ calendar_date a.
Proof.
  unfold Datetime.new, MINYEAR, MAXYEAR.
  destruct (negb _); [discriminate|].
  destruct (_ && _) eqn:E; [|discriminate].
  intros H; injection H as <-. split; [reflexivity|].
  repeat (apply andb_true_iff in E as [E ?]).
  unfold calendar_date; simpl. lia.
Qed.

Lemma safe_Ok {A} (a : A) : safe (Ok a).
Proof. easy. Qed.

Lemma safe_ValueError {A} : safe (@Raise A ValueError).
Proof. easy. Qed.

Lemma safe_bind {A B} (m : res A) (f : A -> res B) :
  safe m -> (forall a, m = Ok a -> safe (f a)) -> safe (m ≫= f).
Proof.
  destruct m as [a|e]; simpl; intros Hm Hf; [now apply Hf|].
  intros E. apply Hm. injection E as ->. reflexivity.
Qed.

Lemma safe_or_ValueError {A} (o : option A) : safe (or_ValueError o).
Proof. now destruct o. Qed.

Lemma or_ValueError_Ok {A} (o : option A) a : or_ValueError o = Ok a -> o = Some a.
Proof. destruct o; simpl; congruence. Qed.

Lemma safe_except {A} (m h : res A) : safe m -> safe h -> safe (except_ValueError m h).
Proof. destruct m as [a|[]]; simpl; auto. Qed.

Lemma returns_Ok {A} (a : A) : returns (Ok a).
Proof. now exists a. Qed.

Lemma returns_except {A} (m h : res A) :
  safe m -> returns h -> returns (except_ValueError m h).
Proof.
  destruct m as [a|[]]; simpl; intros Hm Hh; auto.
  - apply returns_Ok.
  - now destruct Hm.
Qed.

Lemma c_int_small z : Z.abs z < 10 ^ 9 -> c_int z = true.
Proof.
  intros H. unfold c_int. apply andb_true_iff.
  rewrite Z.leb_le, Z.ltb_lt.
  change (10 ^ 9) with 1000000000 in H. change (2 ^ 31) with 2147483648. lia.
Qed.

Lemma new_safe y m d :
  c_int y = true -> c_int m = true -> c_int d = true -> safe (Datetime.new y m d).
Proof.
  intros Hy Hm Hd. unfold Datetime.new. rewrite Hy, Hm, Hd. simpl.
  destruct (_ && _); easy.
Qed.

Lemma int_c_int (t : str) z :
  (length t <= 9)%nat -> int t = Some z -> c_int z = true.
Proof.
  intros L H. apply int_bound in H. apply c_int_small.
  eapply Z.lt_le_trans; [exact H|]. apply Z.pow_le_mono_r; lia.
Qed.

(** ** [parse_date] returns calendar dates *)

Ltac conjs := repeat match goal with |- _ /\ _ => split end.

Ltac rsimpl :=
  cbn [mbind res_bind mret res_ret except_ValueError or_ValueError].

Lemma parse_arabic_date s a :
  parse_arabic s = Ok (Some a) -> calendar_date a.
Proof.
  unfold parse_arabic.
  destruct (search arabic_pattern s) as [m|]; [|discriminate].
  destruct (group (m_caps m) 1) as [dd|]; [|discriminate].
  destruct (group (m_caps m) 2) as [mn|]; [|discriminate].
  destruct (group (m_caps m) 3) as [yy|]; [|discriminate].
  destruct (months_get ARABIC_MONTHS mn) as [mo|]; [|discriminate].
  destruct (mo =? 0); [discriminate|].
  destruct (int yy) as [y|]; rsimpl; [|discriminate].
  destruct (int dd) as [d'|]; rsimpl; [|discriminate].
  destruct (Datetime.new y mo d') as [b|[]] eqn:E; rsimpl; try discriminate.
  intros H; injection H as <-. now apply new_Ok in E.
Qed.

Lemma strptime_date s fmt a : strptime s fmt = Ok a -> calendar_date a.
Proof.
  unfold strptime.
  destruct (pattern fmt) as [r|]; rsimpl; [|discriminate].
  destruct (match_ r s) as [m|]; rsimpl; [|discriminate].
  destruct (m_rest m); [|discriminate].
  destruct (group_int (m_caps m) gY 1900) as [y|]; rsimpl; [|discriminate].
  destruct (group_int (m_caps m) gm 1) as [mo|]; rsimpl; [|discriminate].
  destruct (group_int (m_caps m) gd 1) as [d'|]; rsimpl; [|discriminate].
  intros H. now apply new_Ok in H.
Qed.

Lemma parse_formats_date fmts s a :
  parse_formats fmts s = Ok (Some a) -> calendar_date a.
Proof.
  induction fmts as [|fmt fmts IH]; simpl; [discriminate|].
  destruct (strptime s fmt) as [b|[]] eqn:E; rsimpl; try discriminate.
  - intros H; injection H as <-. now apply strptime_date in E.
  - exact IH.
Qed.

Lemma parse_manual_date seps s a :
  parse_manual seps s = Ok (Some a) -> calendar_date a.
Proof.
  induction seps as [|sep seps IH]; simpl; [discriminate|].
  destruct (contains s [sep]); [|exact IH].
  destruct (split sep s) as [|p0 [|p1 [|p2 [|]]]]; try exact IH.
  assert (G : forall x y z,
             (dt ← Datetime.new x y z; Ok (Some dt)) = Ok (Some a) ->
             calendar_date a).
  { intros x y z. destruct (Datetime.new x y z) eqn:E; rsimpl; [|discriminate].
    intros H; injection H as <-. now apply new_Ok in E. }
  destruct (length p2 =? 4)%nat; [|destruct (length p0 =? 4)%nat; [|exact IH]].
  - destruct (int p0); rsimpl; [|discriminate].
    destruct (int p1); rsimpl; [|discriminate].
    destruct (int p2); rsimpl; [|discriminate]. apply G.
  - destruct (int p0); rsimpl; [|discriminate].
    destruct (int p1); rsimpl; [|discriminate].
    destruct (int p2); rsimpl; [|discriminate]. apply G.
Qed.

Lemma parse_date_calendar s a : parse_date s = Ok (Some a) -> calendar_date a.
Proof.
  unfold parse_date. destruct s as [|c s]; [discriminate|].
  set (t := strip (c :: s)).
  destruct (parse_arabic t) as [[b|]|] eqn:Ea; rsimpl; try discriminate.
  - intros H; injection H as <-. now apply parse_arabic_date in Ea.
  - destruct (parse_formats DATE_FORMATS t) as [[b|]|] eqn:Ef; rsimpl; try discriminate.
    + intros H; injection H as <-. now apply parse_formats_date in Ef.
    + destruct (parse_manual _ t) as [o|[]] eqn:Em; rsimpl; try discriminate.
      intros H; injection H as ->. now apply parse_manual_date in Em.
Qed.

Lemma mdays_bound m : 0 <= Calendar.mdays m <= 31.
Proof.
  unfold Calendar.mdays. destruct m as [|p|p]; try lia.
  do 4 (try destruct p as [p|p|]); lia.
Qed.

Lemma days_in_month_bound y m : 0 <= days_in_month y m <= 31.
Proof.
  unfold days_in_month. pose proof (mdays_bound m).
  destruct ((m =? 2) && Calendar.isleap y) eqn:E; [|lia].
  apply andb_true_iff in E as [E _]. apply Z.eqb_eq in E. subst m.
  simpl. lia.
Qed.

Lemma calendar_date_valid a :
  calendar_date a -> is_valid_date (day a) (month a) (year a) = true.
Proof.
  intros (Hy & Hm & Hd & _). unfold is_valid_date, Calendar.monthrange.
  assert (E1 : (1 <=? month a) && (month a <=? 12) = true).
  { apply andb_true_iff. rewrite !Z.leb_le. lia. }
  rewrite E1. simpl.
  fold (days_in_month (year a) (month a)).
  assert (E2 : (1 <=? day a) && (day a <=? days_in_month (year a) (month a)) = true).
  { apply andb_true_iff. rewrite !Z.leb_le. lia. }
  rewrite E2. simpl.
  unfold Datetime.new, MINYEAR, MAXYEAR.
  assert (Cy : c_int (year a) = true) by (apply c_int_small; change (10 ^ 9) with 1000000000; lia).
  assert (Cm : c_int (month a) = true) by (apply c_int_small; change (10 ^ 9) with 1000000000; lia).
  pose proof (days_in_month_bound (year a) (month a)) as Dm.
  assert (Cd : c_int (day a) = true) by (apply c_int_small; change (10 ^ 9) with 1000000000; lia).
  rewrite Cy, Cm, Cd. cbn [andb negb].
  match goal with
  | |- context [if ?c then _ else _] => assert (Ec : c = true)
  end.
  { repeat (apply andb_true_iff; split); apply Z.leb_le; lia. }
  rewrite Ec. reflexivity.
Qed.

(** ** [parse_date] on the texts the scan hands to it

    [parse_date] lets an [OverflowError] of the constructor escape; this
    cannot happen on a text of at most ten characters, nor on a text without
    a separator. *)

Lemma months_get_In table name m :
  months_get table name = Some m -> In m (map snd table).
Proof.
  induction table as [|[k v] table IH]; simpl; [discriminate|].
  destruct (Str.eqb k name); [|auto].
  intros H; injection H as ->. now left.
Qed.

Lemma months_c_int name m :
  months_get ARABIC_MONTHS name = Some m -> c_int m = true.
Proof.
  intros H. apply months_get_In in H.
  assert (F : forallb c_int (map snd ARABIC_MONTHS) = true) by (vm_compute; reflexivity).
  rewrite forallb_forall in F. auto.
Qed.

Lemma arabic_pattern_bounds :
  group_bound 1 2 arabic_pattern = true /\ group_bound 3 4 arabic_pattern = true.
Proof. split; vm_compute; reflexivity. Qed.

Lemma parse_arabic_returns s : returns (parse_arabic s).
Proof.
  unfold parse_arabic.
  destruct (search arabic_pattern s) as [m|] eqn:Es; [|apply returns_Ok].
  apply search_sound in Es.
  destruct (group (m_caps m) 1) as [dd|] eqn:E1; [|apply returns_Ok].
  destruct (group (m_caps m) 2) as [mn|]; [|apply returns_Ok].
  destruct (group (m_caps m) 3) as [yy|] eqn:E3; [|apply returns_Ok].
  destruct (months_get ARABIC_MONTHS mn) as [mo|] eqn:Em; [|apply returns_Ok].
  destruct (mo =? 0); [apply returns_Ok|].
  apply group_In in E1, E3.
  destruct arabic_pattern_bounds as [B1 B3].
  pose proof (Matches_group_bound _ _ _ _ _ Es B1 _ E1) as L1.
  pose proof (Matches_group_bound _ _ _ _ _ Es B3 _ E3) as L3.
  apply returns_except; [|apply returns_Ok].
  apply safe_bind; [apply safe_or_ValueError|]. intros y Ey.
  apply safe_bind; [apply safe_or_ValueError|]. intros d' Ed.
  apply or_ValueError_Ok in Ey, Ed.
  apply safe_bind; [|easy].
  apply new_safe.
  - eapply int_c_int; [|exact Ey]. lia.
  - eapply months_c_int; eauto.
  - eapply int_c_int; [|exact Ed]. lia.
Qed.

Lemma group_int_c_int r s c g dflt z :
  Matches r s c -> group_bound g 9 r = true -> c_int dflt = true ->
  group_int c g dflt = Ok z -> c_int z = true.
Proof.
  intros M G D. unfold group_int.
  destruct (group c g) as [t|] eqn:E.
  - intros H. apply or_ValueError_Ok in H. apply group_In in E.
    eapply int_c_int; [|exact H]. eapply Matches_group_bound; eauto.
  - intros H; injection H as <-. exact D.
Qed.

Lemma safe_group_int c g dflt : safe (group_int c g dflt).
Proof. unfold group_int. destruct (group c g); [apply safe_or_ValueError|easy]. Qed.

Lemma strptime_safe s fmt : format_ok fmt = true -> safe (strptime s fmt).
Proof.
  unfold format_ok, strptime. intros F.
  destruct (pattern fmt) as [r|]; rsimpl; [|easy].
  apply andb_true_iff in F as [F Gd]. apply andb_true_iff in F as [GY Gm].
  destruct (match_ r s) as [m|] eqn:Em; rsimpl; [|easy].
  apply match_sound in Em.
  destruct (m_rest m); [|easy].
  apply safe_bind; [apply safe_group_int|]. intros y Ey.
  apply safe_bind; [apply safe_group_int|]. intros mo Emo.
  apply safe_bind; [apply safe_group_int|]. intros d' Ed.
  apply new_safe.
  - eapply group_int_c_int; [exact Em|exact GY| |exact Ey]. reflexivity.
  - eapply group_int_c_int; [exact Em|exact Gm| |exact Emo]. reflexivity.
  - eapply group_int_c_int; [exact Em|exact Gd| |exact Ed]. reflexivity.
Qed.

Lemma parse_formats_returns fmts s :
  forallb format_ok fmts = true -> returns (parse_formats fmts s).
Proof.
  induction fmts as [|fmt fmts IH]; simpl; [intros; apply returns_Ok|].
  intros F. apply andb_true_iff in F as [F1 F2].
  apply returns_except; [|auto].
  apply safe_bind; [now apply strptime_safe|easy].
Qed.

Lemma DATE_FORMATS_ok : forallb format_ok DATE_FORMATS = true.
Proof. vm_compute. reflexivity. Qed.

Lemma contains_single s c : ~ In c s -> contains s [c] = false.
Proof.
  induction s as [|x s IH]; simpl; [easy|].
  intros H. rewrite IH by tauto.
  destruct (N.eqb_spec c x) as [->|]; [tauto|reflexivity].
Qed.

Lemma parse_manual_nosep seps s :
  (forall b, In b seps -> ~ In b s) -> parse_manual seps s = Ok None.
Proof.
  induction seps as [|sep seps IH]; simpl; [reflexivity|].
  intros H. rewrite contains_single by auto. auto.
Qed.

Lemma split_length sep s :
  (total_length (split sep s) + length (split sep s) = S (length s))%nat.
Proof.
  induction s as [|c s IH]; simpl; [reflexivity|].
  destruct (c =? sep)%N; simpl; [lia|].
  destruct (split sep s) as [|p ps]; simpl in *; lia.
Qed.

Lemma parse_manual_short seps s :
  (length s <= 10)%nat -> safe (parse_manual seps s).
Proof.
  intros L. induction seps as [|sep seps IH]; simpl; [easy|].
  destruct (contains s [sep]); [|exact IH].
  pose proof (split_length sep s) as SL.
  destruct (split sep s) as [|p0 [|p1 [|p2 [|]]]]; try exact IH.
  simpl in SL.
  assert (G : forall a b c x y z,
             int a = Some x -> int b = Some y -> int c = Some z ->
             (length a <= 9)%nat -> (length b <= 9)%nat -> (length c <= 9)%nat ->
             c_int x = true /\ c_int y = true /\ c_int z = true).
  { intros a b c x y z Hx Hy Hz La Lb Lc.
    exact (conj (int_c_int a x La Hx)
                (conj (int_c_int b y Lb Hy) (int_c_int c z Lc Hz))). }
  destruct (length p2 =? 4)%nat; [|destruct (length p0 =? 4)%nat; [|exact IH]].
  - apply safe_bind; [apply safe_or_ValueError|]. intros x Ex.
    apply safe_bind; [apply safe_or_ValueError|]. intros y Ey.
    apply safe_bind; [apply safe_or_ValueError|]. intros z Ez.
    apply or_ValueError_Ok in Ex, Ey, Ez.
    destruct (G p0 p1 p2 x y z) as (? & ? & ?); auto; try lia.
    apply safe_bind; [now apply new_safe|easy].
  - apply safe_bind; [apply safe_or_ValueError|]. intros x Ex.
    apply safe_bind; [apply safe_or_ValueError|]. intros y Ey.
    apply safe_bind; [apply safe_or_ValueError|]. intros z Ez.
    apply or_ValueError_Ok in Ex, Ey, Ez.
    destruct (G p0 p1 p2 x y z) as (? & ? & ?); auto; try lia.
    apply safe_bind; [now apply new_safe|easy].
Qed.

Lemma parse_date_returns_if s :
  safe (parse_manual [0x2f; 0x2d; 0x2e]%N (strip s)) -> returns (parse_date s).
Proof.
  intros Hm. unfold parse_date. destruct s as [|c s]; [apply returns_Ok|].
  set (t := strip (c :: s)) in *.
  destruct (parse_arabic_returns t) as [a ->]. rsimpl.
  destruct a; [apply returns_Ok|].
  destruct (parse_formats_returns DATE_FORMATS t DATE_FORMATS_ok) as [f ->]. rsimpl.
  destruct f; [apply returns_Ok|].
  apply returns_except; [exact Hm|apply returns_Ok].
Qed.

Lemma parse_date_returns s : parsable s -> returns (parse_date s).
Proof.
  intros [L|N]; apply parse_date_returns_if.
  - apply parse_manual_short. pose proof (strip_length s). lia.
  - rewrite parse_manual_nosep; [easy|].
    intros b Hb Hin. apply strip_In in Hin. exact (N b Hb Hin).
Qed.

(** [parse_date] either returns or lets an [OverflowError] escape. *)
Lemma parse_date_cases s :
  returns (parse_date s) \/ parse_date s = Raise OverflowError.
Proof.
  destruct (parse_date s) as [o|[]] eqn:E; [left; apply returns_Ok| |now right].
  exfalso. revert E. unfold parse_date. destruct s as [|c s]; [discriminate|].
  set (t := strip (c :: s)).
  destruct (parse_arabic_returns t) as [a ->]. rsimpl.
  destruct a; [discriminate|].
  destruct (parse_formats_returns DATE_FORMATS t DATE_FORMATS_ok) as [f ->]. rsimpl.
  destruct f; [discriminate|].
  destruct (parse_manual _ t) as [o|[]]; discriminate.
Qed.

(** ** [validate_date] *)

(** The three ways in which [validate_date] returns. *)
Lemma validate_date_cases s r :
  validate_date s = Ok r ->
  (parse_date s = Ok None /\ r = (false, format_error s, None))
  \/ (exists a, parse_date s = Ok (Some a) /\ calendar_date a
        /\ in_year_range (year a) = false /\ r = (false, year_error (year a), None))
  \/ (exists a, parse_date s = Ok (Some a) /\ calendar_date a
        /\ in_year_range (year a) = true /\ r = (true, [], Some a)).
Proof.
  unfold validate_date.
  destruct (parse_date s) as [[a|]|e] eqn:E; rsimpl; [| |discriminate].
  - pose proof (parse_date_calendar _ _ E) as C.
    rewrite (calendar_date_valid _ C). cbn [negb].
    destruct (in_year_range (year a)) eqn:Y; cbn [negb];
      intros H; injection H as <-; [right; right|right; left]; eauto.
  - intros H; injection H as <-. now left.
Qed.

Lemma validate_date_parsed s a :
  parse_date s = Ok (Some a) -> in_year_range (year a) = true ->
  validate_date s = Ok (true, [], Some a).
Proof.
  intros E Y. unfold validate_date. rewrite E. rsimpl.
  rewrite (calendar_date_valid _ (parse_date_calendar _ _ E)), Y. reflexivity.
Qed.

Lemma validate_date_returns s : parsable s -> returns (validate_date s).
Proof.
  intros P. destruct (parse_date_returns s P) as [o E].
  unfold validate_date. rewrite E. rsimpl.
  destruct o as [a|]; [|apply returns_Ok].
  destruct (negb _); [apply returns_Ok|].
  destruct (negb _); apply returns_Ok.
Qed.

Lemma validate_date_range_returns ref s e allow mn mx :
  parsable s -> parsable e -> returns (validate_date_range ref s e allow mn mx).
Proof.
  intros Ps Pe. unfold validate_date_range.
  destruct (validate_date_returns s Ps) as [[[v1 m1] [a1|]] ->]; rsimpl;
    [|destruct v1; apply returns_Ok].
  destruct v1; [|apply returns_Ok].
  destruct (validate_date_returns e Pe) as [[[v2 m2] [a2|]] ->]; rsimpl;
    [|destruct v2; apply returns_Ok].
  destruct v2; [|apply returns_Ok].
  repeat (match goal with |- returns (if ?c then _ else _) => destruct c end;
          try apply returns_Ok).
Qed.

(** ** Ordinals of calendar dates *)

Lemma month_cases m :
  1 <= m <= 12 ->
  m = 1 \/ m = 2 \/ m = 3 \/ m = 4 \/ m = 5 \/ m = 6 \/ m = 7 \/ m = 8
  \/ m = 9 \/ m = 10 \/ m = 11 \/ m = 12.
Proof. lia. Qed.

Lemma days_before_month_eq fuel y m :
  days_before_month fuel y m = days_before fuel (Calendar.isleap y) m.
Proof.
  revert m; induction fuel as [|f IH]; intros m; simpl; [reflexivity|].
  now rewrite IH.
Qed.

(** Days of the year before the first of each month. *)
Lemma days_before_month_succ y m :
  1 <= m <= 12 ->
  days_before_month 12 y (m + 1) = days_before_month 12 y m + days_in_month y m.
Proof.
  intros H. apply month_cases in H. rewrite !days_before_month_eq.
  change (days_in_month y m) with (month_length (Calendar.isleap y) m).
  destruct (Calendar.isleap y);
    repeat (destruct H as [H|H]); subst m; vm_compute; reflexivity.
Qed.

Lemma days_in_month_pos y m : 1 <= m <= 12 -> 28 <= days_in_month y m.
Proof.
  intros H. apply month_cases in H.
  change (days_in_month y m) with (month_length (Calendar.isleap y) m).
  destruct (Calendar.isleap y);
    repeat (destruct H as [H|H]); subst m; vm_compute; discriminate.
Qed.

Lemma days_before_month_mono y (n : nat) :
  forall m, 1 <= m -> m + 1 + Z.of_nat n <= 13 ->
  days_before_month 12 y m + days_in_month y m
  <= days_before_month 12 y (m + 1 + Z.of_nat n).
Proof.
  induction n as [|n IH]; intros m H1 H2.
  - rewrite Z.add_0_r, days_before_month_succ by lia. lia.
  - replace (m + 1 + Z.of_nat (S n)) with ((m + 1 + Z.of_nat n) + 1) by lia.
    rewrite days_before_month_succ by lia.
    specialize (IH m H1 ltac:(lia)).
    pose proof (days_in_month_pos y (m + 1 + Z.of_nat n) ltac:(lia)). lia.
Qed.

Lemma days_in_year y : days_before_month 12 y 13 = 365 + leap_day y.
Proof.
  unfold leap_day. rewrite days_before_month_eq.
  destruct (Calendar.isleap y); vm_compute; reflexivity.
Qed.

Lemma days_before_year_succ y :
  days_before_year (y + 1) = days_before_year y + 365 + leap_day y.
Proof.
  unfold days_before_year, leap_day, Calendar.isleap.
  replace (y + 1 - 1) with y by lia.
  destruct (Z.eqb_spec (y mod 4) 0), (Z.eqb_spec (y mod 100) 0),
           (Z.eqb_spec (y mod 400) 0); cbn [andb orb negb];
    Z.div_mod_to_equations; lia.
Qed.

Lemma days_before_year_mono a b : a <= b -> days_before_year a <= days_before_year b.
Proof. unfold days_before_year. intros H. Z.div_mod_to_equations. lia. Qed.

Lemma toordinal_eq a :
  toordinal a = days_before_year (year a) + days_before_month 12 (year a) (month a) + day a.
Proof. reflexivity. Qed.

(** The ordinal grows with the date. *)
Lemma toordinal_lt a b :
  calendar_date a -> calendar_date b ->
  year a < year b
  \/ (year a = year b /\ (month a < month b \/ (month a = month b /\ day a < day b))) ->
  toordinal a < toordinal b.
Proof.
  intros (Ya & Ma & Da & _) (Yb & Mb & Db & _) H. rewrite !toordinal_eq.
  assert (Ba : days_before_month 12 (year a) (month a) + day a <= 365 + leap_day (year a)).
  { rewrite <- days_in_year.
    pose proof (days_before_month_mono (year a) (Z.to_nat (12 - month a)) (month a)
                  ltac:(lia) ltac:(lia)) as Hm.
    replace (month a + 1 + Z.of_nat (Z.to_nat (12 - month a))) with 13 in Hm by lia.
    lia. }
  assert (Pb : 0 <= days_before_month 12 (year b) (month b)).
  { destruct (Z.eq_dec (month b) 1) as [->|N]; [cbn; lia|].
    assert (Z0 : days_before_month 12 (year b) 1 = 0) by reflexivity.
    pose proof (days_before_month_mono (year b) (Z.to_nat (month b - 2)) 1
                  ltac:(lia) ltac:(lia)) as Hm.
    replace (1 + 1 + Z.of_nat (Z.to_nat (month b - 2))) with (month b) in Hm by lia.
    pose proof (days_in_month_pos (year b) 1 ltac:(lia)).
    lia. }
  destruct H as [H|[E [H|[E' H]]]].
  - pose proof (days_before_year_succ (year a)).
    pose proof (days_before_year_mono (year a + 1) (year b) ltac:(lia)). lia.
  - rewrite E in *.
    pose proof (days_before_month_mono (year b)
                  (Z.to_nat (month b - month a - 1)) (month a)
                  ltac:(lia) ltac:(lia)) as Hm.
    replace (month a + 1 + Z.of_nat (Z.to_nat (month b - month a - 1)))
      with (month b) in Hm by lia.
    lia.
  - rewrite E, E'. lia.
Qed.

Lemma lt_calendar a b :
  calendar_date a -> calendar_date b -> Datetime.lt a b = true ->
  toordinal a < toordinal b.
Proof.
  intros Ca Cb H. apply toordinal_lt; auto.
  destruct Ca as (_ & _ & _ & Ha1 & Ha2 & Ha3 & Ha4).
  destruct Cb as (_ & _ & _ & Hb1 & Hb2 & Hb3 & Hb4).
  unfold Datetime.lt, fields in H. rewrite Ha1, Ha2, Ha3, Ha4, Hb1, Hb2, Hb3, Hb4 in H.
  cbn in H.
  repeat (apply orb_true_iff in H as [H|H] || apply andb_true_iff in H as [? H]);
    repeat match goal with
           | H : (_ <? _) = true |- _ => apply Z.ltb_lt in H
           | H : (_ =? _) = true |- _ => apply Z.eqb_eq in H
           end; try lia; discriminate.
Qed.

Lemma micros_midnight a : calendar_date a -> micros a = (toordinal a - 1) * day_us.
Proof.
  intros (_ & _ & _ & H1 & H2 & H3 & H4). unfold micros.
  rewrite H1, H2, H3, H4. lia.
Qed.

(** Between two calendar dates in order there is at least one day. *)
Lemma sub_days_pos a b :
  calendar_date a -> calendar_date b -> Datetime.lt a b = true -> 1 <= sub_days b a.
Proof.
  intros Ca Cb H. pose proof (lt_calendar a b Ca Cb H) as L.
  unfold sub_days. rewrite !micros_midnight by assumption.
  replace ((toordinal b - 1) * day_us - (toordinal a - 1) * day_us)
    with ((toordinal b - toordinal a) * day_us) by lia.
  rewrite Z.div_mul by (unfold day_us; lia). lia.
Qed.

(** ** Leap years *)

Lemma isleap_divide y :
  Calendar.isleap y = true <-> (4 | y) /\ (~ (100 | y) \/ (400 | y)).
Proof.
  unfold Calendar.isleap.
  rewrite andb_true_iff, orb_true_iff, negb_true_iff, !Z.eqb_eq, Z.eqb_neq.
  rewrite <- !Z.mod_divide by lia. tauto.
Qed.

(** C9, as the code has it: 29 February of year [y] is a valid date exactly
    when [y] is a leap year between 1 and 9999, the years a [datetime] can
    hold. *)
Theorem is_valid_date_feb29 (y : Z) :
  is_valid_date 29 2 y = true
  <-> 1 <= y <= 9999 /\ (4 | y) /\ (~ (100 | y) \/ (400 | y)).
Proof.
  rewrite <- isleap_divide.
  unfold is_valid_date, Calendar.monthrange. cbn [Z.leb Z.compare andb negb].
  rsimpl. change (2 =? 2) with true. cbn [andb Calendar.mdays].
  destruct (Calendar.isleap y) eqn:L.
  - change (29 <=? 28 + 1) with true. cbn [andb negb]. rsimpl.
    unfold Datetime.new, days_in_month, MINYEAR, MAXYEAR. rewrite L.
    change (c_int 2) with true. change (c_int 29) with true.
    change (2 =? 2) with true. cbn [andb Calendar.mdays].
    change (1 <=? 2) with true. change (2 <=? 12) with true.
    change (1 <=? 29) with true. change (29 <=? 28 + 1) with true.
    rewrite !andb_true_r.
    destruct (c_int y) eqn:C; cbn [negb].
    + destruct (Z.leb_spec 1 y), (Z.leb_spec y 9999); cbn [andb]; rsimpl;
        split; try easy; try lia; intros [? _]; lia.
    + split; [discriminate|]. intros [[H1 H2] _].
      rewrite c_int_small in C; [discriminate|].
      change (10 ^ 9) with 1000000000. lia.
  - change (29 <=? 28 + 0) with false. cbn [andb negb].
    split; [discriminate|]. intros [_ H]. discriminate.
Qed.

(** C9 fails outside the years of [datetime]: year 0 is divisible by 400,
    yet 29 February of year 0 is not a valid date. *)
Lemma is_valid_date_feb29_year0 :
  is_valid_date 29 2 0 = false /\ (4 | 0) /\ (~ (100 | 0) \/ (400 | 0)).
Proof.
  split; [reflexivity|]. split; [|right]; apply Z.divide_0_r.
Qed.

(** ** The impossible day of C4 *)

(** C4 at its input: [validate_date] rejects 30/02/2026 as a format error,
    and the suggestions are the format hint alone; neither text mentions day
    30, month 2/2026 or the maximum day 28. *)
Theorem validate_date_30_02_2026 (reference_date : datetime) :
  validate_date (u "30/02/2026")
  = Ok (false, u "Invalid date format: 30/02/2026", None)
  /\ get_validation_suggestions reference_date (u "30/02/2026")
     = Ok [u "Use format DD/MM/YYYY (e.g., 23/02/2026)"]
  /\ contains (u "Invalid date format: 30/02/2026") (u "28") = false
  /\ contains (u "Use format DD/MM/YYYY (e.g., 23/02/2026)") (u "28") = false.
Proof. conjs; vm_compute; reflexivity. Qed.

(** ** The overflow of C10 *)

(** C10 at a day of ten digits: the constructor raises [OverflowError],
    which [parse_date] does not catch, so neither [parse_date] nor
    [validate_date] returns. *)
Theorem parse_date_overflow :
  parse_date (u "9999999999/1/2026") = Raise OverflowError
  /\ validate_date (u "9999999999/1/2026") = Raise OverflowError
  /\ is_valid_date 9999999999 1 2026 = false.
Proof. conjs; vm_compute; reflexivity. Qed.

(** Whenever [validate_date] returns, the text is accepted, or rejected with
    the format error or the year error; the "does not exist in the calendar"
    error is never produced. *)
Lemma validate_date_never_calendar_error s v msg a :
  validate_date s = Ok (v, msg, a) ->
  (v = true /\ msg = [] /\ exists b, a = Some b /\ calendar_date b)
  \/ (v = false /\ a = None /\ msg = format_error s /\ parse_date s = Ok None)
  \/ (v = false /\ a = None /\ exists b, parse_date s = Ok (Some b)
        /\ msg = year_error (year b)).
Proof.
  intros H. apply validate_date_cases in H as [[E H]|[(b & E & C & Y & H)|(b & E & C & Y & H)]];
    injection H as -> -> ->.
  - right; left. auto.
  - right; right. eauto.
  - left. eauto.
Qed.

(** ** Date ranges *)

(** C6, as the code has it: a range of two dates of the years 1900 to 2100,
    in order, that does not start before the reference date and lasts at
    most 36500 days, is accepted with the default parameters; a range whose
    end is not after its start is refused whatever the parameters. *)
Theorem validate_date_range_order
        (reference_date : datetime) (s e : str) (ds de : datetime)
        (Hs : parse_date s = Ok (Some ds)) (He : parse_date e = Ok (Some de)) :
  (in_year_range (year ds) = true -> in_year_range (year de) = true ->
   Datetime.lt ds de = true ->
   Datetime.lt ds reference_date = false ->
   sub_days de ds <= 36500 ->
   validate_date_range reference_date s e false 1 36500 = Ok (true, []))
  /\ (Datetime.le de ds = true ->
      forall allow_past_start min_days max_days, exists msg,
        validate_date_range reference_date s e allow_past_start min_days max_days
        = Ok (false, msg)).
Proof.
  pose proof (parse_date_calendar _ _ Hs) as Cs.
  pose proof (parse_date_calendar _ _ He) as Ce.
  split.
  - intros Ys Ye L P D. unfold validate_date_range.
    rewrite (validate_date_parsed _ _ Hs Ys). rsimpl.
    rewrite (validate_date_parsed _ _ He Ye). rsimpl.
    rewrite P. cbn [negb andb]. unfold Datetime.le. rewrite L. cbn [negb].
    pose proof (sub_days_pos _ _ Cs Ce L) as D1.
    destruct (Z.ltb_spec (sub_days de ds) 1); [lia|].
    destruct (Z.ltb_spec 36500 (sub_days de ds)); [lia|]. reflexivity.
  - intros L allow mn mx. unfold validate_date_range, validate_date.
    rewrite Hs, He. rsimpl.
    rewrite (calendar_date_valid _ Cs), (calendar_date_valid _ Ce). cbn [negb].
    destruct (in_year_range (year ds)); cbn [negb]; rsimpl; [|eauto].
    destruct (in_year_range (year de)); cbn [negb]; rsimpl; [|eauto].
    destruct (negb allow && Datetime.lt ds reference_date); [eauto|].
    rewrite L. eauto.
Qed.

(** The theorem at 01/02/2027 .. 01/02/2028, and at the reversed range. *)
Lemma validate_date_range_order_witness :
  validate_date_range ref_2026_01_15 (u "01/02/2027") (u "01/02/2028") false 1 36500
  = Ok (true, [])
  /\ exists msg,
       validate_date_range ref_2026_01_15 (u "01/02/2028") (u "01/02/2027") true 5 10
       = Ok (false, msg).
Proof.
  split.
  - apply (proj1 (validate_date_range_order ref_2026_01_15
                    (u "01/02/2027") (u "01/02/2028")
                    (mkdt 2027 2 1 0 0 0 0) (mkdt 2028 2 1 0 0 0 0)
                    ltac:(vm_compute; reflexivity) ltac:(vm_compute; reflexivity)));
      vm_compute; congruence.
  - apply (proj2 (validate_date_range_order ref_2026_01_15
                    (u "01/02/2028") (u "01/02/2027")
                    (mkdt 2028 2 1 0 0 0 0) (mkdt 2027 2 1 0 0 0 0)
                    ltac:(vm_compute; reflexivity) ltac:(vm_compute; reflexivity))).
    vm_compute. reflexivity.
Defined.

(** C6 fails as stated, on three ranges of dates in order, with the default
    parameters: a range that starts before the reference date, a range of
    the years 2101 and 2102, and a range of more than 36500 days. *)
Lemma validate_date_range_order_fails :
  (parse_date (u "01/02/2025") = Ok (Some (mkdt 2025 2 1 0 0 0 0))
   /\ parse_date (u "01/02/2027") = Ok (Some (mkdt 2027 2 1 0 0 0 0))
   /\ Datetime.lt (mkdt 2025 2 1 0 0 0 0) (mkdt 2027 2 1 0 0 0 0) = true
   /\ validate_date_range ref_2026_01_15 (u "01/02/2025") (u "01/02/2027")
                          false 1 36500
      = Ok (false,
            u "Start date 01/02/2025 is in the past. Lease contracts should start on or after today (15/01/2026)"))
  /\ (parse_date (u "01/02/2101") = Ok (Some (mkdt 2101 2 1 0 0 0 0))
      /\ parse_date (u "01/02/2102") = Ok (Some (mkdt 2102 2 1 0 0 0 0))
      /\ Datetime.lt (mkdt 2101 2 1 0 0 0 0) (mkdt 2102 2 1 0 0 0 0) = true
      /\ validate_date_range ref_2026_01_15 (u "01/02/2101") (u "01/02/2102")
                             false 1 36500
         = Ok (false, u "Start date error: Year out of reasonable range: 2101"))
  /\ (parse_date (u "01/01/2000") = Ok (Some (mkdt 2000 1 1 0 0 0 0))
      /\ parse_date (u "31/12/2100") = Ok (Some (mkdt 2100 12 31 0 0 0 0))
      /\ Datetime.lt (mkdt 2000 1 1 0 0 0 0) (mkdt 2100 12 31 0 0 0 0) = true
      /\ validate_date_range ref_1999_06_01 (u "01/01/2000") (u "31/12/2100")
                             false 1 36500
         = Ok (false,
               u "Lease duration too long: 36889 days (101 years). Maximum duration is 100 years.")).
Proof. conjs; vm_compute; reflexivity. Qed.

(** ** The scan of a text *)

Lemma group_app c2 c1 i :
  group (c2 ++ c1) i = match group c2 i with Some t => Some t | None => group c1 i end.
Proof.
  induction c2 as [|[j t] c2 IH]; simpl; [reflexivity|].
  destruct (i =? j)%nat; auto.
Qed.

Lemma Matches_captures i r s c :
  Matches r s c -> captures i r = true -> exists t, group c i = Some t.
Proof.
  induction 1; simpl; intros G; try discriminate.
  - rewrite group_app. apply orb_true_iff in G as [G|G].
    + destruct (group c2 i); eauto.
    + destruct (IHMatches2 G) as [t ->]. eauto.
  - apply andb_true_iff in G as [G _]. auto.
  - apply andb_true_iff in G as [_ G]. auto.
  - destruct (i =? i0)%nat; eauto.
Qed.

Lemma date_patterns_ok : forallb date_pattern_ok date_patterns = true.
Proof. vm_compute. reflexivity. Qed.

Lemma range_patterns_ok : forallb range_pattern_ok range_patterns = true.
Proof. vm_compute. reflexivity. Qed.

Lemma date_pattern_parsable r s c :
  date_pattern_ok r = true -> Matches r s c -> parsable s.
Proof.
  unfold date_pattern_ok. intros H M.
  destruct (maxlen r) as [n|] eqn:E.
  - left. apply Nat.leb_le in H. pose proof (Matches_maxlen _ _ _ M _ E). lia.
  - right. intros b Hb. eapply Matches_avoids; eauto.
Qed.

Lemma date_matches_parsable text m :
  In m (date_matches text) -> parsable (m_text m).
Proof.
  unfold date_matches. rewrite in_flat_map. intros (p & Hp & Hm).
  pose proof date_patterns_ok as F. rewrite forallb_forall in F.
  eapply date_pattern_parsable; [exact (F _ Hp)|]. eapply finditer_sound; eauto.
Qed.

Lemma range_matches_groups text m :
  In m (range_matches text) ->
  exists s e, group (m_caps m) 1 = Some s /\ group (m_caps m) 2 = Some e
              /\ parsable s /\ parsable e.
Proof.
  unfold range_matches. rewrite in_flat_map. intros (p & Hp & Hm).
  pose proof range_patterns_ok as F. rewrite forallb_forall in F.
  specialize (F _ Hp). unfold range_pattern_ok in F.
  apply andb_true_iff in F as [F B2]. apply andb_true_iff in F as [F B1].
  apply andb_true_iff in F as [C1 C2].
  apply finditer_sound in Hm.
  destruct (Matches_captures 1 _ _ _ Hm C1) as [s Es].
  destruct (Matches_captures 2 _ _ _ Hm C2) as [e Ee].
  exists s, e. repeat split; auto; left.
  - exact (Matches_group_bound _ _ _ _ _ Hm B1 _ (group_In _ _ _ Es)).
  - exact (Matches_group_bound _ _ _ _ _ Hm B2 _ (group_In _ _ _ Ee)).
Qed.

Lemma date_errors_app a b : date_errors (a ++ b) = date_errors a ++ date_errors b.
Proof. unfold date_errors. now rewrite flat_map_app. Qed.

Lemma range_errors_app a b : range_errors (a ++ b) = range_errors a ++ range_errors b.
Proof. unfold range_errors. now rewrite flat_map_app. Qed.

Lemma scan_matches_spec ms :
  (forall m, In m ms -> parsable (m_text m)) ->
  forall found errors, exists fs,
    Forall2 checked ms fs
    /\ scan_matches ms found errors = Ok (found ++ fs, errors ++ date_errors fs).
Proof.
  induction ms as [|m ms IH]; intros P found errors.
  - exists []. split; [constructor|]. simpl. now rewrite !app_nil_r.
  - destruct (validate_date_returns (m_text m) (P m (or_introl eq_refl)))
      as [[[v e] a] E].
    cbn [scan_matches]. rewrite E. rsimpl.
    destruct (IH (fun x H => P x (or_intror H))
                 (found ++ [Finding (m_text m) a v e])
                 (if v then errors
                  else errors ++ [u "Invalid date '" ++ m_text m ++ u "': " ++ e]))
      as (fs & F & ->).
    exists (Finding (m_text m) a v e :: fs). split.
    + constructor; [split; [reflexivity|exact E]|exact F].
    + rewrite <- !app_assoc. f_equal. f_equal.
      change (date_errors (Finding (m_text m) a v e :: fs))
        with ((if v then [] else [entry (Finding (m_text m) a v e)]) ++ date_errors fs).
      destruct v; simpl; [reflexivity|]. now rewrite <- app_assoc.
Qed.

Lemma scan_patterns_spec ps text :
  (forall p m, In p ps -> In m (finditer p text) -> parsable (m_text m)) ->
  forall found errors, exists fs,
    Forall2 checked (flat_map (fun p => finditer p text) ps) fs
    /\ scan_patterns ps text found errors = Ok (found ++ fs, errors ++ date_errors fs).
Proof.
  induction ps as [|p ps IH]; intros P found errors.
  - exists []. split; [constructor|]. simpl. now rewrite !app_nil_r.
  - cbn [scan_patterns flat_map].
    destruct (scan_matches_spec (finditer p text)
                (fun m H => P p m (or_introl eq_refl) H) found errors)
      as (fs1 & F1 & ->).
    rsimpl.
    destruct (IH (fun q m Hq H => P q m (or_intror Hq) H)
                 (found ++ fs1) (errors ++ date_errors fs1))
      as (fs2 & F2 & ->).
    exists (fs1 ++ fs2). split.
    + now apply Forall2_app.
    + now rewrite date_errors_app, <- !app_assoc.
Qed.

Lemma scan_range_matches_spec reference_date allow ms :
  (forall m, In m ms ->
     exists s e, group (m_caps m) 1 = Some s /\ group (m_caps m) 2 = Some e
                 /\ parsable s /\ parsable e) ->
  forall errors, exists os,
    Forall2 (range_checked reference_date allow) ms os
    /\ scan_range_matches reference_date ms allow errors
       = Ok (errors ++ range_errors os).
Proof.
  induction ms as [|m ms IH]; intros P errors.
  - exists []. split; [constructor|]. simpl. now rewrite app_nil_r.
  - destruct (P m (or_introl eq_refl)) as (s & e & Es & Ee & Ps & Pe).
    destruct (validate_date_range_returns reference_date s e allow 1 36500 Ps Pe)
      as [[v msg] E].
    cbn [scan_range_matches]. rewrite Es, Ee, E. rsimpl.
    destruct (IH (fun x H => P x (or_intror H))
                 (if v then errors else errors ++ [msg])) as (os & F & ->).
    exists ((if v then None else Some msg) :: os). split.
    + constructor; [|exact F]. exists s, e, v, msg. auto.
    + destruct v; simpl; [reflexivity|]. now rewrite <- app_assoc.
Qed.

Lemma scan_ranges_spec reference_date allow ps text :
  (forall p m, In p ps -> In m (finditer p text) ->
     exists s e, group (m_caps m) 1 = Some s /\ group (m_caps m) 2 = Some e
                 /\ parsable s /\ parsable e) ->
  forall errors, exists os,
    Forall2 (range_checked reference_date allow)
            (flat_map (fun p => finditer p text) ps) os
    /\ scan_ranges reference_date ps text allow errors
       = Ok (errors ++ range_errors os).
Proof.
  induction ps as [|p ps IH]; intros P errors.
  - exists []. split; [constructor|]. simpl. now rewrite app_nil_r.
  - cbn [scan_ranges flat_map].
    destruct (scan_range_matches_spec reference_date allow (finditer p text)
                (fun m H => P p m (or_introl eq_refl) H) errors)
      as (os1 & F1 & ->).
    rsimpl.
    destruct (IH (fun q m Hq H => P q m (or_intror Hq) H)
                 (errors ++ range_errors os1)) as (os2 & F2 & ->).
    exists (os1 ++ os2). split.
    + now apply Forall2_app.
    + now rewrite range_errors_app, <- !app_assoc.
Qed.

Lemma date_errors_nil fs :
  date_errors fs = [] <-> forall f, In f fs -> f_valid f = true.
Proof.
  induction fs as [|f fs IH].
  - split; [intros _ ? []|reflexivity].
  - change (date_errors (f :: fs))
      with ((if f_valid f then [] else [entry f]) ++ date_errors fs).
    split.
    + intros H g [<-|Hg].
      * destruct (f_valid f); [reflexivity|discriminate].
      * destruct (f_valid f); [|discriminate]. apply IH; auto.
    + intros H. rewrite (H f (or_introl eq_refl)). apply IH.
      intros g Hg. apply H. now right.
Qed.

Lemma date_errors_In fs f :
  In f fs -> f_valid f = false -> In (entry f) (date_errors fs).
Proof.
  intros Hin Hv. unfold date_errors. apply in_flat_map.
  exists f. split; [exact Hin|]. rewrite Hv. now left.
Qed.

Lemma range_errors_In os e : In (Some e) os -> In e (range_errors os).
Proof.
  intros Hin. unfold range_errors. apply in_flat_map.
  exists (Some e). split; [exact Hin|]. now left.
Qed.

Lemma range_errors_nil os : range_errors os = [] <-> forall o, In o os -> o = None.
Proof.
  induction os as [|o os IH].
  - split; [intros _ ? []|reflexivity].
  - change (range_errors (o :: os))
      with (match o with Some e => [e] | None => [] end ++ range_errors os).
    split.
    + intros H x [<-|Hx]; destruct o; try discriminate; auto.
      apply IH; auto.
    + intros H. rewrite (H o (or_introl eq_refl)). apply IH.
      intros x Hx. apply H. now right.
Qed.

Lemma classic_invalid (fs : list finding) :
  (exists f, In f fs /\ f_valid f = false) \/ (forall f, In f fs -> f_valid f = true).
Proof.
  induction fs as [|f fs [(g & Hg & Hv)|IH]].
  - right. intros ? [].
  - left. exists g. split; [now right|exact Hv].
  - destruct (f_valid f) eqn:E.
    + right. intros g [<-|Hg]; auto.
    + left. exists f. split; [now left|exact E].
Qed.

Lemma occurs_join (part : str) (parts : list str) :
  In part parts -> occurs part (join (u "; ") parts).
Proof. apply join_In. Qed.

Lemma extract_and_validate_dates_returns reference_date text allow_past_start :
  returns (extract_and_validate_dates reference_date text allow_past_start).
Proof.
  destruct (scan_patterns_spec date_patterns text
              (fun p m Hp Hm => date_matches_parsable text m
                 (proj2 (in_flat_map _ _ _) (ex_intro _ p (conj Hp Hm)))) [] [])
    as (fs & _ & E).
  unfold extract_and_validate_dates. rewrite E. rsimpl. cbn [app].
  destruct (date_errors fs); [|apply returns_Ok].
  destruct (scan_ranges_spec reference_date allow_past_start range_patterns text
              (fun p m Hp Hm => range_matches_groups text m
                 (proj2 (in_flat_map _ _ _) (ex_intro _ p (conj Hp Hm)))) [])
    as (os & _ & ->).
  rsimpl. cbn [app]. destruct (range_errors os); apply returns_Ok.
Qed.

(** C5, as the code has it: every date-like match is validated and
    recorded. When some date is invalid the scan fails and its message
    holds the entry of every invalid date; the range phrases are then not
    examined. When every date is valid, every range phrase is validated, the
    scan succeeds exactly when all ranges are valid, and its message holds
    the error of every invalid range. *)
Theorem extract_and_validate_dates_exhaustive
        (reference_date : datetime) (text : str) (allow_past_start : bool) :
  exists fs,
    Forall2 checked (date_matches text) fs
    /\ (((exists f, In f fs /\ f_valid f = false)
         /\ exists msg,
              extract_and_validate_dates reference_date text allow_past_start
              = Ok (false, msg, fs)
              /\ forall f, In f fs -> f_valid f = false -> occurs (entry f) msg)
        \/ ((forall f, In f fs -> f_valid f = true)
            /\ exists os v msg,
                 Forall2 (range_checked reference_date allow_past_start)
                         (range_matches text) os
                 /\ extract_and_validate_dates reference_date text allow_past_start
                    = Ok (v, msg, fs)
                 /\ (v = true <-> forall o, In o os -> o = None)
                 /\ forall e, In (Some e) os -> occurs e msg)).
Proof.
  destruct (scan_patterns_spec date_patterns text
              (fun p m Hp Hm => date_matches_parsable text m
                 (proj2 (in_flat_map _ _ _) (ex_intro _ p (conj Hp Hm)))) [] [])
    as (fs & F & E).
  exists fs. split; [exact F|].
  unfold extract_and_validate_dates. rewrite E. rsimpl. cbn [app].
  destruct (date_errors fs) as [|e1 es] eqn:D.
  - right. split; [now apply date_errors_nil|].
    destruct (scan_ranges_spec reference_date allow_past_start range_patterns text
                (fun p m Hp Hm => range_matches_groups text m
                   (proj2 (in_flat_map _ _ _) (ex_intro _ p (conj Hp Hm)))) [])
      as (os & R & ->).
    rsimpl. cbn [app].
    destruct (range_errors os) as [|r1 rs] eqn:Er.
    + exists os, true, []. repeat split; auto.
      * intros _. now apply range_errors_nil.
      * intros e He. apply range_errors_In in He. rewrite Er in He. destruct He.
    + exists os, false, (join (u "; ") (r1 :: rs)). repeat split; auto.
      * discriminate.
      * intros H. apply range_errors_nil in H. congruence.
      * intros e He. apply occurs_join. rewrite <- Er. now apply range_errors_In.
  - left. split.
    + destruct (classic_invalid fs) as [H|H]; [exact H|].
      apply date_errors_nil in H. congruence.
    + exists (join (u "; ") (e1 :: es)). split; [reflexivity|].
      intros f Hf Hv. apply occurs_join. rewrite <- D. now apply date_errors_In.
Qed.

(** C5 fails as stated: the text holds an impossible date and a backward
    range; the scan reports the date alone, and the error of the range is
    not in its message. *)
Lemma extract_and_validate_dates_skips_ranges :
  (exists fs,
     extract_and_validate_dates ref_2026_01_15 backward_and_impossible false
     = Ok (false, u "Invalid date '30/02/2026': Invalid date format: 30/02/2026", fs))
  /\ map (fun m => (group (m_caps m) 1, group (m_caps m) 2))
         (range_matches backward_and_impossible)
     = [ (Some (u "10/01/2027"), Some (u "05/01/2027"));
         (Some (u "10/01/2027"), Some (u "05/01/2027")) ]
  /\ validate_date_range ref_2026_01_15 (u "10/01/2027") (u "05/01/2027") false 1 36500
     = Ok (false,
           u "End date 05/01/2027 must be after start date 10/01/2027. The lease period goes backward in time.")
  /\ contains (u "Invalid date '30/02/2026': Invalid date format: 30/02/2026")
              (u "End date 05/01/2027 must be after start date 10/01/2027. The lease period goes backward in time.")
     = false.
Proof.
  conjs; try (vm_compute; reflexivity).
  eexists. vm_compute. reflexivity.
Qed.

(** ** The contract operations *)

Section Operations.

Variable backend : nat -> option str.
Variable json_action : str -> option str.
Variable isalpha : N -> bool.
Variable reference_date : datetime.

Lemma bind_unfold {A B} (m : M A) (f : A -> M B) st :
  (m ≫= f) st
  = match m st with
    | (Ok a, st') => f a st'
    | (Raise e, st') => (Raise e, st')
    end.
Proof. reflexivity. Qed.

Lemma validate_dates_in_text_spec text lg st :
  (passes_scan reference_date text
   /\ _validate_dates_in_text reference_date text lg st = (Ok (true, None), st))
  \/ (exists alert,
        _validate_dates_in_text reference_date text lg st
        = (Ok (false, Some alert), st)
        /\ is_error_message (Some alert) = true).
Proof.
  destruct (extract_and_validate_dates_returns reference_date text false)
    as [[[v m] fs] E].
  unfold _validate_dates_in_text. rewrite bind_unfold. unfold lift. rewrite E.
  destruct v; cbn [negb].
  - left. split; [now exists m, fs|reflexivity].
  - right. eexists. split; [reflexivity|].
    destruct lg; vm_compute; reflexivity.
Qed.

Ltac step_validate text lg st :=
  let H := fresh "H" in
  let P := fresh "P" in
  let E := fresh "E" in
  destruct (validate_dates_in_text_spec text lg st) as [[P E]|(? & E & H)];
  rewrite bind_unfold, E; cbn [negb].

Lemma generate_contract_spec user_input st :
  exists o st',
    generate_contract backend isalpha reference_date user_input st = (Ok o, st')
    /\ contract_memory st' = contract_memory st
    /\ generated reference_date o.
Proof.
  unfold generate_contract. rewrite bind_unfold. cbn [enter].
  set (lg := _detect_language isalpha user_input).
  set (st1 := State _ _ _).
  step_validate user_input lg st1.
  - rewrite bind_unfold. cbn [_chat_completion].
    destruct (backend (ncalls st1)) as [content|].
    + set (st2 := State _ _ _).
      step_validate (strip content) lg st2.
      * do 2 eexists. split; [reflexivity|]. split; [reflexivity|].
        right; right. eauto.
      * do 2 eexists. split; [reflexivity|]. split; [reflexivity|].
        left. destruct lg; vm_compute; reflexivity.
    + do 2 eexists. split; [reflexivity|]. split; [reflexivity|].
      destruct lg; [left; vm_compute; reflexivity|right; left; reflexivity].
  - do 2 eexists. split; [reflexivity|]. split; [reflexivity|]. now left.
Qed.

Lemma edit_contract_spec current user_request st :
  exists o st',
    edit_contract backend isalpha reference_date current user_request st = (Ok o, st')
    /\ contract_memory st' = contract_memory st
    /\ edited reference_date o.
Proof.
  unfold edit_contract. rewrite bind_unfold. cbn [enter].
  set (lg := _detect_language isalpha user_request).
  set (st1 := State _ _ _).
  step_validate user_request lg st1.
  - rewrite bind_unfold. cbn [_chat_completion].
    destruct (backend (ncalls st1)) as [content|].
    + set (st2 := State _ _ _).
      step_validate (strip content) lg st2.
      * do 2 eexists. split; [reflexivity|]. split; [reflexivity|].
        right; right. eauto.
      * do 2 eexists. split; [reflexivity|]. split; [reflexivity|].
        left. destruct lg; vm_compute; reflexivity.
    + do 2 eexists. split; [reflexivity|]. split; [reflexivity|].
      destruct lg; [left; vm_compute; reflexivity|right; left; reflexivity].
  - do 2 eexists. split; [reflexivity|]. split; [reflexivity|]. now left.
Qed.

(** The two operations when their completion call fails. *)
Lemma generate_contract_failure user_input st :
  backend (ncalls st) = None ->
  exists o st',
    generate_contract backend isalpha reference_date user_input st = (Ok o, st')
    /\ contract_memory st' = contract_memory st
    /\ (is_error_message o = true
        \/ (_detect_language isalpha user_input = english
            /\ o = Some (u "Sorry, error generating contract."))).
Proof.
  intros Hfail. unfold generate_contract. rewrite bind_unfold. cbn [enter].
  set (lg := _detect_language isalpha user_input).
  set (st1 := State _ _ _).
  step_validate user_input lg st1.
  - rewrite bind_unfold. cbn [_chat_completion]. subst st1. cbn [ncalls].
    rewrite Hfail. do 2 eexists. split; [reflexivity|]. split; [reflexivity|].
    destruct lg; [left; vm_compute; reflexivity|right; split; reflexivity].
  - do 2 eexists. split; [reflexivity|]. split; [reflexivity|]. now left.
Qed.

Lemma edit_contract_failure current user_request st :
  backend (ncalls st) = None ->
  exists o st',
    edit_contract backend isalpha reference_date current user_request st = (Ok o, st')
    /\ contract_memory st' = contract_memory st
    /\ (is_error_message o = true \/ o = Some (u "Sorry, error during edit.")).
Proof.
  intros Hfail. unfold edit_contract. rewrite bind_unfold. cbn [enter].
  set (lg := _detect_language isalpha user_request).
  set (st1 := State _ _ _).
  step_validate user_request lg st1.
  - rewrite bind_unfold. cbn [_chat_completion]. subst st1. cbn [ncalls].
    rewrite Hfail. do 2 eexists. split; [reflexivity|]. split; [reflexivity|].
    destruct lg; [left; vm_compute; reflexivity|right; reflexivity].
  - do 2 eexists. split; [reflexivity|]. split; [reflexivity|]. now left.
Qed.

Lemma review_contract_spec contract_text st :
  exists o st',
    review_contract backend isalpha reference_date contract_text st = (Ok o, st')
    /\ contract_memory st' = contract_memory st.
Proof.
  unfold review_contract. rewrite bind_unfold. cbn [enter].
  rewrite bind_unfold. unfold lift.
  destruct (extract_and_validate_dates_returns reference_date contract_text true)
    as [r ->].
  rewrite bind_unfold. cbn [_chat_completion].
  destruct (backend _); do 2 eexists; split; reflexivity.
Qed.

Lemma explain_clause_spec contract_text user_query st :
  exists o st',
    explain_clause backend isalpha contract_text user_query st = (Ok o, st')
    /\ contract_memory st' = contract_memory st.
Proof.
  unfold explain_clause. rewrite bind_unfold. cbn [enter].
  rewrite bind_unfold. cbn [_chat_completion].
  destruct (backend _); do 2 eexists; split; reflexivity.
Qed.

End Operations.

(** ** The router *)

Lemma lstrip_idem s : lstrip (lstrip s) = lstrip s.
Proof.
  induction s as [|c s IH]; simpl; [reflexivity|].
  destruct (isspace c) eqn:E; [exact IH|]. simpl. now rewrite E.
Qed.

Lemma strip_idem s : strip (strip s) = strip s.
Proof.
  unfold strip at 1. rewrite (strip_fixed s (strip s) eq_refl).
  unfold strip, rstrip. now rewrite rev_involutive, lstrip_idem.
Qed.

Lemma sync_lookup (cc : option str) (sid : str) (mem : gmap str str) :
  sync cc sid mem !! sid = if supplied cc then cc else mem !! sid.
Proof.
  unfold sync. destruct (supplied cc) eqn:E; [|reflexivity].
  destruct cc as [c|]; [apply lookup_insert_eq|discriminate].
Qed.

Section Router.

Variable backend : nat -> option str.
Variable json_action : str -> option str.
Variable isalpha : N -> bool.
Variable reference_date : datetime.

(** The router: the sync of the memory, the classification (one
    completion call), then the dispatch. *)
Lemma get_chat_response_eq (user_input : str) (cc : option str) (sid : str) st :
  get_chat_response backend json_action isalpha reference_date user_input cc sid st
  = dispatch backend isalpha reference_date user_input sid
      (_detect_language isalpha user_input)
      (active cc sid (contract_memory st))
      (intent_of backend json_action (ncalls st))
      (State (sync cc sid (contract_memory st)) (S (ncalls st)) (invoked st)).
Proof.
  unfold get_chat_response, sync, active, intent_of.
  rewrite bind_unfold.
  destruct (supplied cc) eqn:E.
  - cbn [set_current_contract]. rewrite bind_unfold. cbn [get_current_contract].
    rewrite bind_unfold. unfold _classify_intent. rewrite bind_unfold.
    cbn [_chat_completion ncalls contract_memory invoked].
    destruct (backend (ncalls st)) as [content|]; [|reflexivity].
    destruct (json_action content); reflexivity.
  - destruct st as [mem n inv]. cbn [mret M_ret]. rewrite bind_unfold.
    cbn [get_current_contract]. rewrite bind_unfold.
    unfold _classify_intent. rewrite bind_unfold.
    cbn [_chat_completion ncalls contract_memory invoked].
    destruct (backend n) as [content|]; [|reflexivity].
    destruct (json_action content); reflexivity.
Qed.

Lemma fallback_passes_scan :
  passes_scan reference_date (u "Sorry, error generating contract.").
Proof. do 2 eexists. vm_compute. reflexivity. Qed.

Lemma truthy_opt_Some o : truthy_opt o = true -> exists t, o = Some t.
Proof. destruct o; [eauto|discriminate]. Qed.

Lemma dispatch_cases (user_input sid : str) lg act intent st1 :
  exists msg c a st',
    dispatch backend isalpha reference_date user_input sid lg act intent st1
    = (Ok (msg, c, a), st')
    /\ routed reference_date sid act intent (contract_memory st1) c a
              (contract_memory st').
Proof.
  unfold dispatch.
  destruct (Str.eqb intent (u "create")) eqn:Ic.
  { apply eqb_eq in Ic. rewrite bind_unfold.
    destruct (generate_contract_spec backend isalpha reference_date user_input st1)
      as (o & st2 & -> & Hm & G).
    destruct (is_error_message o) eqn:Ie.
    - destruct (truthy_opt act) eqn:Ta.
      + do 4 eexists. split; [reflexivity|]. cbn. rewrite Hm.
        split; [reflexivity|]. split; [now apply truthy_opt_Some|reflexivity].
      + do 4 eexists. split; [reflexivity|]. cbn. now rewrite Hm.
    - destruct (truthy_opt o) eqn:To.
      + rewrite bind_unfold. cbn [set_current_contract].
        destruct (truthy_opt_Some _ To) as [t ->].
        do 4 eexists. split; [reflexivity|]. cbn [routed contract_memory get_str].
        exists t. rewrite Hm. split; [reflexivity|]. split; [reflexivity|].
        split; [|now left].
        destruct G as [G|[G|(content & G & P)]].
        * congruence.
        * injection G as ->. apply fallback_passes_scan.
        * injection G as ->. exact P.
      + destruct (truthy_opt act) eqn:Ta.
        * do 4 eexists. split; [reflexivity|]. cbn. rewrite Hm.
          split; [reflexivity|]. split; [now apply truthy_opt_Some|reflexivity].
        * do 4 eexists. split; [reflexivity|]. cbn. now rewrite Hm. }
  destruct (Str.eqb intent (u "edit")) eqn:Ied.
  { apply eqb_eq in Ied. destruct act as [a0|].
    2:{ do 4 eexists. split; [reflexivity|]. cbn. auto. }
    rewrite bind_unfold.
    destruct (edit_contract_spec backend isalpha reference_date a0 user_input st1)
      as (o & st2 & -> & Hm & G).
    destruct (is_error_message o) eqn:Ie.
    - do 4 eexists. split; [reflexivity|]. cbn. rewrite Hm. eauto.
    - destruct (truthy_opt o && _ && _) eqn:C.
      + rewrite bind_unfold. cbn [set_current_contract].
        apply andb_true_iff in C as [C Cn]. apply andb_true_iff in C as [To Cl].
        destruct (truthy_opt_Some _ To) as [t ->]. cbn [get_str] in *.
        apply negb_true_iff, eqb_neq in Cn.
        do 4 eexists. split; [reflexivity|]. cbn [routed contract_memory].
        exists t. rewrite Hm. split; [reflexivity|]. split; [reflexivity|].
        destruct G as [G|[G|(content & G & P)]].
        * congruence.
        * injection G as ->. vm_compute in Cl. discriminate.
        * injection G as ->. split; [exact P|]. right. split; [exact Ied|].
          exists a0, content. auto.
      + do 4 eexists. split; [reflexivity|]. cbn. rewrite Hm. eauto. }
  destruct (Str.eqb intent (u "explain")) eqn:Iex.
  { destruct act as [a0|].
    2:{ do 4 eexists. split; [reflexivity|]. cbn. auto. }
    rewrite bind_unfold.
    destruct (explain_clause_spec backend isalpha a0 user_input st1)
      as (o & st2 & -> & Hm).
    do 4 eexists. split; [reflexivity|]. cbn. rewrite Hm. eauto. }
  destruct (Str.eqb intent (u "review")) eqn:Ire.
  { destruct act as [a0|].
    2:{ do 4 eexists. split; [reflexivity|]. cbn. auto. }
    rewrite bind_unfold.
    destruct (review_contract_spec backend isalpha reference_date a0 st1)
      as (o & st2 & -> & Hm).
    do 4 eexists. split; [reflexivity|]. cbn. rewrite Hm. eauto. }
  rewrite bind_unfold. cbn [_chat_completion].
  destruct (backend (ncalls st1)), act as [a0|];
    do 4 eexists; (split; [reflexivity|]); cbn; eauto.
Qed.

(** C3, as the code has it: the router always returns. With "none" the
    contract field is absent. With "unchanged" the contract field is the
    active contract (the stored artifact, or the caller's contract of this
    turn without its surrounding blanks) and the memory is left as the
    sync made it. With "updated" the contract field is present and is the
    new stored artifact; on the edit route it differs from the active
    contract and from the artifact stored just before. *)
Theorem routing_result_invariant
        (user_input : str) (current_contract : option str) (session_id : str)
        (st : state) :
  let mem1 := sync current_contract session_id (contract_memory st) in
  let act := active current_contract session_id (contract_memory st) in
  exists msg contract a st',
    get_chat_response backend json_action isalpha reference_date
      user_input current_contract session_id st
    = (Ok (msg, contract, a), st')
    /\ match a with
       | none => contract = None /\ contract_memory st' = mem1
       | unchanged =>
         (exists t, contract = Some t /\ act = Some t)
         /\ contract_memory st' = mem1
       | updated =>
         exists t,
           contract = Some t
           /\ contract_memory st' = <[session_id := t]> mem1
           /\ (intent_of backend json_action (ncalls st) = u "edit" ->
               act <> Some t /\ mem1 !! session_id <> Some t)
       end.
Proof.
  intros mem1 act. rewrite get_chat_response_eq.
  destruct (dispatch_cases user_input session_id
              (_detect_language isalpha user_input) act
              (intent_of backend json_action (ncalls st))
              (State mem1 (S (ncalls st)) (invoked st)))
    as (msg & c & a & st' & E & R).
  exists msg, c, a, st'. split; [exact E|].
  destruct a; cbn [routed contract_memory] in R.
  - destruct R as (t & -> & Hm & _ & Hi). exists t.
    split; [reflexivity|]. split; [exact Hm|]. intros Ie.
    destruct Hi as [Hi|(_ & a0 & content & Ha & Hn & Hs)].
    { rewrite Hi in Ie. vm_compute in Ie. discriminate. }
    split; [congruence|].
    unfold mem1. rewrite sync_lookup.
    unfold act, active in Ha.
    destruct (supplied current_contract) eqn:S; [|congruence].
    destruct current_contract as [c|]; [|discriminate].
    cbn [get_str] in Ha. injection Ha as <-.
    intros Hc. injection Hc as ->. apply Hn.
    rewrite Hs. now rewrite strip_idem.
  - destruct R as (-> & (a0 & Ha) & Hm). split; [eauto|exact Hm].
  - exact R.
Qed.

(** C7: on the edit route, an output of [edit_contract] equal to the
    active contract, or shorter than 200 characters once stripped, gives
    "unchanged" with the active contract, and leaves the memory alone. *)
Theorem noop_edit_is_unchanged
        (user_input : str) (current_contract : option str) (session_id : str)
        (st st2 : state) (active_contract : str) (output : option str)
        (Hintent : intent_of backend json_action (ncalls st) = u "edit")
        (Hactive : active current_contract session_id (contract_memory st)
                   = Some active_contract)
        (Hedit : edit_contract backend isalpha reference_date
                   active_contract user_input
                   (State (sync current_contract session_id (contract_memory st))
                          (S (ncalls st)) (invoked st))
                 = (Ok output, st2))
        (Hnoop : output = Some active_contract
                 \/ (length (strip (get_str output)) < MIN_CONTRACT_LENGTH)%nat) :
  exists msg,
    get_chat_response backend json_action isalpha reference_date
      user_input current_contract session_id st
    = (Ok (msg, Some active_contract, unchanged), st2)
    /\ contract_memory st2
       = sync current_contract session_id (contract_memory st).
Proof.
  rewrite get_chat_response_eq, Hintent, Hactive.
  destruct (edit_contract_spec backend isalpha reference_date
              active_contract user_input
              (State (sync current_contract session_id (contract_memory st))
                     (S (ncalls st)) (invoked st)))
    as (o & st0 & E & Hm & _).
  rewrite Hedit in E. injection E as <- <-. cbn [contract_memory] in Hm.
  unfold dispatch.
  replace (Str.eqb (u "edit") (u "create")) with false by (vm_compute; reflexivity).
  replace (Str.eqb (u "edit") (u "edit")) with true by (vm_compute; reflexivity).
  rewrite bind_unfold, Hedit.
  destruct (is_error_message output); [eexists; split; [reflexivity|exact Hm]|].
  assert (C : truthy_opt output
              && (MIN_CONTRACT_LENGTH <=? length (strip (get_str output)))%nat
              && negb (Str.eqb (get_str output) active_contract) = false).
  { destruct Hnoop as [->|Hl].
    - cbn [get_str]. rewrite eqb_refl. cbn [negb]. apply andb_false_r.
    - apply Nat.leb_gt in Hl. rewrite Hl. rewrite andb_false_r. reflexivity. }
  rewrite C. eexists; split; [reflexivity|exact Hm].
Qed.

(** C8: an edit request without an active contract is answered with the
    guidance message, no contract and "none"; the state afterwards shows
    the classification call alone: no operation was entered, and the
    memory is untouched. *)
Theorem edit_without_contract
        (user_input : str) (current_contract : option str) (session_id : str)
        (st : state)
        (Hintent : intent_of backend json_action (ncalls st) = u "edit")
        (Hsupplied : supplied current_contract = false)
        (Hstored : contract_memory st !! session_id = None) :
  get_chat_response backend json_action isalpha reference_date
    user_input current_contract session_id st
  = (Ok (match _detect_language isalpha user_input with
         | arabic => u "أحتاج عقد موجود لأعدله. الصق العقد أو اطلب إنشاء عقد جديد."
         | english =>
           u "I need an existing contract to edit. Paste one or ask me to create a new contract."
         end, None, none),
     State (contract_memory st) (S (ncalls st)) (invoked st)).
Proof.
  rewrite get_chat_response_eq, Hintent.
  unfold active, sync. rewrite Hsupplied, Hstored.
  unfold dispatch.
  replace (Str.eqb (u "edit") (u "create")) with false by (vm_compute; reflexivity).
  replace (Str.eqb (u "edit") (u "edit")) with true by (vm_compute; reflexivity).
  reflexivity.
Qed.

(** Apart from the English create route, a failed completion call of the
    operation never gives "updated", and leaves the memory as the sync made
    it. *)
Lemma failed_completion_elsewhere
      (user_input : str) (current_contract : option str) (session_id : str)
      (st : state)
      (Hfail : backend (S (ncalls st)) = None)
      (Hwhere : intent_of backend json_action (ncalls st) <> u "create"
                \/ _detect_language isalpha user_input = arabic) :
  exists msg contract a st',
    get_chat_response backend json_action isalpha reference_date
      user_input current_contract session_id st
    = (Ok (msg, contract, a), st')
    /\ a <> updated
    /\ contract_memory st'
       = sync current_contract session_id (contract_memory st).
Proof.
  rewrite get_chat_response_eq.
  set (st1 := State _ _ _).
  set (act := active _ _ _).
  set (intent := intent_of _ _ _) in *.
  assert (Hfail1 : backend (ncalls st1) = None) by exact Hfail.
  unfold dispatch.
  destruct (Str.eqb intent (u "create")) eqn:Ic.
  { apply eqb_eq in Ic. destruct Hwhere as [Hw|Hl]; [congruence|].
    rewrite bind_unfold.
    destruct (generate_contract_failure backend isalpha reference_date
                user_input st1 Hfail1) as (o & st2 & -> & Hm & [Ie|[He _]]);
      [|congruence].
    rewrite Ie.
    destruct (truthy_opt act); do 4 eexists;
      (split; [reflexivity|]); (split; [discriminate|exact Hm]). }
  destruct (Str.eqb intent (u "edit")) eqn:Ied.
  { destruct act as [a0|].
    2:{ do 4 eexists. split; [reflexivity|]. split; [discriminate|reflexivity]. }
    rewrite bind_unfold.
    destruct (edit_contract_failure backend isalpha reference_date
                a0 user_input st1 Hfail1) as (o & st2 & -> & Hm & [Ie| ->]).
    - rewrite Ie. do 4 eexists. split; [reflexivity|].
      split; [discriminate|exact Hm].
    - replace (is_error_message (Some (u "Sorry, error during edit.")))
        with false by (vm_compute; reflexivity).
      replace ((MIN_CONTRACT_LENGTH
                <=? length (strip (get_str (Some (u "Sorry, error during edit.")))))%nat)
        with false by (vm_compute; reflexivity).
      rewrite andb_false_r. cbn [andb].
      do 4 eexists. split; [reflexivity|]. split; [discriminate|exact Hm]. }
  destruct (Str.eqb intent (u "explain")) eqn:Iex.
  { destruct act as [a0|].
    2:{ do 4 eexists. split; [reflexivity|]. split; [discriminate|reflexivity]. }
    rewrite bind_unfold.
    destruct (explain_clause_spec backend isalpha a0 user_input st1)
      as (o & st2 & -> & Hm).
    do 4 eexists. split; [reflexivity|]. split; [discriminate|exact Hm]. }
  destruct (Str.eqb intent (u "review")) eqn:Ire.
  { destruct act as [a0|].
    2:{ do 4 eexists. split; [reflexivity|]. split; [discriminate|reflexivity]. }
    rewrite bind_unfold.
    destruct (review_contract_spec backend isalpha reference_date a0 st1)
      as (o & st2 & -> & Hm).
    do 4 eexists. split; [reflexivity|]. split; [discriminate|exact Hm]. }
  rewrite bind_unfold. cbn [_chat_completion].
  destruct (backend (ncalls st1)), act as [a0|];
    do 4 eexists; (split; [reflexivity|]); (split; [discriminate|reflexivity]).
Qed.

(** C2 at an English request to create a contract: when the completion
    call of the generation fails, the fallback text is stored as the
    contract of the session and returned as "updated". *)
Theorem failed_generation_is_stored
        (user_input : str) (current_contract : option str) (session_id : str)
        (st : state)
        (Hintent : intent_of backend json_action (ncalls st) = u "create")
        (Hlang : _detect_language isalpha user_input = english)
        (Hdates : exists m fs,
            extract_and_validate_dates reference_date user_input false
            = Ok (true, m, fs))
        (Hfail : backend (S (ncalls st)) = None) :
  get_chat_response backend json_action isalpha reference_date
    user_input current_contract session_id st
  = (Ok (u "Contract created successfully ✓",
         Some (u "Sorry, error generating contract."), updated),
     State (<[session_id := u "Sorry, error generating contract."]>
              (sync current_contract session_id (contract_memory st)))
           (S (S (ncalls st))) (invoked st ++ [OpGenerate])).
Proof.
  destruct Hdates as (m & fs & Hd).
  rewrite get_chat_response_eq, Hintent, Hlang.
  unfold dispatch.
  replace (Str.eqb (u "create") (u "create")) with true by (vm_compute; reflexivity).
  rewrite bind_unfold. unfold generate_contract.
  rewrite bind_unfold. cbn [enter]. rewrite Hlang.
  unfold _validate_dates_in_text. rewrite !bind_unfold. unfold lift.
  rewrite Hd. cbn [negb mret M_ret]. rewrite bind_unfold.
  cbn [_chat_completion ncalls contract_memory invoked]. rewrite Hfail.
  cbn [mret M_ret].
  replace (is_error_message (Some (u "Sorry, error generating contract.")))
    with false by (vm_compute; reflexivity).
  replace (truthy_opt (Some (u "Sorry, error generating contract.")))
    with true by (vm_compute; reflexivity).
  reflexivity.
Qed.

End Router.

(** ** Runs of the router *)

(** C3 fails as stated. First run: the session holds a lease, a create
    request is answered with the same text, and the router reports
    "updated" although the contract equals the artifact stored just before.
    Second run: the caller supplies a contract that starts with a blank; a
    chat turn returns "unchanged" with the stripped text, which is not the
    stored artifact. *)
Lemma routing_result_invariant_fails :
  (get_chat_response (scripted [Some (reply (u "create")); Some lease])
                     read_action letter ref_2026_01_15
                     create_request None default_session lease_state
   = (Ok (u "Contract created successfully ✓", Some lease, updated),
      State {[ default_session := lease ]} 2 [OpGenerate])
   /\ contract_memory lease_state !! default_session = Some lease)
  /\ (get_chat_response (scripted [None; Some (u "Hello")])
                        read_action letter ref_2026_01_15
                        (u "hello") (Some (u " " ++ lease)) default_session
                        empty_state
      = (Ok (u "Hello", Some lease, unchanged),
         State {[ default_session := u " " ++ lease ]} 2 [])
      /\ Str.eqb (u " " ++ lease) lease = false).
Proof. conjs; vm_compute; reflexivity. Qed.

(** The theorem at an edit whose output is the stored lease itself. *)
Lemma noop_edit_is_unchanged_witness :
  exists msg,
    get_chat_response (scripted [Some (reply (u "edit")); Some lease])
                      read_action letter ref_2026_01_15
                      edit_request None default_session lease_state
    = (Ok (msg, Some lease, unchanged),
       State {[ default_session := lease ]} 2 [OpEdit])
    /\ contract_memory (State {[ default_session := lease ]} 2 [OpEdit])
       = sync None default_session (contract_memory lease_state).
Proof.
  apply (noop_edit_is_unchanged
           (scripted [Some (reply (u "edit")); Some lease])
           read_action letter ref_2026_01_15
           edit_request None default_session lease_state
           (State {[ default_session := lease ]} 2 [OpEdit])
           lease (Some lease)).
  - vm_compute. reflexivity.
  - vm_compute. reflexivity.
  - vm_compute. reflexivity.
  - left. reflexivity.
Defined.

(** The theorem at an edit request in a fresh session. *)
Lemma edit_without_contract_witness :
  get_chat_response (scripted [Some (reply (u "edit")); Some lease])
                    read_action letter ref_2026_01_15
                    edit_request None default_session empty_state
  = (Ok (match _detect_language letter edit_request with
         | arabic => u "أحتاج عقد موجود لأعدله. الصق العقد أو اطلب إنشاء عقد جديد."
         | english =>
           u "I need an existing contract to edit. Paste one or ask me to create a new contract."
         end, None, none),
     State (contract_memory empty_state) (S (ncalls empty_state))
           (invoked empty_state)).
Proof.
  apply (edit_without_contract
           (scripted [Some (reply (u "edit")); Some lease])
           read_action letter ref_2026_01_15
           edit_request None default_session empty_state).
  - vm_compute. reflexivity.
  - reflexivity.
  - vm_compute. reflexivity.
Defined.

(** The theorem at a session that holds a lease: the failed generation
    replaces the lease by the fallback text. *)
Lemma failed_generation_is_stored_witness :
  get_chat_response (scripted [Some (reply (u "create")); None])
                    read_action letter ref_2026_01_15
                    create_request None default_session lease_state
  = (Ok (u "Contract created successfully ✓",
         Some (u "Sorry, error generating contract."), updated),
     State (<[default_session := u "Sorry, error generating contract."]>
              (sync None default_session (contract_memory lease_state)))
           (S (S (ncalls lease_state))) (invoked lease_state ++ [OpGenerate])).
Proof.
  apply (failed_generation_is_stored
           (scripted [Some (reply (u "create")); None])
           read_action letter ref_2026_01_15
           create_request None default_session lease_state).
  - vm_compute. reflexivity.
  - vm_compute. reflexivity.
  - do 2 eexists. vm_compute. reflexivity.
  - vm_compute. reflexivity.
Defined.

(** * Further properties of the code *)

(** ** Texts without digits *)

Lemma match_parts r s m :
  match_ r s = Some m -> s = m_text m ++ m_rest m /\ Matches r (m_text m) (m_caps m).
Proof.
  unfold match_. intros H.
  apply rmatch_sound in H as (s1 & s2 & c1 & -> & M & H).
  rewrite firstn_app_length, app_nil_r in H. injection H as <-. now split.
Qed.

Lemma search_parts r s m :
  search r s = Some m ->
  (exists pre, s = pre ++ m_text m ++ m_rest m) /\ Matches r (m_text m) (m_caps m).
Proof.
  induction s as [|x s IH]; simpl.
  - destruct (match_ r []) eqn:E; [|discriminate].
    intros H; injection H as <-. apply match_parts in E as [E M].
    split; [now exists []|exact M].
  - destruct (match_ r (x :: s)) eqn:E.
    + intros H; injection H as <-. apply match_parts in E as [E M].
      split; [now exists []|exact M].
    + intros H. destruct (IH H) as [[pre ->] M].
      split; [now exists (x :: pre)|exact M].
Qed.

Lemma Matches_requires P r s c :
  Matches r s c -> requires P r -> exists x, In x s /\ P x.
Proof.
  induction 1; simpl; intros R; try easy.
  - exists x. split; [now left|auto].
  - destruct R as [R|R].
    + destruct (IHMatches1 R) as (x & Hx & Px). exists x. split; [|exact Px].
      apply in_or_app. now left.
    + destruct (IHMatches2 R) as (x & Hx & Px). exists x. split; [|exact Px].
      apply in_or_app. now right.
  - apply IHMatches, R.
  - apply IHMatches, R.
  - destruct (IHMatches R) as (x & Hx & Px). exists x. split; [|exact Px]. exact Hx.
Qed.

Lemma search_requires P r s :
  requires P r -> (forall x, In x s -> ~ P x) -> search r s = None.
Proof.
  intros R N. destruct (search r s) as [m|] eqn:E; [|reflexivity].
  apply search_parts in E as [[pre ->] M].
  destruct (Matches_requires P _ _ _ M R) as (x & Hx & Px).
  exfalso. apply (N x); [|exact Px]. apply in_or_app. right. apply in_or_app. now left.
Qed.

Lemma finditer_requires P r s :
  requires P r -> (forall x, In x s -> ~ P x) -> finditer r s = [].
Proof.
  intros R N. unfold finditer. cbn [finditer_fuel].
  now rewrite (search_requires P r s R N).
Qed.

Lemma dmy_requires_digit : requires is_digit dmy.
Proof. left. left. exact (fun x H => H). Qed.

Lemma date_patterns_require_digit : Forall (requires is_digit) date_patterns.
Proof.
  unfold date_patterns.
  constructor; [exact dmy_requires_digit|].
  constructor; [left; left; exact (fun x H => H)|].
  constructor; [left; left; exact (fun x H => H)|].
  constructor.
Qed.

Lemma range_patterns_require_digit : Forall (requires is_digit) range_patterns.
Proof.
  unfold range_patterns.
  constructor; [right; right; left; exact dmy_requires_digit|].
  constructor; [right; right; left; exact dmy_requires_digit|].
  constructor; [right; right; left; exact dmy_requires_digit|].
  constructor; [right; right; right; right; left; exact dmy_requires_digit|].
  constructor.
Qed.

Lemma scan_patterns_nil ps text :
  Forall (fun p => finditer p text = []) ps ->
  forall found errors, scan_patterns ps text found errors = Ok (found, errors).
Proof.
  induction 1 as [|p ps Hp _ IH]; intros found errors; cbn [scan_patterns]; [reflexivity|].
  rewrite Hp. cbn [scan_matches]. rsimpl. apply IH.
Qed.

Lemma scan_ranges_nil ref allow ps text :
  Forall (fun p => finditer p text = []) ps ->
  forall errors, scan_ranges ref ps text allow errors = Ok errors.
Proof.
  induction 1 as [|p ps Hp _ IH]; intros errors; cbn [scan_ranges]; [reflexivity|].
  rewrite Hp. cbn [scan_range_matches]. rsimpl. apply IH.
Qed.

(** X1: a text without any decimal digit passes the scan, with no finding. *)
Theorem text_without_digit_passes
        (reference_date : datetime) (text : str) (allow_past_start : bool)
        (H : forall c, In c text -> isdigit c = false) :
  extract_and_validate_dates reference_date text allow_past_start
  = Ok (true, [], []).
Proof.
  assert (F : forall ps, Forall (requires is_digit) ps ->
                         Forall (fun p => finditer p text = []) ps).
  { intros ps. apply List.Forall_impl. intros p R.
    apply (finditer_requires is_digit); [exact R|].
    intros x Hx Dx. unfold is_digit in Dx. rewrite (H x Hx) in Dx. discriminate. }
  unfold extract_and_validate_dates.
  rewrite (scan_patterns_nil _ _ (F _ date_patterns_require_digit)). rsimpl.
  rewrite (scan_ranges_nil _ _ _ _ (F _ range_patterns_require_digit)). reflexivity.
Qed.

(** ** [is_valid_date] in closed form *)

(** X2: [is_valid_date] answers True exactly on the days of the calendar
    of the years 1 to 9999. *)
Theorem is_valid_date_iff (d m y : Z) :
  is_valid_date d m y = true
  <-> 1 <= y <= 9999 /\ 1 <= m <= 12 /\ 1 <= d <= days_in_month y m.
Proof.
  split.
  - unfold is_valid_date, Calendar.monthrange.
    destruct ((1 <=? m) && (m <=? 12)) eqn:Em; cbn [negb]; [|discriminate].
    rsimpl. fold (days_in_month y m).
    destruct ((1 <=? d) && (d <=? days_in_month y m)) eqn:Ed; cbn [negb]; [|discriminate].
    destruct (Datetime.new y m d) as [a|[]] eqn:En; rsimpl; try discriminate.
    intros _. apply new_Ok in En as [-> (Hy & Hm & Hd & _)]. exact (conj Hy (conj Hm Hd)).
  - intros (Hy & Hm & Hd).
    apply (calendar_date_valid (mkdt y m d 0 0 0 0)).
    unfold calendar_date. cbn. auto 10.
Qed.

(** ** Blanks around a date *)

Lemma lstrip_blank ws s : forallb isspace ws = true -> lstrip (ws ++ s) = lstrip s.
Proof.
  induction ws as [|c ws IH]; simpl; [reflexivity|].
  intros H. apply andb_true_iff in H as [-> H]. auto.
Qed.

Lemma forallb_rev {A} (p : A -> bool) l : forallb p (rev l) = forallb p l.
Proof.
  induction l as [|x l IH]; simpl; [reflexivity|].
  rewrite forallb_app, IH. simpl. rewrite andb_true_r. apply andb_comm.
Qed.

Lemma rstrip_blank ws s : forallb isspace ws = true -> rstrip (s ++ ws) = rstrip s.
Proof.
  intros H. unfold rstrip. rewrite rev_app_distr, lstrip_blank; [reflexivity|].
  now rewrite forallb_rev.
Qed.

Lemma lstrip_rstrip s : lstrip (rstrip s) = rstrip (lstrip s).
Proof.
  induction s as [|c s IH]; [reflexivity|].
  cbn [lstrip]. destruct (isspace c) eqn:E.
  - rewrite <- IH. unfold rstrip. cbn [rev].
    destruct (lstrip (rev s)) as [|x t] eqn:L.
    + (* the rest is blank *)
      assert (B : lstrip (rev s ++ [c]) = []).
      { destruct (lstrip_suffix (rev s)) as [pre Ep]. rewrite L, app_nil_r in Ep.
        assert (Hb : forallb isspace (rev s) = true).
        { clear -L. induction (rev s) as [|y l IH]; [reflexivity|].
          simpl in *. destruct (isspace y); [auto|discriminate]. }
        rewrite lstrip_blank by exact Hb. simpl. now rewrite E. }
      rewrite B. reflexivity.
    + assert (B : lstrip (rev s ++ [c]) = x :: t ++ [c]).
      { clear -L. induction (rev s) as [|y l IH]; [discriminate|].
        simpl in *. destruct (isspace y); [auto|]. now injection L as -> ->. }
      rewrite B. cbn [rev]. rewrite rev_app_distr. cbn [rev app lstrip]. rewrite E.
      reflexivity.
  - unfold rstrip. cbn [rev].
    assert (B : exists t, lstrip (rev s ++ [c]) = t ++ [c]).
    { clear -E. induction (rev s) as [|y l [t IH]]; simpl.
      - rewrite E. now exists [].
      - destruct (isspace y); [now exists t|]. now exists (y :: l). }
    destruct B as [t ->]. rewrite rev_app_distr. cbn [rev app lstrip]. now rewrite E.
Qed.

Lemma strip_blank ws1 s ws2 :
  forallb isspace ws1 = true -> forallb isspace ws2 = true ->
  strip (ws1 ++ s ++ ws2) = strip s.
Proof.
  intros H1 H2. unfold strip. rewrite lstrip_blank by exact H1.
  rewrite <- !lstrip_rstrip. now rewrite rstrip_blank.
Qed.

(** [parse_date] on the text without its surrounding blanks. *)
Lemma parse_date_strip s : parse_date (strip s) = parse_date s.
Proof.
  destruct s as [|c s]; [reflexivity|].
  unfold parse_date at 2.
  destruct (strip (c :: s)) as [|x t] eqn:E.
  - vm_compute. reflexivity.
  - unfold parse_date. rewrite <- E, strip_idem. reflexivity.
Qed.

(** X3: surrounding blanks do not change what [parse_date] returns. *)
Theorem parse_date_ignores_blanks (ws1 s ws2 : str)
        (H1 : forallb isspace ws1 = true) (H2 : forallb isspace ws2 = true) :
  parse_date (ws1 ++ s ++ ws2) = parse_date s.
Proof.
  rewrite <- (parse_date_strip (ws1 ++ s ++ ws2)), <- (parse_date_strip s).
  now rewrite strip_blank.
Qed.

(** ** The formats of [DATE_FORMATS] *)

Lemma strptime_bad_directive s fmt :
  pattern fmt = None -> strptime s fmt = Raise ValueError.
Proof. intros E. unfold strptime. now rewrite E. Qed.

Lemma parse_formats_app fmts1 fmts2 s :
  (forall fmt, In fmt fmts2 -> strptime s fmt = Raise ValueError) ->
  parse_formats (fmts1 ++ fmts2) s = parse_formats fmts1 s.
Proof.
  intros H. induction fmts1 as [|fmt fmts1 IH]; cbn [app].
  - induction fmts2 as [|fmt fmts2 IH]; [reflexivity|].
    cbn [parse_formats]. rewrite (H fmt (or_introl eq_refl)). rsimpl.
    apply IH. intros f Hf. apply H. now right.
  - cbn [parse_formats]. now rewrite IH.
Qed.

(** X4: the two "single digit" formats never parse anything: [strptime]
    refuses them as bad directives, so the loop over the formats gives the
    same result without them. *)
Theorem single_digit_formats_are_dead (s : str) :
  strptime s (u "%-d/%-m/%Y") = Raise ValueError
  /\ strptime s (u "%#d/%#m/%Y") = Raise ValueError
  /\ parse_formats DATE_FORMATS s
     = parse_formats
         [u "%d/%m/%Y"; u "%d-%m-%Y"; u "%Y/%m/%d"; u "%Y-%m-%d"; u "%d.%m.%Y"] s.
Proof.
  assert (B1 : strptime s (u "%-d/%-m/%Y") = Raise ValueError)
    by (apply strptime_bad_directive; vm_compute; reflexivity).
  assert (B2 : strptime s (u "%#d/%#m/%Y") = Raise ValueError)
    by (apply strptime_bad_directive; vm_compute; reflexivity).
  split; [exact B1|]. split; [exact B2|].
  change DATE_FORMATS
    with ([u "%d/%m/%Y"; u "%d-%m-%Y"; u "%Y/%m/%d"; u "%Y-%m-%d"; u "%d.%m.%Y"]
            ++ [u "%-d/%-m/%Y"; u "%#d/%#m/%Y"]).
  apply parse_formats_app.
  intros fmt [<-|[<-|[]]]; assumption.
Qed.

(** ** [get_validation_suggestions] *)

Lemma monthrange_calendar a :
  calendar_date a ->
  Calendar.monthrange (year a) (month a) = Ok (days_in_month (year a) (month a)).
Proof.
  intros (_ & Hm & _). unfold Calendar.monthrange.
  replace ((1 <=? month a) && (month a <=? 12)) with true; [reflexivity|].
  symmetry. apply andb_true_iff. rewrite !Z.leb_le. lia.
Qed.

Lemma no_feb29_off_leap a :
  calendar_date a ->
  (month a =? 2) && (day a =? 29) && negb (is_leap_year (year a)) = false.
Proof.
  intros (_ & _ & Hd & _). unfold is_leap_year.
  destruct (Z.eqb_spec (month a) 2) as [E|]; [|reflexivity].
  destruct (Z.eqb_spec (day a) 29) as [E'|]; [|reflexivity].
  unfold days_in_month in Hd. rewrite E in Hd. cbn [Z.eqb Pos.eqb andb Calendar.mdays] in Hd.
  destruct (Calendar.isleap (year a)); [reflexivity|]. lia.
Qed.
(** X5: the suggestions for a text are the format hint when the text does
    not parse, and otherwise at most the remark that the date lies more than
    a year before the reference date; the leap-year and maximum-day
    suggestions are never made. *)
Theorem get_validation_suggestions_cases
        (reference_date : datetime) (date_str : str)
        (Href : 365 < toordinal reference_date <= 3652059)
        (Hparse : returns (parse_date date_str)) :
  (parse_date date_str = Ok None
   /\ get_validation_suggestions reference_date date_str = Ok [format_hint])
  \/ exists a,
       parse_date date_str = Ok (Some a)
       /\ get_validation_suggestions reference_date date_str
          = Ok (if micros a <? micros reference_date - 365 * day_us
                then [past_hint a] else []).
Proof.
  destruct Hparse as [[a|] E]; [right|left].
  - exists a. split; [exact E|].
    pose proof (parse_date_calendar _ _ E) as C.
    unfold get_validation_suggestions. rewrite E. rsimpl.
    rewrite (no_feb29_off_leap _ C), (monthrange_calendar _ C). rsimpl.
    destruct C as (_ & _ & Hd & _).
    destruct (Z.ltb_spec (days_in_month (year a) (month a)) (day a)); [lia|].
    unfold lt_minus_days.
    destruct (Z.ltb_spec (toordinal reference_date - 365) 1); [lia|].
    destruct (Z.ltb_spec 3652059 (toordinal reference_date - 365)); [lia|].
    cbn [orb app]. rsimpl. unfold past_hint. reflexivity.
  - split; [exact E|]. unfold get_validation_suggestions, format_hint. rewrite E.
    rsimpl. reflexivity.
Qed.

(** ** Accepted ranges *)

Lemma sub_days_ordinal a b :
  calendar_date a -> calendar_date b -> sub_days b a = toordinal b - toordinal a.
Proof.
  intros Ca Cb. unfold sub_days. rewrite !micros_midnight by assumption.
  replace ((toordinal b - 1) * day_us - (toordinal a - 1) * day_us)
    with ((toordinal b - toordinal a) * day_us) by lia.
  apply Z.div_mul. unfold day_us. lia.
Qed.

Lemma in_year_range_iff y : in_year_range y = true <-> 1900 <= y <= 2100.
Proof. unfold in_year_range. rewrite andb_true_iff, !Z.leb_le. tauto. Qed.

(** What [validate_date] accepts. *)
Lemma validate_date_accepts s msg p :
  validate_date s = Ok (true, msg, p) ->
  msg = [] /\ exists a, p = Some a /\ parse_date s = Ok (Some a)
                        /\ calendar_date a /\ 1900 <= year a <= 2100.
Proof.
  intros H. apply validate_date_cases in H as [[_ H]|[(a & _ & _ & _ & H)|(a & E & C & Y & H)]];
    try discriminate.
  injection H as -> ->. split; [reflexivity|]. exists a.
  apply in_year_range_iff in Y. auto.
Qed.

(** X6: a range that [validate_date_range] accepts is made of two calendar
    dates of the years 1900 to 2100; the start is not before the reference
    date unless past starts are allowed; the end is later than the start,
    and the number of days between them lies within the two bounds. *)
Theorem validate_date_range_accepts
        (reference_date : datetime) (start_date_str end_date_str : str)
        (allow_past_start : bool) (min_duration_days max_duration_days : Z)
        (msg : str)
        (H : validate_date_range reference_date start_date_str end_date_str
               allow_past_start min_duration_days max_duration_days
             = Ok (true, msg)) :
  msg = []
  /\ exists ds de,
       parse_date start_date_str = Ok (Some ds)
       /\ parse_date end_date_str = Ok (Some de)
       /\ calendar_date ds /\ calendar_date de
       /\ 1900 <= year ds <= 2100 /\ 1900 <= year de <= 2100
       /\ (allow_past_start = false -> Datetime.lt ds reference_date = false)
       /\ toordinal ds < toordinal de
       /\ min_duration_days <= toordinal de - toordinal ds <= max_duration_days.
Proof.
  revert H. unfold validate_date_range.
  destruct (validate_date start_date_str) as [[[v1 m1] p1]|] eqn:Es; rsimpl;
    [|discriminate].
  destruct v1; [|destruct p1; discriminate].
  apply validate_date_accepts in Es as (_ & ds & -> & Ps & Cs & Ys).
  destruct (validate_date end_date_str) as [[[v2 m2] p2]|] eqn:Ee; rsimpl;
    [|discriminate].
  destruct v2; [|destruct p2; discriminate].
  apply validate_date_accepts in Ee as (_ & de & -> & Pe & Ce & Ye).
  destruct (negb allow_past_start && Datetime.lt ds reference_date) eqn:Past;
    [discriminate|].
  unfold Datetime.le.
  destruct (Datetime.lt ds de) eqn:L; cbn [negb]; [|discriminate].
  rewrite (sub_days_ordinal _ _ Cs Ce).
  destruct (Z.ltb_spec (toordinal de - toordinal ds) min_duration_days); [discriminate|].
  destruct (Z.ltb_spec max_duration_days (toordinal de - toordinal ds)); [discriminate|].
  intros E; injection E as <-. split; [reflexivity|].
  exists ds, de. repeat (split; [assumption|]).
  split; [|split; [now apply lt_calendar|lia]].
  intros ->. exact Past.
Qed.

(** ** The duration checks *)

Lemma startswith_mismatch (a b p : str) :
  mismatch a p = true -> startswith (a ++ b) p = false.
Proof.
  revert p; induction a as [|x a IH]; intros [|y p]; cbn [mismatch]; try discriminate.
  cbn [app startswith]. rewrite (N.eqb_sym y x).
  destruct (x =? y)%N; cbn [negb orb andb]; auto.
Qed.

Lemma Ok_pair {A B} (a a' : A) (b b' : B) :
  @Ok (A * B) (a, b) = Ok (a', b') -> a = a' /\ b = b'.
Proof. intros H; injection H; auto. Qed.

Ltac not_too_short :=
  unfold too_short; apply startswith_mismatch; vm_compute; reflexivity.

(** X7: with a minimum duration of at most one day, [validate_date_range]
    never answers "Lease duration too short": two calendar dates in order
    are at least one day apart. *)
Theorem validate_date_range_never_too_short
        (reference_date : datetime) (start_date_str end_date_str : str)
        (allow_past_start : bool) (min_duration_days max_duration_days : Z)
        (v : bool) (msg : str)
        (Hmin : min_duration_days <= 1)
        (H : validate_date_range reference_date start_date_str end_date_str
               allow_past_start min_duration_days max_duration_days
             = Ok (v, msg)) :
  too_short msg = false.
Proof.
  revert H. unfold validate_date_range.
  destruct (validate_date start_date_str) as [[[v1 m1] p1]|] eqn:Es; rsimpl;
    [|discriminate].
  assert (S1 : too_short (u "Start date error: " ++ m1) = false) by not_too_short.
  destruct v1; [|destruct p1; intros E; apply Ok_pair in E as [_ <-]; exact S1].
  destruct p1 as [ds|]; [|intros E; apply Ok_pair in E as [_ <-]; exact S1].
  apply validate_date_accepts in Es as (_ & ds' & Eds & Ps & Cs & Ys).
  injection Eds as <-.
  destruct (validate_date end_date_str) as [[[v2 m2] p2]|] eqn:Ee; rsimpl;
    [|discriminate].
  assert (S2 : too_short (u "End date error: " ++ m2) = false) by not_too_short.
  destruct v2; [|destruct p2; intros E; apply Ok_pair in E as [_ <-]; exact S2].
  destruct p2 as [de|]; [|intros E; apply Ok_pair in E as [_ <-]; exact S2].
  apply validate_date_accepts in Ee as (_ & de' & Ede & Pe & Ce & Ye).
  injection Ede as <-.
  destruct (negb allow_past_start && Datetime.lt ds reference_date).
  { intros E; apply Ok_pair in E as [_ <-]. not_too_short. }
  unfold Datetime.le.
  destruct (Datetime.lt ds de) eqn:L; cbn [negb].
  2:{ intros E; apply Ok_pair in E as [_ <-]. not_too_short. }
  pose proof (sub_days_pos _ _ Cs Ce L) as D.
  destruct (Z.ltb_spec (sub_days de ds) min_duration_days); [lia|].
  destruct (max_duration_days <? sub_days de ds); intros E; apply Ok_pair in E as [_ <-].
  - not_too_short.
  - reflexivity.
Qed.

(** ** The scan with and without past starts *)

(** Past starts allowed, the reference date plays no part. *)
Lemma validate_date_range_lenient_ref ref1 ref2 s e mn mx :
  validate_date_range ref1 s e true mn mx = validate_date_range ref2 s e true mn mx.
Proof.
  unfold validate_date_range.
  destruct (validate_date s) as [[[v1 m1] p1]|]; rsimpl; [|reflexivity].
  destruct v1, p1; reflexivity.
Qed.

(** A range accepted with past starts refused is accepted with past starts
    allowed. *)
Lemma validate_date_range_lenient ref s e mn mx msg :
  validate_date_range ref s e false mn mx = Ok (true, msg) ->
  validate_date_range ref s e true mn mx = Ok (true, msg).
Proof.
  unfold validate_date_range.
  destruct (validate_date s) as [[[v1 m1] p1]|]; rsimpl; [|discriminate].
  destruct v1; [destruct p1 as [ds|]|destruct p1].
  2-4: intros E; apply (Ok_pair false true) in E as [E _]; discriminate.
  destruct (validate_date e) as [[[v2 m2] p2]|]; rsimpl; [|discriminate].
  destruct v2; [destruct p2 as [de|]|destruct p2].
  2-4: intros E; apply (Ok_pair false true) in E as [E _]; discriminate.
  cbn [negb andb].
  destruct (Datetime.lt ds ref); [|exact (fun E => E)].
  intros E; apply (Ok_pair false true) in E as [E _]; discriminate.
Qed.

Lemma scan_range_matches_grows ref allow ms :
  forall errors r,
    scan_range_matches ref ms allow errors = Ok r ->
    (length errors <= length r)%nat.
Proof.
  induction ms as [|m ms IH]; intros errors r; cbn [scan_range_matches].
  - intros E; injection E as <-. lia.
  - destruct (group (m_caps m) 1) as [s|]; [|apply IH].
    destruct (group (m_caps m) 2) as [e|]; [|apply IH].
    destruct (validate_date_range ref s e allow 1 36500) as [[v msg]|]; rsimpl;
      [|discriminate].
    intros E. apply IH in E. destruct v; [exact E|].
    rewrite length_app in E. simpl in E. lia.
Qed.

Lemma scan_ranges_grows ref allow ps text :
  forall errors r,
    scan_ranges ref ps text allow errors = Ok r -> (length errors <= length r)%nat.
Proof.
  induction ps as [|p ps IH]; intros errors r; cbn [scan_ranges].
  - intros E; injection E as <-. lia.
  - destruct (scan_range_matches ref (finditer p text) allow errors) as [r1|] eqn:E1;
      rsimpl; [|discriminate].
    intros E. apply IH in E. apply scan_range_matches_grows in E1. lia.
Qed.

Lemma scan_range_matches_lenient ref ms :
  scan_range_matches ref ms false [] = Ok [] ->
  scan_range_matches ref ms true [] = Ok [].
Proof.
  induction ms as [|m ms IH]; cbn [scan_range_matches]; [exact (fun E => E)|].
  destruct (group (m_caps m) 1) as [s|]; [|exact IH].
  destruct (group (m_caps m) 2) as [e|]; [|exact IH].
  destruct (validate_date_range ref s e false 1 36500) as [[v msg]|] eqn:E; rsimpl;
    [|discriminate].
  destruct v.
  - rewrite (validate_date_range_lenient _ _ _ _ _ _ E). rsimpl. exact IH.
  - intros H. apply scan_range_matches_grows in H. simpl in H. lia.
Qed.

Lemma scan_ranges_lenient ref ps text :
  scan_ranges ref ps text false [] = Ok [] ->
  scan_ranges ref ps text true [] = Ok [].
Proof.
  induction ps as [|p ps IH]; cbn [scan_ranges]; [exact (fun E => E)|].
  destruct (scan_range_matches ref (finditer p text) false []) as [r1|] eqn:E1;
    rsimpl; [|discriminate].
  intros E. destruct r1 as [|x r1].
  - rewrite (scan_range_matches_lenient _ _ E1). rsimpl. exact (IH E).
  - apply scan_ranges_grows in E. simpl in E. lia.
Qed.

Lemma scan_range_matches_ref ref1 ref2 ms :
  forall errors,
    scan_range_matches ref1 ms true errors = scan_range_matches ref2 ms true errors.
Proof.
  induction ms as [|m ms IH]; intros errors; cbn [scan_range_matches]; [reflexivity|].
  destruct (group (m_caps m) 1) as [s|]; [|apply IH].
  destruct (group (m_caps m) 2) as [e|]; [|apply IH].
  rewrite (validate_date_range_lenient_ref ref1 ref2).
  destruct (validate_date_range ref2 s e true 1 36500) as [[v msg]|]; rsimpl;
    [apply IH|reflexivity].
Qed.

Lemma scan_ranges_ref ref1 ref2 ps text :
  forall errors,
    scan_ranges ref1 ps text true errors = scan_ranges ref2 ps text true errors.
Proof.
  induction ps as [|p ps IH]; intros errors; cbn [scan_ranges]; [reflexivity|].
  rewrite (scan_range_matches_ref ref1 ref2).
  destruct (scan_range_matches ref2 (finditer p text) true errors); rsimpl;
    [apply IH|reflexivity].
Qed.

(** X8: a text that passes the scan of the generate and edit operations
    (past starts refused) passes the scan of the review operation (past
    starts allowed), with the same findings. *)
Theorem strict_scan_implies_lenient_scan
        (reference_date : datetime) (text : str) (msg : str) (fs : list finding)
        (H : extract_and_validate_dates reference_date text false
             = Ok (true, msg, fs)) :
  extract_and_validate_dates reference_date text true = Ok (true, msg, fs).
Proof.
  revert H. unfold extract_and_validate_dates.
  destruct (scan_patterns date_patterns text [] []) as [[found errors]|]; rsimpl;
    [|discriminate].
  destruct errors; [|discriminate].
  destruct (scan_ranges reference_date range_patterns text false []) as [r|] eqn:E;
    rsimpl; [|discriminate].
  destruct r; [|discriminate].
  rewrite (scan_ranges_lenient _ _ _ E). rsimpl. exact (fun H => H).
Qed.

(** X9: with past starts allowed, as in the review operation, the result of
    the scan does not depend on the reference date of the validator. *)
Theorem lenient_scan_ignores_reference_date
        (reference_date1 reference_date2 : datetime) (text : str) :
  extract_and_validate_dates reference_date1 text true
  = extract_and_validate_dates reference_date2 text true.
Proof.
  unfold extract_and_validate_dates.
  destruct (scan_patterns date_patterns text [] []) as [[found errors]|]; rsimpl;
    [|reflexivity].
  destruct errors; [|reflexivity].
  now rewrite (scan_ranges_ref reference_date1 reference_date2).
Qed.

(** ** The flag of the scan *)

Lemma app_nonempty {A} (a b : list A) : a <> [] -> a ++ b <> [].
Proof. destruct a; [congruence|discriminate]. Qed.

Ltac literal_nonempty := apply app_nonempty; vm_compute; discriminate.

Lemma join_nonempty sep p ps : p <> [] -> join sep (p :: ps) <> [].
Proof.
  intros H. destruct ps as [|q ps]; cbn [join]; [exact H|].
  now apply app_nonempty.
Qed.

(** A refusal of [validate_date_range] comes with a message. *)
Lemma validate_date_range_refusal ref s e allow mn mx msg :
  validate_date_range ref s e allow mn mx = Ok (false, msg) -> msg <> [].
Proof.
  unfold validate_date_range.
  destruct (validate_date s) as [[[v1 m1] p1]|]; rsimpl; [|discriminate].
  assert (S1 : u "Start date error: " ++ m1 <> []) by literal_nonempty.
  destruct v1; [destruct p1 as [ds|]|destruct p1].
  2-4: intros E; apply Ok_pair in E as [_ <-]; exact S1.
  destruct (validate_date e) as [[[v2 m2] p2]|]; rsimpl; [|discriminate].
  assert (S2 : u "End date error: " ++ m2 <> []) by literal_nonempty.
  destruct v2; [destruct p2 as [de|]|destruct p2].
  2-4: intros E; apply Ok_pair in E as [_ <-]; exact S2.
  destruct (negb allow && Datetime.lt ds ref).
  { intros E; apply Ok_pair in E as [_ <-]. literal_nonempty. }
  destruct (Datetime.le de ds).
  { intros E; apply Ok_pair in E as [_ <-]. literal_nonempty. }
  destruct (sub_days de ds <? mn).
  { intros E; apply Ok_pair in E as [_ <-]. literal_nonempty. }
  destruct (mx <? sub_days de ds).
  { intros E; apply Ok_pair in E as [_ <-]. literal_nonempty. }
  intros E; apply (Ok_pair true false) in E as [E _]. discriminate.
Qed.

Lemma date_errors_nonempty fs e : In e (date_errors fs) -> e <> [].
Proof.
  unfold date_errors. rewrite in_flat_map. intros (f & _ & H).
  destruct (f_valid f); [destruct H|].
  destruct H as [<-|[]]. unfold entry. literal_nonempty.
Qed.

Lemma range_errors_nonempty ref allow ms os :
  Forall2 (range_checked ref allow) ms os ->
  forall e, In e (range_errors os) -> e <> [].
Proof.
  induction 1 as [|m o ms os (s & e & v & msg & _ & _ & E & ->) _ IH]; intros x; [easy|].
  change (range_errors ((if v then None else Some msg) :: os))
    with (match (if v then None else Some msg) with
          | Some e => [e] | None => [] end ++ range_errors os).
  intros H. apply in_app_or in H as [H|H]; [|now apply IH].
  destruct v; [destruct H|]. destruct H as [<-|[]].
  eapply validate_date_range_refusal; eauto.
Qed.

Lemma checked_valid m f :
  checked m f -> f_valid f = true ->
  f_error f = [] /\ exists a, f_parsed f = Some a.
Proof.
  intros [_ E] V. rewrite V in E. apply validate_date_accepts in E as (-> & a & -> & _).
  eauto.
Qed.

(** X10: the scan always returns. Its flag is true exactly when its message
    is empty, and then every finding is a valid date with its parsed value
    and no error text. *)
Theorem extract_and_validate_dates_flag
        (reference_date : datetime) (text : str) (allow_past_start : bool) :
  exists all_valid msg found_dates,
    extract_and_validate_dates reference_date text allow_past_start
    = Ok (all_valid, msg, found_dates)
    /\ (all_valid = true <-> msg = [])
    /\ (all_valid = true ->
        forall f, In f found_dates ->
          f_valid f = true /\ f_error f = [] /\ exists a, f_parsed f = Some a).
Proof.
  destruct (scan_patterns_spec date_patterns text
              (fun p m Hp Hm => date_matches_parsable text m
                 (proj2 (in_flat_map _ _ _) (ex_intro _ p (conj Hp Hm)))) [] [])
    as (fs & F & E).
  unfold extract_and_validate_dates. rewrite E. rsimpl. cbn [app].
  destruct (date_errors fs) as [|e1 es] eqn:D.
  - destruct (scan_ranges_spec reference_date allow_past_start range_patterns text
                (fun p m Hp Hm => range_matches_groups text m
                   (proj2 (in_flat_map _ _ _) (ex_intro _ p (conj Hp Hm)))) [])
      as (os & R & ->).
    rsimpl. cbn [app].
    assert (V : forall f, In f fs ->
                  f_valid f = true /\ f_error f = [] /\ exists a, f_parsed f = Some a).
    { intros f Hf. pose proof (proj1 (date_errors_nil fs) D f Hf) as Hv.
      split; [exact Hv|].
      clear E D. induction F as [|m g ms gs C _ IH]; [destruct Hf|].
      destruct Hf as [<-|Hf]; [exact (checked_valid _ _ C Hv)|auto]. }
    destruct (range_errors os) as [|r1 rs] eqn:Er.
    + exists true, [], fs. split; [reflexivity|]. split; [tauto|]. intros _. exact V.
    + exists false, (join (u "; ") (r1 :: rs)), fs. split; [reflexivity|].
      split; [|discriminate]. split; [discriminate|]. intros J. exfalso.
      revert J. apply join_nonempty.
      apply (range_errors_nonempty _ _ _ _ R). rewrite Er. now left.
  - exists false, (join (u "; ") (e1 :: es)), fs. split; [reflexivity|].
    split; [|discriminate]. split; [discriminate|]. intros J. exfalso.
    revert J. apply join_nonempty.
    apply (date_errors_nonempty fs). rewrite D. now left.
Qed.

(** ** The quick check *)

(** X11: the quick check [is_valid_date(date_str)] answers True exactly on
    the texts that [parse_date] reads as a date of the years 1900 to 2100;
    it returns whenever [parse_date] does. *)
Theorem quick_is_valid_date (date_str : str)
        (Hparse : returns (parse_date date_str)) :
  exists b,
    Convenience.is_valid_date date_str = Ok b
    /\ (b = true
        <-> exists a, parse_date date_str = Ok (Some a) /\ 1900 <= year a <= 2100).
Proof.
  destruct Hparse as [o E]. unfold Convenience.is_valid_date, validate_date.
  rewrite E. rsimpl. destruct o as [a|].
  - rewrite (calendar_date_valid _ (parse_date_calendar _ _ E)). cbn [negb].
    destruct (in_year_range (year a)) eqn:Y; cbn [negb]; rsimpl.
    + exists true. split; [reflexivity|]. split; [|reflexivity].
      intros _. exists a. split; [reflexivity|]. now apply in_year_range_iff.
    + exists false. split; [reflexivity|]. split; [discriminate|].
      intros (b & Eb & Yb). injection Eb as <-.
      apply in_year_range_iff in Yb. congruence.
  - exists false. split; [reflexivity|]. split; [discriminate|].
    intros (b & Eb & _). discriminate.
Qed.

(** ** The Arabic month table *)

Lemma Matches_within P r s c : Matches r s c -> within P r -> Forall P s.
Proof.
  induction 1; simpl; intros W; try (now constructor).
  - constructor; [auto|constructor].
  - apply Forall_app. tauto.
  - tauto.
  - tauto.
  - apply Forall_app. auto.
  - auto.
Qed.

Lemma Matches_group_within P i r s c :
  Matches r s c -> group_within P i r -> forall t, In (i, t) c -> Forall P t.
Proof.
  induction 1; simpl; intros G t Hin; try easy.
  - apply in_app_or in Hin as [Hin|Hin]; [apply IHMatches2|apply IHMatches1]; tauto.
  - apply IHMatches; tauto.
  - apply IHMatches; tauto.
  - apply in_app_or in Hin as [Hin|Hin]; [apply IHMatches2|apply IHMatches1]; tauto.
  - destruct G as [G W]. destruct Hin as [E|Hin]; [|now apply IHMatches].
    injection E as -> ->. eapply Matches_within; eauto.
Qed.

Lemma arabic_pattern_month_letters : group_within arabic_range 2 arabic_pattern.
Proof.
  unfold arabic_pattern, arabic_letter, arabic_range.
  cbn [cat_all group_within within plus rep12 rep4 d sp].
  assert (R : forall x, range 0x623 0x64a x = true -> (0x623 <= x <= 0x64a)%N).
  { intros x H. unfold range in H. apply andb_true_iff in H as [H1 H2].
    apply N.leb_le in H1, H2. lia. }
  conjs; trivial; intros E; try discriminate; conjs; exact R.
Qed.

(** X12: the month name that the Arabic branch of [parse_date] looks up is
    made of letters of the class [أ-ي] only. Six keys of [ARABIC_MONTHS]
    hold another character (a blank, the letter آ, a Hebrew letter): they are
    in the table, and no text ever reaches them. *)
Theorem arabic_month_lookup_misses_keys
        (date_str : str) (m : match_obj) (month_name : str)
        (Hm : search arabic_pattern date_str = Some m)
        (Hg : group (m_caps m) 2 = Some month_name) :
  Forall arabic_range month_name
  /\ ~ In month_name unreachable_months
  /\ Forall (fun k => exists n, months_get ARABIC_MONTHS k = Some n)
            unreachable_months.
Proof.
  apply search_sound in Hm. apply group_In in Hg.
  pose proof (Matches_group_within _ _ _ _ _ Hm arabic_pattern_month_letters _ Hg) as F.
  split; [exact F|]. split.
  - intros Hin.
    assert (B : forall k, In k unreachable_months ->
                  existsb (fun c => negb ((0x623 <=? c) && (c <=? 0x64a))%N) k = true).
    { apply (proj1 (forallb_forall _ _)). vm_compute. reflexivity. }
    specialize (B _ Hin). apply existsb_exists in B as (c & Hc & Nc).
    rewrite List.Forall_forall in F. specialize (F c Hc). unfold arabic_range in F.
    apply negb_true_iff, andb_false_iff in Nc as [Nc|Nc];
      [apply N.leb_gt in Nc|apply N.leb_gt in Nc]; lia.
  - unfold unreachable_months.
    repeat (constructor; [eexists; vm_compute; reflexivity|]). constructor.
Qed.

(** ** Printing a date and reading it back *)

Lemma accepts_Eps : accepts Eps [] [].
Proof. intros A rest c k v H. exact H. Qed.

Lemma accepts_Chr p x : p x = true -> accepts (Chr p) [x] [].
Proof. intros Hp A rest c k v H. cbn [rmatch app]. rewrite Hp. exact H. Qed.

Lemma accepts_Cat r1 r2 s1 s2 c1 c2 :
  accepts r1 s1 c1 -> accepts r2 s2 c2 -> accepts (Cat r1 r2) (s1 ++ s2) (c2 ++ c1).
Proof.
  intros H1 H2 A rest c k v H. cbn [rmatch]. rewrite <- app_assoc.
  apply H1. apply H2. now rewrite app_assoc.
Qed.

Lemma accepts_Grp i r s cs : accepts r s cs -> accepts (Grp i r) s ((i, s) :: cs).
Proof.
  intros H1 A rest c k v H. cbn [rmatch]. apply H1.
  rewrite firstn_app_length. exact H.
Qed.

Lemma accepts_Alt_take r1 r2 s cs : accepts r1 s cs -> accepts (Alt r1 r2) s cs.
Proof. intros H1 A rest c k v H. cbn [rmatch]. now rewrite (H1 _ _ _ _ _ H). Qed.

Lemma accepts_Alt_skip p r r2 x s cs :
  p x = false -> accepts r2 (x :: s) cs ->
  accepts (Alt (Cat (Chr p) r) r2) (x :: s) cs.
Proof.
  intros Hp H2 A rest c k v H. cbn [rmatch app]. rewrite Hp. now apply H2.
Qed.

Lemma accepts_Chr2 p q x1 x2 :
  p x1 = true -> q x2 = true -> accepts (Cat (Chr p) (Chr q)) [x1; x2] [].
Proof.
  intros Hp Hq. apply (accepts_Cat _ _ [x1] [x2] [] []); now apply accepts_Chr.
Qed.

(** What [match_] returns on a text that the matcher takes as a whole. *)
Lemma accepts_match r s cs :
  accepts r s cs -> match_ r s = Some (MatchObj s cs []).
Proof.
  intros H. unfold match_. rewrite <- (app_nil_r s) at 1.
  apply H. cbn [length]. rewrite Nat.sub_0_r, firstn_all, !app_nil_r. reflexivity.
Qed.

Ltac closed := vm_compute; reflexivity.

Ltac take_two :=
  repeat first
    [ apply accepts_Alt_take; apply accepts_Chr2; closed
    | apply accepts_Alt_skip; [closed|] ];
  try (apply accepts_Chr2; closed).

Lemma two_digits n :
  0 <= n <= 99 -> of_int_02d n = [dg (n / 10); dg (n mod 10)].
Proof.
  intros H.
  assert (F : forallb (fun k => Str.eqb (of_int_02d (Z.of_nat k))
                                   [dg (Z.of_nat k / 10); dg (Z.of_nat k mod 10)])
                      (seq 0 100) = true) by closed.
  rewrite forallb_forall in F. specialize (F (Z.to_nat n)).
  rewrite Z2Nat.id in F by lia. apply eqb_eq, F. apply in_seq. lia.
Qed.

Lemma int_two_digits n : 0 <= n <= 99 -> int (of_int_02d n) = Some n.
Proof.
  intros H.
  assert (F : forallb (fun k => match int (of_int_02d (Z.of_nat k)) with
                                | Some v => v =? Z.of_nat k
                                | None => false
                                end) (seq 0 100) = true) by closed.
  rewrite forallb_forall in F. specialize (F (Z.to_nat n)).
  rewrite Z2Nat.id in F by lia.
  destruct (int (of_int_02d n)) as [v|].
  - f_equal. apply Z.eqb_eq, F, in_seq. lia.
  - discriminate F. apply in_seq. lia.
Qed.

Ltac normal_list l :=
  let r := eval vm_compute in l in change l with r.

Lemma dir_d :
  dir 0x64
  = Grp gd
      (Alt (Cat (lit 0x33) (Chr (range 0x30 0x31)))
      (Alt (Cat (Chr (range 0x31 0x32)) d)
      (Alt (Cat (lit 0x30) (Chr (range 0x31 0x39)))
      (Alt (Chr (range 0x31 0x39))
           (Cat (lit 0x20) (Chr (range 0x31 0x39))))))).
Proof. reflexivity. Qed.

Lemma dir_m :
  dir 0x6d
  = Grp gm
      (Alt (Cat (lit 0x31) (Chr (range 0x30 0x32)))
      (Alt (Cat (lit 0x30) (Chr (range 0x31 0x39)))
           (Chr (range 0x31 0x39)))).
Proof. reflexivity. Qed.

Lemma dir_Y : dir 0x59 = Grp gY (rep4 d).
Proof. reflexivity. Qed.

Lemma days_accepted :
  Forall (fun s => accepts (dir 0x64) s [(gd, s)])
         (map (fun k => of_int_02d (Z.of_nat k)) (seq 1 31)).
Proof.
  rewrite dir_d. unfold lit, d.
  normal_list (map (fun k => of_int_02d (Z.of_nat k)) (seq 1 31)).
  repeat (apply List.Forall_cons; [apply accepts_Grp; take_two|]).
  apply List.Forall_nil.
Qed.

Lemma months_accepted :
  Forall (fun s => accepts (dir 0x6d) s [(gm, s)])
         (map (fun k => of_int_02d (Z.of_nat k)) (seq 1 12)).
Proof.
  rewrite dir_m. unfold lit.
  normal_list (map (fun k => of_int_02d (Z.of_nat k)) (seq 1 12)).
  repeat (apply List.Forall_cons; [apply accepts_Grp; take_two|]).
  apply List.Forall_nil.
Qed.

Lemma day_accepts n :
  1 <= n <= 31 -> accepts (dir 0x64) (of_int_02d n) [(gd, of_int_02d n)].
Proof.
  intros H. pose proof days_accepted as F. rewrite List.Forall_forall in F.
  apply F. rewrite <- (Z2Nat.id n) at 1 by lia.
  apply (in_map (fun k => of_int_02d (Z.of_nat k))). apply in_seq. lia.
Qed.

Lemma month_accepts n :
  1 <= n <= 12 -> accepts (dir 0x6d) (of_int_02d n) [(gm, of_int_02d n)].
Proof.
  intros H. pose proof months_accepted as F. rewrite List.Forall_forall in F.
  apply F. rewrite <- (Z2Nat.id n) at 1 by lia.
  apply (in_map (fun k => of_int_02d (Z.of_nat k))). apply in_seq. lia.
Qed.

Lemma digit_cases k : 0 <= k <= 9 ->
  k = 0 \/ k = 1 \/ k = 2 \/ k = 3 \/ k = 4 \/ k = 5 \/ k = 6 \/ k = 7 \/ k = 8 \/ k = 9.
Proof. lia. Qed.

Lemma decimal_dg k : 0 <= k <= 9 -> decimal (dg k) = Some k.
Proof.
  intros H. apply digit_cases in H.
  repeat (destruct H as [H|H]); subst k; closed.
Qed.

Lemma isdigit_dg k : 0 <= k <= 9 -> isdigit (dg k) = true.
Proof. intros H. unfold isdigit. now rewrite decimal_dg. Qed.

Lemma dg_plain k :
  0 <= k <= 9 ->
  isspace (dg k) = false /\ int_space (dg k) = false
  /\ (dg k =? 0x2b)%N = false /\ (dg k =? 0x2d)%N = false.
Proof.
  intros H. apply digit_cases in H.
  repeat (destruct H as [H|H]); subst k; conjs; closed.
Qed.

Lemma four_digits y :
  1000 <= y <= 9999 ->
  of_int y = [dg (y / 1000); dg (y / 100 mod 10); dg (y / 10 mod 10); dg (y mod 10)].
Proof.
  intros H. unfold of_int.
  destruct (Z.ltb_spec y 0); [lia|].
  assert (L : 9 <= Z.log2 (Z.abs y)).
  { rewrite Z.abs_eq by lia. change 9 with (Z.log2 512). apply Z.log2_le_mono. lia. }
  destruct (Z.to_nat (Z.log2 (Z.abs y))) as [|[|[|f]]] eqn:E; try lia.
  cbn [digits_of].
  destruct (Z.ltb_spec y 10); [lia|].
  destruct (Z.ltb_spec (y / 10) 10); [Z.div_mod_to_equations; lia|].
  destruct (Z.ltb_spec (y / 10 / 10) 10); [Z.div_mod_to_equations; lia|].
  destruct (Z.ltb_spec (y / 10 / 10 / 10) 10); [|Z.div_mod_to_equations; lia].
  rewrite !Z.div_div in * by lia. change (10 * (10 * 10)) with 1000 in *.
  change (10 * 10) with 100 in *.
  rewrite (Z.mod_small (y / 1000) 10) by (Z.div_mod_to_equations; lia). reflexivity.
Qed.

Lemma int_digit_head k r :
  0 <= k <= 9 ->
  int (dg k :: r)
  = match int_body r k 1 with
    | None => None
    | Some (v, n, rest) =>
      if forallb int_space rest && (n <=? max_str_digits)%nat
      then Some (1 * v) else None
    end.
Proof.
  intros H. apply digit_cases in H.
  repeat (destruct H as [H|H]); subst k; reflexivity.
Qed.

Lemma int_four_digits a b c e :
  0 <= a <= 9 -> 0 <= b <= 9 -> 0 <= c <= 9 -> 0 <= e <= 9 ->
  int [dg a; dg b; dg c; dg e] = Some (1000 * a + 100 * b + 10 * c + e).
Proof.
  intros Ha Hb Hc He. rewrite (int_digit_head a _ Ha).
  cbn [int_body]. rewrite (decimal_dg b Hb), (decimal_dg c Hc), (decimal_dg e He).
  cbn [forallb andb]. change (4 <=? max_str_digits)%nat with true. cbn iota.
  f_equal. lia.
Qed.

Lemma lstrip_plain s :
  (forall c, In c s -> isspace c = false) -> lstrip s = s.
Proof.
  destruct s as [|c s]; [reflexivity|]. intros H. cbn [lstrip].
  now rewrite (H c (or_introl eq_refl)).
Qed.

Lemma strip_plain s :
  (forall c, In c s -> isspace c = false) -> strip s = s.
Proof.
  intros H. unfold strip, rstrip. rewrite (lstrip_plain s H).
  rewrite lstrip_plain; [apply rev_involutive|].
  intros c Hc. apply H. now apply in_rev.
Qed.

Lemma arabic_pattern_requires_space : requires is_space arabic_pattern.
Proof. right. left. left. exact (fun x H => H). Qed.

Lemma parse_arabic_plain s :
  (forall c, In c s -> isspace c = false) -> parse_arabic s = Ok None.
Proof.
  intros H. unfold parse_arabic.
  rewrite (search_requires is_space); [reflexivity|exact arabic_pattern_requires_space|].
  intros x Hx Sx. unfold is_space in Sx. rewrite (H x Hx) in Sx. discriminate.
Qed.

Lemma new_calendar a :
  calendar_date a -> Datetime.new (year a) (month a) (day a) = Ok a.
Proof.
  intros C. pose proof (calendar_date_valid a C) as V.
  unfold is_valid_date in V.
  destruct C as (Hy & Hm & Hd & H1 & H2 & H3 & H4).
  rewrite (monthrange_calendar a) in V by (unfold calendar_date; auto 10).
  replace ((1 <=? month a) && (month a <=? 12)) with true in V
    by (symmetry; apply andb_true_iff; rewrite !Z.leb_le; lia).
  cbn [negb] in V. revert V. rsimpl.
  replace ((1 <=? day a) && (day a <=? days_in_month (year a) (month a))) with true
    by (symmetry; apply andb_true_iff; rewrite !Z.leb_le; lia).
  cbn [negb].
  destruct (Datetime.new (year a) (month a) (day a)) as [b|[]] eqn:E; rsimpl;
    try discriminate.
  intros _. apply new_Ok in E as [-> _]. destruct a; cbn in *. congruence.
Qed.

Lemma pattern_dmY : pattern (u "%d/%m/%Y") = Some dmY_regex.
Proof. reflexivity. Qed.

Lemma slash : u "/" = [0x2f%N].
Proof. reflexivity. Qed.

Lemma year_accepts a b c e :
  0 <= a <= 9 -> 0 <= b <= 9 -> 0 <= c <= 9 -> 0 <= e <= 9 ->
  accepts (dir 0x59) [dg a; dg b; dg c; dg e] [(gY, [dg a; dg b; dg c; dg e])].
Proof.
  intros Ha Hb Hc He. rewrite dir_Y. apply accepts_Grp. unfold rep4, d.
  apply (accepts_Cat _ _ [dg a] [dg b; dg c; dg e] [] []);
    [apply accepts_Chr, isdigit_dg, Ha|].
  apply (accepts_Cat _ _ [dg b] [dg c; dg e] [] []);
    [apply accepts_Chr, isdigit_dg, Hb|].
  apply (accepts_Cat _ _ [dg c] [dg e] [] []);
    apply accepts_Chr, isdigit_dg; assumption.
Qed.

Lemma year_digits y :
  1000 <= y <= 9999 ->
  0 <= y / 1000 <= 9 /\ 0 <= y / 100 mod 10 <= 9 /\ 0 <= y / 10 mod 10 <= 9
  /\ 0 <= y mod 10 <= 9
  /\ 1000 * (y / 1000) + 100 * (y / 100 mod 10) + 10 * (y / 10 mod 10) + y mod 10 = y.
Proof. intros H. Z.div_mod_to_equations. lia. Qed.

Lemma two_digit_bounds n : 0 <= n <= 99 -> 0 <= n / 10 <= 9 /\ 0 <= n mod 10 <= 9.
Proof. intros H. Z.div_mod_to_equations. lia. Qed.

Lemma parse_date_plain s a :
  s <> [] -> (forall c, In c s -> isspace c = false) ->
  parse_formats DATE_FORMATS s = Ok (Some a) -> parse_date s = Ok (Some a).
Proof.
  intros Ne Plain Q. destruct s as [|c t]; [congruence|].
  unfold parse_date. rewrite (strip_plain _ Plain), (parse_arabic_plain _ Plain).
  rsimpl. rewrite Q. reflexivity.
Qed.

(** X13: a calendar date of the years 1000 to 9999, printed the way the
    messages of the validator print dates ([%d/%m/%Y]), is read back by
    [parse_date] as the same date. *)
Theorem parse_date_strftime (a : datetime)
        (Hdate : calendar_date a) (Hyear : 1000 <= year a) :
  parse_date (strftime_dmY a) = Ok (Some a).
Proof.
  pose proof Hdate as (Hy & Hm & Hd & _).
  pose proof (days_in_month_bound (year a) (month a)) as Hb.
  assert (Hd2 : 0 <= day a <= 99) by lia.
  assert (Hm2 : 0 <= month a <= 99) by lia.
  assert (Hy4 : 1000 <= year a <= 9999) by lia.
  destruct (two_digit_bounds _ Hd2) as (D1 & D0).
  destruct (two_digit_bounds _ Hm2) as (M1 & M0).
  destruct (year_digits _ Hy4) as (Y3 & Y2 & Y1 & Y0 & Ysum).
  pose proof (day_accepts (day a) ltac:(lia)) as AD.
  pose proof (month_accepts (month a) ltac:(lia)) as AM.
  pose proof (year_accepts _ _ _ _ Y3 Y2 Y1 Y0) as AY.
  pose proof (int_two_digits _ Hd2) as ID.
  pose proof (int_two_digits _ Hm2) as IM.
  pose proof (int_four_digits _ _ _ _ Y3 Y2 Y1 Y0) as IY. rewrite Ysum in IY.
  unfold strftime_dmY. rewrite slash.
  rewrite (four_digits _ Hy4).
  rewrite (two_digits _ Hd2) in *. rewrite (two_digits _ Hm2) in *.
  set (d1 := dg (day a / 10)) in *. set (d0 := dg (day a mod 10)) in *.
  set (m1 := dg (month a / 10)) in *. set (m0 := dg (month a mod 10)) in *.
  set (y3 := dg (year a / 1000)) in *. set (y2 := dg (year a / 100 mod 10)) in *.
  set (y1 := dg (year a / 10 mod 10)) in *. set (y0 := dg (year a mod 10)) in *.
  cbn [app].
  set (s := [d1; d0; 0x2f%N; m1; m0; 0x2f%N; y3; y2; y1; y0]).
  assert (Plain : forall c, In c s -> isspace c = false).
  { intros c Hc. cbn [In s] in Hc.
    repeat (destruct Hc as [<-|Hc];
            [first [apply dg_plain; assumption|reflexivity]|]).
    destruct Hc. }
  assert (Acc : accepts dmY_regex s
                  [(gY, [y3; y2; y1; y0]); (gm, [m1; m0]); (gd, [d1; d0])]).
  { unfold dmY_regex.
    apply (accepts_Cat _ _ [d1; d0] [0x2f%N; m1; m0; 0x2f%N; y3; y2; y1; y0]
                       [(gd, [d1; d0])] [(gY, [y3; y2; y1; y0]); (gm, [m1; m0])]);
      [exact AD|].
    apply (accepts_Cat _ _ [0x2f%N] [m1; m0; 0x2f%N; y3; y2; y1; y0]
                       [] [(gY, [y3; y2; y1; y0]); (gm, [m1; m0])]);
      [apply accepts_Chr; reflexivity|].
    apply (accepts_Cat _ _ [m1; m0] [0x2f%N; y3; y2; y1; y0]
                       [(gm, [m1; m0])] [(gY, [y3; y2; y1; y0])]);
      [exact AM|].
    apply (accepts_Cat _ _ [0x2f%N] [y3; y2; y1; y0] [] [(gY, [y3; y2; y1; y0])]);
      [apply accepts_Chr; reflexivity|].
    apply (accepts_Cat _ _ [y3; y2; y1; y0] [] [(gY, [y3; y2; y1; y0])] []);
      [exact AY|apply accepts_Eps]. }
  assert (P : strptime s (u "%d/%m/%Y") = Ok a).
  { unfold strptime. rewrite pattern_dmY. rsimpl.
    rewrite (accepts_match _ _ _ Acc). rsimpl. cbn [m_rest m_caps].
    unfold group_int. cbn [group gY gm gd Nat.eqb].
    rewrite IY, IM, ID. rsimpl. now apply new_calendar. }
  assert (Q : parse_formats DATE_FORMATS s = Ok (Some a)).
  { unfold DATE_FORMATS. cbn [parse_formats]. rewrite P. reflexivity. }
  apply parse_date_plain; [discriminate|exact Plain|exact Q].
Qed.

(** ** Completion calls and operations of a turn *)

Ltac costed :=
  do 2 eexists; split; [reflexivity|]; cbn; split; [reflexivity|];
  split; [reflexivity|lia].

Section Costs.

Variable backend : nat -> option str.
Variable json_action : str -> option str.
Variable isalpha : N -> bool.
Variable reference_date : datetime.

Lemma validate_dates_in_text_state text lg st :
  exists r, _validate_dates_in_text reference_date text lg st = (Ok r, st).
Proof.
  destruct (validate_dates_in_text_spec reference_date text lg st)
    as [[_ E]|(alert & E & _)]; rewrite E; eauto.
Qed.

Lemma generate_contract_cost user_input st :
  exists o st',
    generate_contract backend isalpha reference_date user_input st = (Ok o, st')
    /\ contract_memory st' = contract_memory st
    /\ advanced st st' [OpGenerate] 0 1.
Proof.
  unfold generate_contract, advanced. rewrite bind_unfold. cbn [enter].
  set (lg := _detect_language isalpha user_input).
  set (st1 := State _ _ _).
  destruct (validate_dates_in_text_state user_input lg st1) as [[v e] E].
  rewrite bind_unfold, E. destruct v; cbn [negb].
  - rewrite bind_unfold. cbn [_chat_completion].
    destruct (backend (ncalls st1)) as [content|].
    + set (st2 := State _ _ _).
      destruct (validate_dates_in_text_state (strip content) lg st2) as [[v2 e2] E2].
      rewrite bind_unfold, E2.
      destruct v2; cbn [negb]; costed.
    + costed.
  - costed.
Qed.

Lemma edit_contract_cost current user_request st :
  exists o st',
    edit_contract backend isalpha reference_date current user_request st = (Ok o, st')
    /\ contract_memory st' = contract_memory st
    /\ advanced st st' [OpEdit] 0 1.
Proof.
  unfold edit_contract, advanced. rewrite bind_unfold. cbn [enter].
  set (lg := _detect_language isalpha user_request).
  set (st1 := State _ _ _).
  destruct (validate_dates_in_text_state user_request lg st1) as [[v e] E].
  rewrite bind_unfold, E. destruct v; cbn [negb].
  - rewrite bind_unfold. cbn [_chat_completion].
    destruct (backend (ncalls st1)) as [content|].
    + set (st2 := State _ _ _).
      destruct (validate_dates_in_text_state (strip content) lg st2) as [[v2 e2] E2].
      rewrite bind_unfold, E2.
      destruct v2; cbn [negb]; costed.
    + costed.
  - costed.
Qed.

Lemma review_contract_cost contract_text st :
  exists o st',
    review_contract backend isalpha reference_date contract_text st = (Ok o, st')
    /\ contract_memory st' = contract_memory st
    /\ advanced st st' [OpReview] 1 1.
Proof.
  unfold review_contract, advanced. rewrite bind_unfold. cbn [enter].
  rewrite bind_unfold. unfold lift.
  destruct (extract_and_validate_dates_returns reference_date contract_text true)
    as [r ->].
  rewrite bind_unfold. cbn [_chat_completion].
  destruct (backend _); costed.
Qed.

Lemma explain_clause_cost contract_text user_query st :
  exists o st',
    explain_clause backend isalpha contract_text user_query st = (Ok o, st')
    /\ contract_memory st' = contract_memory st
    /\ advanced st st' [OpExplain] 1 1.
Proof.
  unfold explain_clause, advanced. rewrite bind_unfold. cbn [enter].
  rewrite bind_unfold. cbn [_chat_completion].
  destruct (backend _); costed.
Qed.

End Costs.

Section RouterCosts.

Variable backend : nat -> option str.
Variable json_action : str -> option str.
Variable isalpha : N -> bool.
Variable reference_date : datetime.

Lemma advanced_refl st ops lo hi st' :
  invoked st' = invoked st ++ ops ->
  (ncalls st + lo <= ncalls st' <= ncalls st + hi)%nat ->
  advanced st st' ops lo hi.
Proof. now split. Qed.

Lemma dispatch_cost (user_input sid : str) lg act intent st1 :
  exists r st',
    dispatch backend isalpha reference_date user_input sid lg act intent st1
    = (Ok r, st')
    /\ advanced st1 st' (entered intent act) 0 1.
Proof.
  unfold dispatch, entered.
  destruct (Str.eqb intent (u "create")) eqn:Ic.
  { rewrite bind_unfold.
    destruct (generate_contract_cost backend isalpha reference_date user_input st1)
      as (o & st2 & -> & _ & A).
    destruct (is_error_message o).
    - destruct (truthy_opt act); do 2 eexists; (split; [reflexivity|exact A]).
    - destruct (truthy_opt o).
      + rewrite bind_unfold. cbn [set_current_contract].
        do 2 eexists. split; [reflexivity|exact A].
      + destruct (truthy_opt act); do 2 eexists; (split; [reflexivity|exact A]). }
  destruct act as [a0|].
  2:{ destruct (Str.eqb intent (u "edit")).
      { do 2 eexists. split; [reflexivity|].
        apply advanced_refl; [now rewrite app_nil_r|lia]. }
      destruct (Str.eqb intent (u "explain")).
      { do 2 eexists. split; [reflexivity|].
        apply advanced_refl; [now rewrite app_nil_r|lia]. }
      destruct (Str.eqb intent (u "review")).
      { do 2 eexists. split; [reflexivity|].
        apply advanced_refl; [now rewrite app_nil_r|lia]. }
      rewrite bind_unfold. cbn [_chat_completion].
      destruct (backend (ncalls st1)); do 2 eexists; (split; [reflexivity|]);
        (apply advanced_refl; cbn; [now rewrite app_nil_r|lia]). }
  destruct (Str.eqb intent (u "edit")).
  { rewrite bind_unfold.
    destruct (edit_contract_cost backend isalpha reference_date a0 user_input st1)
      as (o & st2 & -> & _ & A).
    destruct (is_error_message o).
    - do 2 eexists. split; [reflexivity|exact A].
    - destruct (_ && _ && _).
      + rewrite bind_unfold. cbn [set_current_contract].
        do 2 eexists. split; [reflexivity|exact A].
      + do 2 eexists. split; [reflexivity|exact A]. }
  destruct (Str.eqb intent (u "explain")).
  { rewrite bind_unfold.
    destruct (explain_clause_cost backend isalpha a0 user_input st1)
      as (o & st2 & -> & _ & A1 & A2).
    do 2 eexists. split; [reflexivity|]. split; [exact A1|lia]. }
  destruct (Str.eqb intent (u "review")).
  { rewrite bind_unfold.
    destruct (review_contract_cost backend isalpha reference_date a0 st1)
      as (o & st2 & -> & _ & A1 & A2).
    do 2 eexists. split; [reflexivity|]. split; [exact A1|lia]. }
  rewrite bind_unfold. cbn [_chat_completion].
  destruct (backend (ncalls st1)); do 2 eexists; (split; [reflexivity|]);
    (apply advanced_refl; cbn; [now rewrite app_nil_r|lia]).
Qed.

(** X14: every turn of the router makes one or two completion calls, the
    classification and at most one more, and enters at most one contract
    operation: the one named by the classified intent, and an edit, an
    explanation or a review only when there is an active contract. *)
Theorem router_turn_cost
        (user_input : str) (current_contract : option str) (session_id : str)
        (st : state) :
  exists r st',
    get_chat_response backend json_action isalpha reference_date
      user_input current_contract session_id st = (Ok r, st')
    /\ invoked st'
       = invoked st
         ++ entered (intent_of backend json_action (ncalls st))
                    (active current_contract session_id (contract_memory st))
    /\ (ncalls st + 1 <= ncalls st' <= ncalls st + 2)%nat.
Proof.
  rewrite get_chat_response_eq.
  destruct (dispatch_cost user_input session_id
              (_detect_language isalpha user_input)
              (active current_contract session_id (contract_memory st))
              (intent_of backend json_action (ncalls st))
              (State (sync current_contract session_id (contract_memory st))
                     (S (ncalls st)) (invoked st)))
    as (r & st' & E & A1 & A2).
  exists r, st'. split; [exact E|]. split; [exact A1|].
  cbn [ncalls] in A2. lia.
Qed.

(** X15: a turn of the router changes the memory of no other session, and
    removes the contract of no session. *)
Theorem router_session_isolation
        (user_input : str) (current_contract : option str) (session_id : str)
        (st : state) :
  exists r st',
    get_chat_response backend json_action isalpha reference_date
      user_input current_contract session_id st = (Ok r, st')
    /\ (forall other, other <> session_id ->
          contract_memory st' !! other = contract_memory st !! other)
    /\ (forall other, is_Some (contract_memory st !! other) ->
          is_Some (contract_memory st' !! other)).
Proof.
  rewrite get_chat_response_eq.
  destruct (dispatch_cases backend isalpha reference_date user_input session_id
              (_detect_language isalpha user_input)
              (active current_contract session_id (contract_memory st))
              (intent_of backend json_action (ncalls st))
              (State (sync current_contract session_id (contract_memory st))
                     (S (ncalls st)) (invoked st)))
    as (msg & c & a & st' & E & R).
  exists (msg, c, a), st'. split; [exact E|].
  assert (S1 : forall other, other <> session_id ->
             sync current_contract session_id (contract_memory st) !! other
             = contract_memory st !! other).
  { intros other Ho. unfold sync. destruct (supplied current_contract);
      [now apply lookup_insert_ne|reflexivity]. }
  assert (S2 : forall other, is_Some (contract_memory st !! other) ->
             is_Some (sync current_contract session_id (contract_memory st)
                        !! other)).
  { intros other Ho. unfold sync. destruct (supplied current_contract);
      [|exact Ho].
    destruct (decide (session_id = other)) as [->|Hn].
    - rewrite lookup_insert_eq. eauto.
    - now rewrite lookup_insert_ne. }
  cbn [contract_memory] in R.
  destruct a; cbn [routed] in R.
  - destruct R as (t & _ & -> & _). split.
    + intros other Ho. rewrite lookup_insert_ne by congruence. now apply S1.
    + intros other Ho. destruct (decide (session_id = other)) as [->|Hn].
      * rewrite lookup_insert_eq. eauto.
      * rewrite lookup_insert_ne by exact Hn. now apply S2.
  - destruct R as (_ & _ & ->). now split.
  - destruct R as (_ & ->). now split.
Qed.

End RouterCosts.

(** ** Further behaviour of the router *)

Section RouterMore.

Variable backend : nat -> option str.
Variable json_action : str -> option str.
Variable isalpha : N -> bool.
Variable reference_date : datetime.

Lemma validate_dates_in_text_refusal text lg st m fs :
  extract_and_validate_dates reference_date text false = Ok (false, m, fs) ->
  exists alert,
    _validate_dates_in_text reference_date text lg st
    = (Ok (false, Some alert), st)
    /\ is_error_message (Some alert) = true.
Proof.
  intros E.
  destruct (validate_dates_in_text_spec reference_date text lg st)
    as [[(m' & fs' & P) _]|R]; [congruence|exact R].
Qed.

(** X16: a request to create a contract, or to edit the active one, whose own
    text fails the date scan is answered with an error message after the
    classification call alone: no completion is requested for the
    contract, the action is not "updated", and the memory stays as the sync
    made it. *)
Theorem invalid_request_date_stops_the_operation
        (user_input : str) (current_contract : option str) (session_id : str)
        (st : state) (m : str) (fs : list finding)
        (Hintent :
           intent_of backend json_action (ncalls st) = u "create"
           \/ (intent_of backend json_action (ncalls st) = u "edit"
               /\ exists a0,
                    active current_contract session_id (contract_memory st)
                    = Some a0))
        (Hbad : extract_and_validate_dates reference_date user_input false
                = Ok (false, m, fs)) :
  exists msg contract a st',
    get_chat_response backend json_action isalpha reference_date
      user_input current_contract session_id st
    = (Ok (msg, contract, a), st')
    /\ is_error_message (Some msg) = true
    /\ a <> updated
    /\ ncalls st' = S (ncalls st)
    /\ contract_memory st'
       = sync current_contract session_id (contract_memory st).
Proof.
  rewrite get_chat_response_eq.
  set (st1 := State _ _ _).
  set (act := active _ _ _) in *.
  set (intent := intent_of _ _ _) in *.
  set (lg := _detect_language isalpha user_input).
  unfold dispatch.
  destruct Hintent as [Hi|[Hi [a0 Ha]]]; rewrite Hi.
  - replace (Str.eqb (u "create") (u "create")) with true
      by (vm_compute; reflexivity).
    rewrite bind_unfold. unfold generate_contract.
    rewrite bind_unfold. cbn [enter]. fold lg.
    set (st2 := State _ _ _).
    destruct (validate_dates_in_text_refusal user_input lg st2 m fs Hbad)
      as (alert & E & Ie).
    rewrite bind_unfold, E. cbn [negb mret M_ret]. rewrite Ie.
    destruct (truthy_opt act); do 4 eexists;
      (split; [reflexivity|]); cbn [get_str];
      (split; [exact Ie|]); (split; [discriminate|]); split; reflexivity.
  - replace (Str.eqb (u "edit") (u "create")) with false
      by (vm_compute; reflexivity).
    replace (Str.eqb (u "edit") (u "edit")) with true
      by (vm_compute; reflexivity).
    rewrite Ha. rewrite bind_unfold. unfold edit_contract.
    rewrite bind_unfold. cbn [enter]. fold lg.
    set (st2 := State _ _ _).
    destruct (validate_dates_in_text_refusal user_input lg st2 m fs Hbad)
      as (alert & E & Ie).
    rewrite bind_unfold, E. cbn [negb mret M_ret]. rewrite Ie.
    do 4 eexists. split; [reflexivity|]. cbn [get_str].
    split; [exact Ie|]. split; [discriminate|]. split; reflexivity.
Qed.

Lemma supplied_blank (ws : str) :
  forallb isspace ws = true -> supplied (Some ws) = false.
Proof.
  intros H. unfold supplied.
  pose proof (strip_blank ws [] [] H eq_refl) as E.
  rewrite app_nil_r in E. rewrite E. apply andb_false_r.
Qed.

(** X17: a caller's contract that holds only whitespace counts as no
    contract: the turn is the one the router makes when no contract is
    passed, on the stored contract of the session. *)
Theorem blank_contract_is_ignored
        (user_input ws session_id : str) (st : state)
        (Hblank : forallb isspace ws = true) :
  get_chat_response backend json_action isalpha reference_date
    user_input (Some ws) session_id st
  = get_chat_response backend json_action isalpha reference_date
      user_input None session_id st.
Proof.
  rewrite !get_chat_response_eq. unfold active, sync.
  rewrite (supplied_blank ws Hblank). reflexivity.
Qed.

(** X18: when the backend fails on the two calls of a turn, the router
    answers the localized processing error, returns the active contract
    untouched, enters no contract operation and leaves the memory as the
    sync made it. *)
Theorem router_outage
        (user_input : str) (current_contract : option str) (session_id : str)
        (st : state)
        (Hfail1 : backend (ncalls st) = None)
        (Hfail2 : backend (S (ncalls st)) = None) :
  let act := active current_contract session_id (contract_memory st) in
  get_chat_response backend json_action isalpha reference_date
    user_input current_contract session_id st
  = (Ok (match _detect_language isalpha user_input with
         | arabic => u "عذراً، خطأ في معالجة الطلب"
         | english => u "Sorry, error processing request"
         end,
         act,
         match act with Some _ => unchanged | None => none end),
     State (sync current_contract session_id (contract_memory st))
           (S (S (ncalls st))) (invoked st)).
Proof.
  intros act. rewrite get_chat_response_eq. fold act.
  unfold intent_of. rewrite Hfail1. unfold dispatch.
  replace (Str.eqb (u "chat") (u "create")) with false
    by (vm_compute; reflexivity).
  replace (Str.eqb (u "chat") (u "edit")) with false
    by (vm_compute; reflexivity).
  replace (Str.eqb (u "chat") (u "explain")) with false
    by (vm_compute; reflexivity).
  replace (Str.eqb (u "chat") (u "review")) with false
    by (vm_compute; reflexivity).
  rewrite bind_unfold. cbn [_chat_completion ncalls contract_memory invoked].
  rewrite Hfail2. destruct act; reflexivity.
Qed.

Lemma count_nonneg p text : 0 <= count p text.
Proof. induction text as [|c t IH]; simpl; [lia|destruct (p c); lia]. Qed.

Lemma count_pos p text : 0 < count p text -> exists c, In c text /\ p c = true.
Proof.
  induction text as [|c t IH]; simpl; [lia|].
  destruct (p c) eqn:E.
  - intros _. exists c. split; [now left|exact E].
  - intros H. destruct IH as (c' & Hin & Hp); [lia|].
    exists c'. split; [now right|exact Hp].
Qed.

Lemma count_le p q text :
  (forall c, In c text -> p c = true -> q c = true) ->
  count p text <= count q text.
Proof.
  induction text as [|c t IH]; simpl; intros H; [lia|].
  assert (IH' : count p t <= count q t) by (apply IH; intros; apply H; auto).
  destruct (p c) eqn:E.
  - rewrite (H c (or_introl eq_refl) E). lia.
  - destruct (q c); lia.
Qed.

Lemma In_count p text c : In c text -> p c = true -> 0 < count p text.
Proof.
  induction text as [|x t IH]; simpl; [contradiction|].
  intros [->|Hin] Hp.
  - rewrite Hp. pose proof (count_nonneg p t). lia.
  - pose proof (IH Hin Hp). destruct (p x); lia.
Qed.

(** X19: a text is taken for Arabic only if it holds a character of the
    block U+0600..U+06FF and an alphabetic character; and it is taken
    for Arabic whenever it holds an alphabetic character and all its
    alphabetic characters are in that block. *)
Theorem detect_language_arabic (text : str) :
  (_detect_language isalpha text = arabic ->
   (exists c, In c text /\ range 0x600 0x6ff c = true)
   /\ exists c, In c text /\ isalpha c = true)
  /\ ((exists c, In c text /\ isalpha c = true) ->
      (forall c, In c text -> isalpha c = true -> range 0x600 0x6ff c = true) ->
      _detect_language isalpha text = arabic).
Proof.
  unfold _detect_language. split.
  - destruct text as [|x t]; [discriminate|].
    set (text := x :: t).
    pose proof (count_nonneg isalpha text) as Ht.
    pose proof (count_nonneg (range 0x600 0x6ff) text) as Ha.
    destruct (count isalpha text =? 0) eqn:E0; [discriminate|].
    destruct (3 * count isalpha text <? 10 * count (range 0x600 0x6ff) text)
      eqn:E1; [|discriminate].
    intros _. apply Z.eqb_neq in E0. apply Z.ltb_lt in E1.
    split; apply count_pos; lia.
  - intros (c & Hin & Hc) Hall.
    destruct text as [|x t]; [contradiction|].
    set (text := x :: t) in *.
    pose proof (In_count isalpha text c Hin Hc) as Hp.
    pose proof (count_le isalpha (range 0x600 0x6ff) text Hall) as Hle.
    replace (count isalpha text =? 0) with false by (symmetry; apply Z.eqb_neq; lia).
    replace (3 * count isalpha text <? 10 * count (range 0x600 0x6ff) text)
      with true by (symmetry; apply Z.ltb_lt; lia).
    reflexivity.
Qed.

End RouterMore.

(** ** [range] and slices *)

Lemma range_from_slices {A} (lst : list A) (n : nat) :
  (0 < n)%nat ->
  forall fuel i,
    (length lst - i <= fuel)%nat ->
    concat (map (fun j => slice lst j (j + n)) (range_from fuel i (length lst) n))
    = skipn i lst.
Proof.
  intros Hn. induction fuel as [|f IH]; intros i Hf.
  - cbn [range_from map concat]. symmetry. apply skipn_all2. lia.
  - cbn [range_from]. destruct (i <? length lst)%nat eqn:E.
    + apply Nat.ltb_lt in E. cbn [map concat].
      rewrite IH by lia. unfold slice.
      replace (i + n - i)%nat with n by lia.
      replace (i + n)%nat with (n + i)%nat by lia.
      rewrite <- skipn_skipn. apply firstn_skipn.
    + apply Nat.ltb_ge in E. cbn [map concat]. symmetry.
      apply skipn_all2. lia.
Qed.

Lemma range_from_sizes {A} (lst : list A) (n : nat) :
  (0 < n)%nat ->
  forall fuel i,
    Forall (fun c : list A => (1 <= length c <= n)%nat)
           (map (fun j => slice lst j (j + n)) (range_from fuel i (length lst) n)).
Proof.
  intros Hn. induction fuel as [|f IH]; intros i; [constructor|].
  cbn [range_from]. destruct (i <? length lst)%nat eqn:E; [|constructor].
  apply Nat.ltb_lt in E. cbn [map]. constructor; [|apply IH].
  unfold slice. rewrite length_firstn, length_skipn. lia.
Qed.

Lemma range_from_full {A} (lst : list A) (n : nat) :
  (0 < n)%nat ->
  forall fuel i pre c post,
    map (fun j => slice lst j (j + n)) (range_from fuel i (length lst) n)
    = pre ++ c :: post ->
    post <> [] -> length c = n.
Proof.
  intros Hn. induction fuel as [|f IH]; intros i pre c post E Hpost.
  - destruct pre; discriminate.
  - cbn [range_from] in E. destruct (i <? length lst)%nat eqn:Ei.
    2:{ destruct pre; discriminate. }
    cbn [map] in E. destruct pre as [|x pre].
    + cbn [app] in E. injection E as <- E.
      destruct f as [|f']; [now symmetry in E|].
      cbn [range_from] in E.
      destruct (i + n <? length lst)%nat eqn:Ej;
        [|now symmetry in E].
      apply Nat.ltb_lt in Ej. unfold slice.
      rewrite length_firstn, length_skipn. lia.
    + cbn [app] in E. injection E as _ E. now apply (IH _ _ _ _ E).
Qed.

(** X20: with a positive size [n], [chunk_list] cuts the list into
    consecutive pieces that put together give the list back; every piece
    holds between 1 and [n] elements, and every piece but the last holds
    [n]. *)
Theorem chunk_list_partition {A : Type} (lst : list A) (n : Z) (Hn : 0 < n) :
  exists chunks,
    Ingest.chunk_list lst n = Ok chunks
    /\ concat chunks = lst
    /\ Forall (fun c => 1 <= Z.of_nat (length c) <= n) chunks
    /\ forall pre c post,
         chunks = pre ++ c :: post -> post <> [] -> Z.of_nat (length c) = n.
Proof.
  unfold Ingest.chunk_list, range0.
  replace (n =? 0) with false by (symmetry; apply Z.eqb_neq; lia).
  replace (n <? 0) with false by (symmetry; apply Z.ltb_ge; lia).
  rsimpl. eexists. split; [reflexivity|].
  assert (Hp : (0 < Z.to_nat n)%nat) by lia.
  split; [|split].
  - rewrite (range_from_slices lst (Z.to_nat n) Hp) by lia. reflexivity.
  - eapply List.Forall_impl; [|apply (range_from_sizes lst (Z.to_nat n) Hp)].
    cbn beta. intros c Hc. lia.
  - intros pre c post E Hpost.
    rewrite (range_from_full lst (Z.to_nat n) Hp _ _ _ _ _ E Hpost). lia.
Qed.

Lemma chunk_list_partition_witness :
  exists chunks,
    Ingest.chunk_list [1; 2; 3; 4; 5] 2 = Ok chunks
    /\ concat chunks = [1; 2; 3; 4; 5]
    /\ Forall (fun c => 1 <= Z.of_nat (length c) <= 2) chunks
    /\ forall pre c post,
         chunks = pre ++ c :: post -> post <> [] -> Z.of_nat (length c) = 2.
Proof. apply (chunk_list_partition [1; 2; 3; 4; 5] 2). lia. Defined.

(** ** The matcher finds a match when there is one *)

Lemma rmatch_Star {A} r s c (k : str -> caps -> option A) :
  rmatch (Star r) s c k = star_loop r k (length s) s c.
Proof. reflexivity. Qed.

Lemma rmatch_complete_aux {A} r s1 c1 :
  Matches r s1 c1 ->
  (forall s2 (k : str -> caps -> option A),
      (forall c, k s2 c <> None) ->
      forall c, rmatch r (s1 ++ s2) c k <> None)
  /\ (forall r0, r = Star r0 ->
      forall n s2 (k : str -> caps -> option A) c,
        (length (s1 ++ s2) <= n)%nat ->
        (forall c, k s2 c <> None) ->
        star_loop r0 k n (s1 ++ s2) c <> None).
Proof.
  induction 1 as [|p x Hp|r1 r2 s1 s2 d1 d2 M1 [IH1 _] M2 [IH2 _]
                  |r1 r2 s d1 M [IH _]|r1 r2 s d1 M [IH _]
                  |r|r s1 s2 d1 d2 M1 [IH1 _] M2 [IH2 IH2s]
                  |i r s d1 M [IH _]].
  - split; [|discriminate]. intros s2 k Hk c. apply Hk.
  - split; [|discriminate]. intros s2 k Hk c. cbn [app rmatch].
    rewrite Hp. apply Hk.
  - split; [|discriminate]. intros s3 k Hk c. cbn [rmatch].
    rewrite <- app_assoc. apply IH1. intros c'. now apply IH2.
  - split; [|discriminate]. intros s2 k Hk c. cbn [rmatch].
    pose proof (IH s2 k Hk c) as H.
    destruct (rmatch r1 (s ++ s2) c k); [discriminate|contradiction].
  - split; [|discriminate]. intros s2 k Hk c. cbn [rmatch].
    destruct (rmatch r1 (s ++ s2) c k); [discriminate|]. now apply IH.
  - assert (S0 : forall n s2 (k : str -> caps -> option A) c,
               (forall c, k s2 c <> None) -> star_loop r k n s2 c <> None).
    { intros n s2 k c Hk. destruct n as [|n]; cbn [star_loop]; [apply Hk|].
      match goal with
      | |- match ?m with _ => _ end <> _ => destruct m
      end; [discriminate|apply Hk]. }
    split.
    + intros s2 k Hk c. rewrite rmatch_Star. now apply S0.
    + intros r0 E n s2 k c _ Hk. injection E as <-. now apply S0.
  - assert (S1 : forall n s3 (k : str -> caps -> option A) c,
               (length ((s1 ++ s2) ++ s3) <= n)%nat ->
               (forall c, k s3 c <> None) ->
               star_loop r k n ((s1 ++ s2) ++ s3) c <> None).
    { intros n s3 k c Hn Hk.
      destruct s1 as [|x s1].
      { cbn [app] in *. now apply (IH2s r eq_refl). }
      destruct n as [|n]; [cbn in Hn; lia|].
      cbn [star_loop].
      match goal with
      | |- match ?m with _ => _ end <> _ => destruct m eqn:E
      end; [discriminate|].
      exfalso. rewrite <- app_assoc in E. revert E. apply IH1.
      intros c'.
      replace (length (s2 ++ s3) <? length ((x :: s1) ++ s2 ++ s3))%nat
        with true
        by (symmetry; apply Nat.ltb_lt; rewrite !length_app; cbn; lia).
      apply (IH2s r eq_refl); [|exact Hk].
      rewrite !length_app in *. cbn in Hn. lia. }
    split.
    + intros s3 k Hk c. rewrite rmatch_Star. now apply S1.
    + intros r0 E n s3 k c Hn Hk. injection E as <-. now apply S1.
  - split; [|discriminate]. intros s2 k Hk c. cbn [rmatch].
    apply IH. intros c'. apply Hk.
Qed.

(** A match at the start of a text is a match at the start of every
    longer text. *)
Lemma match_extends r s t :
  match_ r s <> None -> match_ r (s ++ t) <> None.
Proof.
  intros H. destruct (match_ r s) as [m|] eqn:E; [|contradiction].
  apply match_parts in E as [-> M]. rewrite <- app_assoc.
  unfold match_. apply (proj1 (rmatch_complete_aux r _ _ M)).
  intros c. discriminate.
Qed.

(** ** [split_clauses.py] *)

Lemma starts_clause_extends line rest :
  SplitClauses.starts_clause line = true ->
  SplitClauses.starts_clause (line ++ rest) = true.
Proof.
  unfold SplitClauses.starts_clause. intros H.
  pose proof (match_extends SplitClauses.CLAUSE_START_PATTERN line rest) as E.
  destruct (match_ SplitClauses.CLAUSE_START_PATTERN line); [|discriminate].
  destruct (match_ SplitClauses.CLAUSE_START_PATTERN (line ++ rest));
    [reflexivity|]. now destruct E.
Qed.

Lemma lstrip_app_fixed (a b : str) :
  b <> [] -> lstrip b = b -> lstrip (a ++ b) = lstrip a ++ b.
Proof.
  intros Hb Hf. induction a as [|c a IH]; cbn [app lstrip]; [exact Hf|].
  destruct (isspace c); [exact IH|reflexivity].
Qed.

Lemma strip_fixed_rev (l : str) : strip l = l -> lstrip (rev l) = rev l.
Proof.
  intros H. pose proof (strip_fixed l l H) as Hl.
  unfold strip, rstrip in H. rewrite Hl in H.
  rewrite <- H at 2. now rewrite rev_involutive.
Qed.

(** A stripped line stays in front when the text that follows is
    stripped away. *)
Lemma strip_app_line (l rest : str) :
  l <> [] -> strip l = l -> strip (l ++ rest) = l ++ rstrip rest.
Proof.
  intros Hn H. unfold strip.
  assert (Hl : lstrip (l ++ rest) = l ++ rest).
  { destruct l as [|c t]; [contradiction|]. cbn [app lstrip].
    now rewrite (strip_head _ _ _ H). }
  rewrite Hl. unfold rstrip. rewrite rev_app_distr.
  rewrite lstrip_app_fixed.
  - now rewrite rev_app_distr, rev_involutive.
  - intros E. apply Hn. apply (f_equal (@rev N)) in E.
    now rewrite rev_involutive in E.
  - now apply strip_fixed_rev.
Qed.

Lemma split_one_line sep s p : In p (split sep s) -> ~ In sep p.
Proof.
  revert p. induction s as [|c s IH]; cbn [split]; intros p Hin.
  - destruct Hin as [<-|[]]. easy.
  - destruct (N.eqb_spec c sep) as [->|Hc].
    + destruct Hin as [<-|Hin]; [easy|now apply IH].
    + destruct (split sep s) as [|q qs] eqn:E.
      * destruct Hin as [<-|[]]. intros [->|[]]. contradiction.
      * destruct Hin as [<-|Hin].
        -- intros [->|H]; [contradiction|]. revert H. apply IH. now left.
        -- apply IH. now right.
Qed.

(** The lines that [split_into_chunks] works on. *)
Lemma chunk_lines text l :
  In l (List.filter (fun l => (0 <? length l)%nat)
               (map strip (split 10 (collapse_newlines text)))) ->
  l <> [] /\ strip l = l /\ one_line l.
Proof.
  intros H. apply filter_In in H as [H Hl].
  apply in_map_iff in H as (p & <- & Hp).
  split; [|split].
  - intros E. rewrite E in Hl. discriminate.
  - apply strip_idem.
  - intros Hin. apply strip_In in Hin.
    exact (split_one_line 10%N _ p Hp Hin).
Qed.

Lemma tail_all_filter {A} (P : A -> Prop) (f : A -> bool) (l : list A) :
  tail_all P l -> tail_all P (List.filter f l).
Proof.
  destruct l as [|x t]; [easy|]. cbn [tail_all List.filter]. intros H.
  assert (Hf : Forall P (List.filter f t)).
  { apply List.Forall_forall. intros y Hy. apply filter_In in Hy as [Hy _].
    rewrite List.Forall_forall in H. now apply H. }
  destruct (f x); [exact Hf|].
  destruct (List.filter f t) as [|y t']; [exact I|].
  now inversion Hf.
Qed.

Lemma tail_all_snoc {A} (P : A -> Prop) (l : list A) (x : A) :
  l <> [] -> tail_all P l -> P x -> tail_all P (l ++ [x]).
Proof.
  destruct l as [|y t]; [contradiction|]. cbn [tail_all app].
  intros _ H Hx. apply Forall_app. split; [exact H|now constructor].
Qed.

Lemma truthy_nonempty (s : str) : truthy s = true <-> s <> [].
Proof. unfold truthy. destruct s; cbn; split; congruence. Qed.

Lemma chunk_fold_heads lines :
  Forall (fun l => l <> [] /\ strip l = l) lines ->
  forall chunks buffer,
    tail_all (fun c => SplitClauses.starts_clause c = true) chunks ->
    (chunks <> [] ->
     exists l rest,
       buffer = l ++ rest /\ l <> [] /\ strip l = l
       /\ SplitClauses.starts_clause l = true) ->
    forall chunks' buffer',
      fold_left SplitClauses.chunk_step lines (chunks, buffer)
      = (chunks', buffer') ->
      tail_all (fun c => SplitClauses.starts_clause c = true) chunks'
      /\ (chunks' <> [] ->
          exists l rest,
            buffer' = l ++ rest /\ l <> [] /\ strip l = l
            /\ SplitClauses.starts_clause l = true).
Proof.
  induction 1 as [|line lines [Hn Hs] _ IH]; intros chunks buffer T B chunks' buffer' E.
  - cbn [fold_left] in E. injection E as <- <-. now split.
  - cbn [fold_left] in E. revert E. unfold SplitClauses.chunk_step at 2.
    destruct (SplitClauses.starts_clause line) eqn:Sc;
      [destruct (truthy buffer) eqn:Tb|]; cbn [andb].
    + apply IH.
      * destruct chunks as [|c0 cs]; [apply List.Forall_nil|].
        apply tail_all_snoc; [discriminate|exact T|].
        destruct B as (l & rest & -> & Hl & Hsl & Hcl); [discriminate|].
        rewrite (strip_app_line l rest Hl Hsl).
        now apply starts_clause_extends.
      * intros _. exists line, []. rewrite app_nil_r. auto.
    + apply IH; [exact T|].
      intros Hc. destruct (B Hc) as (l & rest & -> & Hl).
      exists l, (rest ++ u " " ++ line). now rewrite <- app_assoc.
    + apply IH; [exact T|].
      intros Hc. destruct (B Hc) as (l & rest & -> & Hl).
      exists l, (rest ++ u " " ++ line). now rewrite <- app_assoc.
Qed.

(** X21: in the list that [split_into_chunks] returns, every chunk after the
    first begins with a clause heading. *)
Theorem chunks_begin_with_headings (text : str) :
  tail_all (fun c => SplitClauses.starts_clause c = true)
           (SplitClauses.split_into_chunks text).
Proof.
  unfold SplitClauses.split_into_chunks. cbv zeta.
  match goal with
  | |- context [fold_left _ ?l _] => set (lines := l)
  end.
  assert (Hl : Forall (fun l => l <> [] /\ strip l = l) lines).
  { apply List.Forall_forall. intros l Hin.
    destruct (chunk_lines text l Hin) as (H1 & H2 & _). now split. }
  destruct (fold_left SplitClauses.chunk_step lines ([], [])) as [chunks buffer] eqn:E.
  destruct (chunk_fold_heads lines Hl [] [] I (fun H => False_ind _ (H eq_refl))
              chunks buffer E) as [T B].
  apply tail_all_filter.
  destruct (truthy buffer); [|exact T].
  destruct chunks as [|c0 cs]; [apply List.Forall_nil|].
  apply tail_all_snoc; [discriminate|exact T|].
  destruct B as (l & rest & -> & Hn & Hs & Hc); [discriminate|].
  rewrite (strip_app_line l rest Hn Hs). now apply starts_clause_extends.
Qed.

Lemma one_line_app (a b : str) : one_line a -> one_line b -> one_line (a ++ b).
Proof. unfold one_line. intros Ha Hb H. apply in_app_or in H. tauto. Qed.

Lemma one_line_strip (s : str) : one_line s -> one_line (strip s).
Proof. unfold one_line. intros H Hin. apply H. now apply strip_In. Qed.

Lemma chunk_fold_lines lines :
  Forall one_line lines ->
  forall chunks buffer,
    Forall (fun c => strip c = c /\ one_line c) chunks -> one_line buffer ->
    forall chunks' buffer',
      fold_left SplitClauses.chunk_step lines (chunks, buffer)
      = (chunks', buffer') ->
      Forall (fun c => strip c = c /\ one_line c) chunks' /\ one_line buffer'.
Proof.
  induction 1 as [|line lines Hl _ IH]; intros chunks buffer C B chunks' buffer' E.
  - cbn [fold_left] in E. injection E as <- <-. now split.
  - cbn [fold_left] in E. revert E. unfold SplitClauses.chunk_step at 2.
    assert (Hsp : one_line (u " ")) by (intros [H|[]]; discriminate).
    destruct (SplitClauses.starts_clause line && truthy buffer).
    + apply IH; [|exact Hl].
      apply Forall_app. split; [exact C|]. constructor; [|constructor].
      split; [apply strip_idem|now apply one_line_strip].
    + apply IH; [exact C|]. repeat apply one_line_app; assumption.
Qed.

(** X22: every chunk that [split_into_chunks] returns is longer than 40
    characters, holds no line break and has no blank at either end. *)
Theorem chunks_are_clean_lines (text : str) :
  Forall (fun c => (40 < length c)%nat /\ one_line c /\ strip c = c)
         (SplitClauses.split_into_chunks text).
Proof.
  unfold SplitClauses.split_into_chunks. cbv zeta.
  match goal with
  | |- context [fold_left _ ?l _] => set (lines := l)
  end.
  assert (Hl : Forall one_line lines).
  { apply List.Forall_forall. intros l Hin.
    now destruct (chunk_lines text l Hin) as (_ & _ & H). }
  destruct (fold_left SplitClauses.chunk_step lines ([], [])) as [chunks buffer] eqn:E.
  destruct (chunk_fold_lines lines Hl [] [] (List.Forall_nil _) (fun H => H)
              chunks buffer E) as [C B].
  assert (C' : Forall (fun c => strip c = c /\ one_line c)
                      (if truthy buffer then chunks ++ [strip buffer] else chunks)).
  { destruct (truthy buffer); [|exact C].
    apply Forall_app. split; [exact C|]. constructor; [|constructor].
    split; [apply strip_idem|now apply one_line_strip]. }
  apply List.Forall_forall. intros c Hin. apply filter_In in Hin as [Hin Hlen].
  rewrite List.Forall_forall in C'. destruct (C' c Hin) as [H1 H2].
  apply Nat.ltb_lt in Hlen. auto.
Qed.

Lemma join_snoc (sep : str) (ps : list str) (p : str) :
  ps <> [] -> join sep (ps ++ [p]) = join sep ps ++ sep ++ p.
Proof.
  induction ps as [|q ps IH]; [contradiction|]. intros _.
  destruct ps as [|q' ps]; [reflexivity|].
  change (join sep ((q :: q' :: ps) ++ [p]))
    with (q ++ sep ++ join sep ((q' :: ps) ++ [p])).
  rewrite IH by discriminate.
  change (join sep (q :: q' :: ps)) with (q ++ sep ++ join sep (q' :: ps)).
  now rewrite <- !app_assoc.
Qed.

Lemma made_of_single ch :
  made_of [ch] (SplitClauses.Clause (SplitClauses.source_file ch)
                                    (chunk_text ch) None).
Proof.
  split; [discriminate|]. split; [|reflexivity]. now constructor.
Qed.

Lemma fix_fold_groups chunks :
  forall fixed current,
    fold_left SplitClauses.fix_step chunks ([], None) = (fixed, current) ->
    exists groups gcur,
      concat groups ++ gcur = List.filter nonblank chunks
      /\ Forall2 made_of groups fixed
      /\ match current with
         | Some c => made_of gcur c
         | None => gcur = []
         end.
Proof.
  induction chunks as [|ch chunks IH] using rev_ind; intros fixed current E.
  - injection E as <- <-. exists [], []. split; [reflexivity|].
    split; [constructor|reflexivity].
  - rewrite fold_left_app in E. cbn [fold_left] in E.
    destruct (fold_left SplitClauses.fix_step chunks ([], None))
      as [fixed0 current0] eqn:E0.
    destruct (IH _ _ eq_refl) as (groups & gcur & Hc & Hf & Hcur).
    rewrite List.filter_app. cbn [List.filter]. rewrite <- Hc.
    unfold SplitClauses.fix_step in E. fold (chunk_text ch) in E.
    unfold nonblank.
    destruct (truthy (chunk_text ch)) eqn:Tt; cbn [negb] in E.
    2:{ injection E as <- <-. exists groups, gcur.
        rewrite app_nil_r. auto. }
    destruct (SplitClauses.starts_clause (chunk_text ch)).
    { injection E as <- <-. destruct current0 as [c|].
      - exists (groups ++ [gcur]), [ch].
        rewrite concat_app. cbn [concat]. rewrite app_nil_r, <- app_assoc.
        split; [reflexivity|]. split; [|apply made_of_single].
        apply Forall2_app; [exact Hf|]. constructor; [exact Hcur|constructor].
      - subst gcur. exists groups, [ch]. rewrite app_nil_r.
        split; [reflexivity|]. split; [exact Hf|apply made_of_single]. }
    destruct current0 as [c|].
    + destruct (Str.eqb (SplitClauses.clause_source_file c)
                        (SplitClauses.source_file ch)) eqn:Ef.
      * injection E as <- <-. apply eqb_eq in Ef.
        exists groups, (gcur ++ [ch]). rewrite app_assoc.
        split; [reflexivity|]. split; [exact Hf|].
        destruct Hcur as (Hn & Hs & Ht). split; [|split].
        -- destruct gcur; discriminate.
        -- apply Forall_app. split; [exact Hs|]. constructor; [|constructor].
           now symmetry.
        -- cbn [SplitClauses.clause_text]. rewrite Ht, map_app. cbn [map].
           rewrite join_snoc; [reflexivity|].
           destruct gcur; [contradiction|discriminate].
      * injection E as <- <-.
        exists (groups ++ [gcur]), [ch].
        rewrite concat_app. cbn [concat]. rewrite app_nil_r, <- app_assoc.
        split; [reflexivity|]. split; [|apply made_of_single].
        apply Forall2_app; [exact Hf|]. constructor; [exact Hcur|constructor].
    + injection E as <- <-. subst gcur.
      exists (groups ++ [[ch]]), []. rewrite concat_app. cbn [concat].
      rewrite !app_nil_r. split; [reflexivity|]. split; [|reflexivity].
      apply Forall2_app; [exact Hf|]. constructor; [|constructor].
      split; [discriminate|]. split; [|reflexivity]. now constructor.
Qed.

(** X23: [fix_broken_clauses] cuts the chunks that are not blank into
    consecutive runs, one per clause it returns, in order: every clause is
    made of the chunks of its run, which are all of the file of the clause,
    with their stripped texts joined by single blanks. No chunk is lost or
    repeated, and no clause mixes two files. *)
Theorem fix_broken_clauses_runs (chunks : list SplitClauses.chunk) :
  exists groups,
    concat groups = List.filter nonblank chunks
    /\ Forall2 made_of groups (SplitClauses.fix_broken_clauses chunks).
Proof.
  unfold SplitClauses.fix_broken_clauses.
  destruct (fold_left SplitClauses.fix_step chunks ([], None))
    as [fixed current] eqn:E.
  destruct (fix_fold_groups chunks fixed current E)
    as (groups & gcur & Hc & Hf & Hcur).
  destruct current as [c|].
  - exists (groups ++ [gcur]). rewrite concat_app. cbn [concat].
    rewrite app_nil_r. split; [exact Hc|].
    apply Forall2_app; [exact Hf|]. constructor; [exact Hcur|constructor].
  - subst gcur. rewrite app_nil_r in Hc. now exists groups.
Qed.

Lemma fix_fold_metadata chunks :
  forall fixed current,
    fold_left SplitClauses.fix_step chunks ([], None) = (fixed, current) ->
    exists metas rest,
      fixed = metas ++ rest
      /\ Forall (fun c => is_metadata c
                          /\ SplitClauses.starts_clause
                               (SplitClauses.clause_text c) = false) metas
      /\ Forall (fun c => SplitClauses.clause_type c = None) rest
      /\ match current with
         | None => rest = []
         | Some c =>
           SplitClauses.clause_type c = None
           /\ match rest with
              | [] => SplitClauses.starts_clause (SplitClauses.clause_text c)
                      = true
              | c0 :: _ =>
                SplitClauses.starts_clause (SplitClauses.clause_text c0) = true
              end
         end.
Proof.
  induction chunks as [|ch chunks IH] using rev_ind; intros fixed current E.
  - injection E as <- <-. exists [], []. repeat split; constructor.
  - rewrite fold_left_app in E. cbn [fold_left] in E.
    destruct (fold_left SplitClauses.fix_step chunks ([], None))
      as [fixed0 current0] eqn:E0.
    destruct (IH _ _ eq_refl) as (metas & rest & -> & Hm & Hr & Hcur).
    unfold SplitClauses.fix_step in E. fold (chunk_text ch) in E.
    destruct (truthy (chunk_text ch)); cbn [negb] in E.
    2:{ injection E as <- <-. exists metas, rest. auto. }
    destruct (SplitClauses.starts_clause (chunk_text ch)) eqn:Sc.
    { injection E as <- <-. destruct current0 as [c|].
      - destruct Hcur as [Hty Hh].
        exists metas, (rest ++ [c]). rewrite app_assoc.
        split; [reflexivity|]. split; [exact Hm|]. split.
        + apply Forall_app. split; [exact Hr|]. now constructor.
        + split; [reflexivity|]. destruct rest; exact Hh.
      - subst rest. exists metas, [].
        split; [reflexivity|]. split; [exact Hm|]. split; [constructor|].
        split; [reflexivity|exact Sc]. }
    destruct current0 as [c|].
    + destruct Hcur as [Hty Hh].
      destruct (Str.eqb (SplitClauses.clause_source_file c)
                        (SplitClauses.source_file ch)).
      * injection E as <- <-. exists metas, rest.
        split; [reflexivity|]. split; [exact Hm|]. split; [exact Hr|].
        split; [exact Hty|]. destruct rest; [|exact Hh].
        cbn [SplitClauses.clause_text]. now apply starts_clause_extends.
      * injection E as <- <-. exists metas, (rest ++ [c]). rewrite app_assoc.
        split; [reflexivity|]. split; [exact Hm|]. split.
        -- apply Forall_app. split; [exact Hr|]. now constructor.
        -- split; [reflexivity|]. destruct rest; exact Hh.
    + injection E as <- <-. subst rest. rewrite app_nil_r.
      exists (metas ++ [SplitClauses.Clause (SplitClauses.source_file ch)
                          (chunk_text ch) (Some (u "metadata"))]), [].
      rewrite app_nil_r. split; [reflexivity|]. split; [|split; constructor].
      apply Forall_app. split; [exact Hm|]. constructor; [|constructor].
      split; [reflexivity|exact Sc].
Qed.

(** X24: the entries tagged as metadata come first in the result of
    [fix_broken_clauses] and none of them begins with a clause heading; the
    entries after them carry no tag, and the first of them begins with a
    clause heading. *)
Theorem metadata_comes_first (chunks : list SplitClauses.chunk) :
  exists metas rest,
    SplitClauses.fix_broken_clauses chunks = metas ++ rest
    /\ Forall (fun c => is_metadata c
                        /\ SplitClauses.starts_clause
                             (SplitClauses.clause_text c) = false) metas
    /\ Forall (fun c => SplitClauses.clause_type c = None) rest
    /\ match rest with
       | [] => True
       | c :: _ =>
         SplitClauses.starts_clause (SplitClauses.clause_text c) = true
       end.
Proof.
  unfold SplitClauses.fix_broken_clauses.
  destruct (fold_left SplitClauses.fix_step chunks ([], None))
    as [fixed current] eqn:E.
  destruct (fix_fold_metadata chunks fixed current E)
    as (metas & rest & -> & Hm & Hr & Hcur).
  destruct current as [c|].
  - destruct Hcur as [Hty Hh]. exists metas, (rest ++ [c]).
    rewrite app_assoc. split; [reflexivity|]. split; [exact Hm|]. split.
    + apply Forall_app. split; [exact Hr|]. now constructor.
    + destruct rest; exact Hh.
  - subst rest. exists metas, []. repeat split; [exact Hm|constructor].
Qed.

(** ** [split_law.py] *)

Section Law.

Variable normalize_NFKC : str -> str.
Variable split_articles : str -> list str.

Lemma slice_length {A} (l : list A) i j : (length (slice l i j) <= j - i)%nat.
Proof. unfold slice. rewrite length_firstn. lia. Qed.

Lemma law_chunks_bounded (min_len max_chars : Z) (Hmax : 0 < max_chars) parts :
  forall acc,
    Forall (fun c => min_len <= Z.of_nat (length c) <= max_chars
                     /\ strip c = c) acc ->
    exists chunks,
      SplitLaw.law_chunks parts min_len max_chars acc = Ok chunks
      /\ Forall (fun c => min_len <= Z.of_nat (length c) <= max_chars
                          /\ strip c = c) chunks.
Proof.
  induction parts as [|p parts IH]; intros acc Hacc; cbn [SplitLaw.law_chunks].
  - now exists acc.
  - cbv zeta. destruct (Z.of_nat (length (strip p)) <? min_len) eqn:E1.
    + now apply IH.
    + apply Z.ltb_ge in E1.
      destruct (Z.of_nat (length (strip p)) <=? max_chars) eqn:E2.
      * apply Z.leb_le in E2. apply IH. apply Forall_app. split; [exact Hacc|].
        constructor; [|constructor]. split; [lia|apply strip_idem].
      * unfold range0.
        replace (max_chars =? 0) with false by (symmetry; apply Z.eqb_neq; lia).
        replace (max_chars <? 0) with false by (symmetry; apply Z.ltb_ge; lia).
        rsimpl. apply IH. apply Forall_app. split; [exact Hacc|].
        apply List.Forall_forall. intros c Hc.
        apply filter_In in Hc as [Hc Hlen]. apply Z.leb_le in Hlen.
        apply in_map_iff in Hc as (i & <- & _).
        split; [|apply strip_idem]. split; [exact Hlen|].
        pose proof (strip_length (slice (strip p) i (i + Z.to_nat max_chars))).
        pose proof (slice_length (strip p) i (i + Z.to_nat max_chars)).
        lia.
Qed.

(** X25: with a positive [max_chars], [split_law_by_article] returns, and
    every chunk it returns has between [min_len] and [max_chars]
    characters and no blank at either end. *)
Theorem law_chunks_within_bounds
        (text : str) (min_len max_chars : Z) (Hmax : 0 < max_chars) :
  exists chunks,
    SplitLaw.split_law_by_article normalize_NFKC split_articles
      text min_len max_chars = Ok chunks
    /\ Forall (fun c => min_len <= Z.of_nat (length c) <= max_chars
                        /\ strip c = c) chunks.
Proof.
  unfold SplitLaw.split_law_by_article. cbv zeta.
  apply law_chunks_bounded; [exact Hmax|constructor].
Qed.

End Law.

(** ** [clauses.py] and [utils.py] *)

Lemma generate_contextual_clauses_eq contexts :
  Clauses.generate_contextual_clauses contexts
  = match active_templates contexts with
    | [] => []
    | _ =>
      nl ++ nl ++ u "**ADDITIONAL CONTEXT-SPECIFIC CLAUSES:**"
         ++ concat
              (map (fun t =>
                      nl ++ u "**" ++ Clauses.title t ++ u ":**" ++ nl
                         ++ join nl (map (fun c => u "- " ++ c) (Clauses.clauses t)))
                   (active_templates contexts))
    end.
Proof. reflexivity. Qed.

Lemma generate_nil contexts :
  Clauses.generate_contextual_clauses contexts = []
  <-> active_templates contexts = [].
Proof.
  rewrite generate_contextual_clauses_eq.
  destruct (active_templates contexts) as [|t ts]; [tauto|].
  split; [|discriminate]. intros H. exfalso. revert H.
  apply app_nonempty. discriminate.
Qed.

Lemma active_templates_nil contexts :
  active_templates contexts = []
  <-> forall ctx, In (ctx, true) contexts ->
        Clauses.templates_get Clauses.CONTEXTUAL_CLAUSE_TEMPLATES ctx = None.
Proof.
  unfold active_templates. induction contexts as [|[k b] contexts IH].
  - split; [intros _ ctx []|reflexivity].
  - cbn [flat_map]. split.
    + intros H. apply app_eq_nil in H as [H1 H2]. intros ctx [E|Hin].
      * injection E as -> ->.
        destruct (Clauses.templates_get _ ctx); [discriminate|reflexivity].
      * now apply IH.
    + intros H. rewrite (proj2 IH) by (intros ctx Hin; apply H; now right).
      rewrite app_nil_r. destruct b; [|reflexivity].
      now rewrite (H k (or_introl eq_refl)).
Qed.

Lemma active_templates_In contexts ctx t :
  In (ctx, true) contexts ->
  Clauses.templates_get Clauses.CONTEXTUAL_CLAUSE_TEMPLATES ctx = Some t ->
  In t (active_templates contexts).
Proof.
  intros Hin Ht. unfold active_templates. apply in_flat_map.
  exists (ctx, true). split; [exact Hin|]. rewrite Ht. now left.
Qed.

Lemma occurs_app_r w a s : occurs w s -> occurs w (a ++ s).
Proof.
  intros (pre & post & ->). exists (a ++ pre), post. now rewrite <- app_assoc.
Qed.

Lemma occurs_app_l w s b : occurs w s -> occurs w (s ++ b).
Proof.
  intros (pre & post & ->). exists pre, (post ++ b). now rewrite <- !app_assoc.
Qed.

Lemma occurs_concat w s ss : In s ss -> occurs w s -> occurs w (concat ss).
Proof.
  induction ss as [|x ss IH]; [easy|]. cbn [concat]. intros [->|Hin] Hw.
  - now apply occurs_app_l.
  - apply occurs_app_r. now apply IH.
Qed.

Lemma keys_have_templates :
  forallb (fun kp : str * list str =>
             match Clauses.templates_get Clauses.CONTEXTUAL_CLAUSE_TEMPLATES
                                         (fst kp) with
             | Some _ => true
             | None => false
             end)
          Config.CONTEXT_PATTERNS = true.
Proof. vm_compute. reflexivity. Qed.

Section Contexts.

Variable lower : str -> str.

(** X26: the contextual clauses made from the contexts detected in a text
    are the empty text exactly when no keyword of [CONTEXT_PATTERNS] occurs
    in the lowered text: every context that can be detected has a
    template. *)
Theorem contextual_clauses_follow_keywords (text : str) :
  Clauses.generate_contextual_clauses (Utils.detect_lease_context lower text) = []
  <-> forall key words word,
        In (key, words) Config.CONTEXT_PATTERNS -> In word words ->
        contains (lower text) word = false.
Proof.
  rewrite generate_nil, active_templates_nil.
  unfold Utils.detect_lease_context. cbv zeta.
  pose proof keys_have_templates as K. rewrite forallb_forall in K.
  split.
  - intros H key words word Hin Hw.
    destruct (contains (lower text) word) eqn:E; [|reflexivity].
    specialize (K _ Hin). cbn [fst] in K.
    rewrite (H key) in K; [discriminate|].
    apply in_map_iff. exists (key, words). split; [|exact Hin].
    f_equal. apply existsb_exists. now exists word.
  - intros H ctx Hin. apply in_map_iff in Hin as ([key words] & E & Hin).
    injection E as -> E. apply existsb_exists in E as (word & Hw & E).
    rewrite (H _ _ _ Hin Hw) in E. discriminate.
Qed.

End Contexts.

(** X27: for every active context that has a template, the text of
    [generate_contextual_clauses] holds the title of the template between
    double asterisks and every clause of the template as a bullet. *)
Theorem active_context_is_listed
        (contexts : list (str * bool)) (ctx : str) (t : Clauses.template)
        (Hactive : In (ctx, true) contexts)
        (Htemplate :
           Clauses.templates_get Clauses.CONTEXTUAL_CLAUSE_TEMPLATES ctx = Some t) :
  occurs (u "**" ++ Clauses.title t ++ u ":**")
         (Clauses.generate_contextual_clauses contexts)
  /\ forall c, In c (Clauses.clauses t) ->
       occurs (u "- " ++ c) (Clauses.generate_contextual_clauses contexts).
Proof.
  pose proof (active_templates_In contexts ctx t Hactive Htemplate) as Hin.
  rewrite generate_contextual_clauses_eq.
  destruct (active_templates contexts) as [|t0 ts] eqn:E; [destruct Hin|].
  rewrite <- E in *. clear E.
  set (section := fun t : Clauses.template => _).
  assert (Hs : In (section t) (map section (active_templates contexts)))
    by now apply in_map.
  split.
  - do 3 apply occurs_app_r. apply (occurs_concat _ _ _ Hs).
    unfold section. apply occurs_app_r.
    exists [], (nl ++ join nl (map (fun c => u "- " ++ c) (Clauses.clauses t))).
    cbn [app]. now rewrite <- !app_assoc.
  - intros c Hc. do 3 apply occurs_app_r. apply (occurs_concat _ _ _ Hs).
    unfold section. do 5 apply occurs_app_r.
    destruct (join_In nl (map (fun c => u "- " ++ c) (Clauses.clauses t))
                      (u "- " ++ c)) as (pre & post & ->).
    + apply in_map_iff. now exists c.
    + now exists pre, post.
Qed.

(** ** Runs of the further properties *)

(** The theorem at a sentence without digits. *)
Lemma text_without_digit_passes_witness :
  extract_and_validate_dates ref_2026_01_15 (u "Rent is due monthly.") false
  = Ok (true, [], []).
Proof.
  apply text_without_digit_passes. intros c Hin.
  assert (F : forallb (fun c => negb (isdigit c)) (u "Rent is due monthly.")
              = true) by (vm_compute; reflexivity).
  rewrite forallb_forall in F. apply negb_true_iff. now apply F.
Defined.

(** The theorem at a date between blanks. *)
Lemma parse_date_ignores_blanks_witness :
  parse_date (u "  " ++ u "23/02/2026" ++ u " ") = parse_date (u "23/02/2026").
Proof.
  apply parse_date_ignores_blanks; vm_compute; reflexivity.
Defined.

(** The theorem at a date six years before the reference date. *)
Lemma get_validation_suggestions_cases_witness :
  (parse_date (u "01/01/2020") = Ok None
   /\ get_validation_suggestions ref_2026_01_15 (u "01/01/2020")
      = Ok [format_hint])
  \/ exists a,
       parse_date (u "01/01/2020") = Ok (Some a)
       /\ get_validation_suggestions ref_2026_01_15 (u "01/01/2020")
          = Ok (if micros a <? micros ref_2026_01_15 - 365 * day_us
                then [past_hint a] else []).
Proof.
  apply get_validation_suggestions_cases.
  - vm_compute. split; [reflexivity|discriminate].
  - eexists. vm_compute. reflexivity.
Defined.

(** The theorem at a lease of one year. *)
Lemma validate_date_range_accepts_witness :
  @nil N = []
  /\ exists ds de,
       parse_date (u "01/02/2026") = Ok (Some ds)
       /\ parse_date (u "01/02/2027") = Ok (Some de)
       /\ calendar_date ds /\ calendar_date de
       /\ 1900 <= year ds <= 2100 /\ 1900 <= year de <= 2100
       /\ (false = false -> Datetime.lt ds ref_2026_01_15 = false)
       /\ toordinal ds < toordinal de
       /\ 1 <= toordinal de - toordinal ds <= 36500.
Proof.
  apply (validate_date_range_accepts ref_2026_01_15 (u "01/02/2026")
           (u "01/02/2027") false 1 36500 []).
  vm_compute. reflexivity.
Defined.

(** The theorem at a range whose end is the start. *)
Lemma validate_date_range_never_too_short_witness :
  too_short (u "End date 01/02/2026 must be after start date 01/02/2026. The lease period goes backward in time.")
  = false.
Proof.
  apply (validate_date_range_never_too_short ref_2026_01_15 (u "01/02/2026")
           (u "01/02/2026") false 1 36500 false).
  - lia.
  - vm_compute. reflexivity.
Defined.

(** The theorem at a sentence with a date after the reference date. *)
Lemma strict_scan_implies_lenient_scan_witness :
  exists fs,
    extract_and_validate_dates ref_2026_01_15 (u "The lease starts on 01/02/2026.")
                               true
    = Ok (true, [], fs).
Proof.
  eexists. apply strict_scan_implies_lenient_scan. vm_compute. reflexivity.
Defined.

(** The theorem at a date of 2026. *)
Lemma quick_is_valid_date_witness :
  exists b,
    Convenience.is_valid_date (u "23/02/2026") = Ok b
    /\ (b = true
        <-> exists a,
              parse_date (u "23/02/2026") = Ok (Some a)
              /\ 1900 <= year a <= 2100).
Proof.
  apply quick_is_valid_date. eexists. vm_compute. reflexivity.
Defined.

(** The theorem at a date with the month of February. *)
Lemma arabic_month_lookup_misses_keys_witness :
  Forall arabic_range (u "فبراير")
  /\ ~ In (u "فبراير") unreachable_months
  /\ Forall (fun k => exists n, months_get ARABIC_MONTHS k = Some n)
            unreachable_months.
Proof.
  eapply (arabic_month_lookup_misses_keys (u "23 فبراير 2026")).
  - vm_compute. reflexivity.
  - vm_compute. reflexivity.
Defined.

(** The theorem at 23 February 2026. *)
Lemma parse_date_strftime_witness :
  parse_date (strftime_dmY (mkdt 2026 2 23 0 0 0 0))
  = Ok (Some (mkdt 2026 2 23 0 0 0 0)).
Proof.
  apply parse_date_strftime.
  - vm_compute. repeat split; discriminate.
  - vm_compute. discriminate.
Defined.

(** The theorem at a create request that names 30 February. *)
Lemma invalid_request_date_stops_the_operation_witness :
  exists msg contract a st',
    get_chat_response (scripted [Some (reply (u "create")); Some lease])
                      read_action letter ref_2026_01_15
                      (u "Create a lease that starts on 30/02/2026")
                      None default_session empty_state
    = (Ok (msg, contract, a), st')
    /\ is_error_message (Some msg) = true
    /\ a <> updated
    /\ ncalls st' = S (ncalls empty_state)
    /\ contract_memory st'
       = sync None default_session (contract_memory empty_state).
Proof.
  eapply (invalid_request_date_stops_the_operation
            (scripted [Some (reply (u "create")); Some lease])
            read_action letter ref_2026_01_15
            (u "Create a lease that starts on 30/02/2026")
            None default_session empty_state).
  - left. vm_compute. reflexivity.
  - vm_compute. reflexivity.
Defined.

(** The theorem at a caller's contract of three blanks. *)
Lemma blank_contract_is_ignored_witness :
  get_chat_response (scripted [Some (reply (u "edit")); Some lease])
                    read_action letter ref_2026_01_15
                    edit_request (Some (u "   ")) default_session lease_state
  = get_chat_response (scripted [Some (reply (u "edit")); Some lease])
                      read_action letter ref_2026_01_15
                      edit_request None default_session lease_state.
Proof.
  apply blank_contract_is_ignored. vm_compute. reflexivity.
Defined.

(** The theorem at a backend that answers no call. *)
Lemma router_outage_witness :
  let act := active None default_session (contract_memory lease_state) in
  get_chat_response (scripted []) read_action letter ref_2026_01_15
                    edit_request None default_session lease_state
  = (Ok (match _detect_language letter edit_request with
         | arabic => u "عذراً، خطأ في معالجة الطلب"
         | english => u "Sorry, error processing request"
         end,
         act,
         match act with Some _ => unchanged | None => none end),
     State (sync None default_session (contract_memory lease_state))
           (S (S (ncalls lease_state))) (invoked lease_state)).
Proof.
  apply (router_outage (scripted []) read_action letter ref_2026_01_15
           edit_request None default_session lease_state); reflexivity.
Defined.

(** The theorem at a text of two lines, cut at six characters. *)
Lemma law_chunks_within_bounds_witness :
  exists chunks,
    SplitLaw.split_law_by_article (fun s => s) (fun s => [s])
      (u "Article 1 of the law") 2 6 = Ok chunks
    /\ Forall (fun c => 2 <= Z.of_nat (length c) <= 6 /\ strip c = c) chunks.
Proof.
  apply (law_chunks_within_bounds (fun s => s) (fun s => [s])
           (u "Article 1 of the law") 2 6).
  lia.
Defined.

(** The theorem at the context of a furnished apartment. *)
Lemma active_context_is_listed_witness :
  exists t,
    Clauses.templates_get Clauses.CONTEXTUAL_CLAUSE_TEMPLATES (u "furnished")
    = Some t
    /\ occurs (u "**" ++ Clauses.title t ++ u ":**")
              (Clauses.generate_contextual_clauses [(u "furnished", true)])
    /\ forall c, In c (Clauses.clauses t) ->
         occurs (u "- " ++ c)
                (Clauses.generate_contextual_clauses [(u "furnished", true)]).
Proof.
  eexists. split; [vm_compute; reflexivity|].
  apply (active_context_is_listed [(u "furnished", true)] (u "furnished")).
  - left. reflexivity.
  - vm_compute. reflexivity.
Defined.

(** * The gate on stored contracts *)

Lemma Forall2_In_left {A B : Type} (R : A -> B -> Prop) (l : list A)
      (l' : list B) (x : A) :
  Forall2 R l l' -> In x l -> exists y, In y l' /\ R x y.
Proof.
  induction 1 as [|a b l l' Hab _ IH]; [intros []|].
  intros [<-|Hin].
  - exists b. split; [now left|exact Hab].
  - destruct (IH Hin) as (y & Hy & Ry). exists y. split; [now right|exact Ry].
Qed.

(** What [validate_date_range] has checked of a range it accepts. *)
Lemma validate_date_range_accepted reference_date s e allow lo hi msg :
  validate_date_range reference_date s e allow lo hi = Ok (true, msg) ->
  msg = []
  /\ exists ds de,
       parse_date s = Ok (Some ds) /\ parse_date e = Ok (Some de)
       /\ (allow = false -> Datetime.lt ds reference_date = false)
       /\ toordinal ds < toordinal de.
Proof.
  unfold validate_date_range.
  destruct (validate_date s) as [[[v1 m1] p1]|] eqn:Es; rsimpl; [|discriminate].
  destruct v1; [|destruct p1; discriminate].
  apply validate_date_accepts in Es as (_ & ds & -> & Ps & Cs & _).
  destruct (validate_date e) as [[[v2 m2] p2]|] eqn:Ee; rsimpl; [|discriminate].
  destruct v2; [|destruct p2; discriminate].
  apply validate_date_accepts in Ee as (_ & de & -> & Pe & Ce & _).
  destruct (negb allow && Datetime.lt ds reference_date) eqn:Past; [discriminate|].
  unfold Datetime.le.
  destruct (Datetime.lt ds de) eqn:L; cbn [negb]; [|discriminate].
  destruct (sub_days de ds <? lo); [discriminate|].
  destruct (hi <? sub_days de ds); [discriminate|].
  intros E. apply Ok_pair in E as [_ <-]. split; [reflexivity|].
  exists ds, de. split; [exact Ps|]. split; [exact Pe|].
  split; [|now apply lt_calendar].
  intros ->. exact Past.
Qed.

(** What the scan has checked of a text that passes it: every date-like
    match and every range phrase of the text. *)
Lemma passes_scan_matches reference_date text msg fs :
  extract_and_validate_dates reference_date text false = Ok (true, msg, fs) ->
  (forall m, In m (date_matches text) -> valid_date_match m)
  /\ (forall m, In m (range_matches text) -> valid_range_match reference_date m).
Proof.
  destruct (scan_patterns_spec date_patterns text
              (fun p m Hp Hm => date_matches_parsable text m
                 (proj2 (in_flat_map _ _ _) (ex_intro _ p (conj Hp Hm)))) [] [])
    as (fs0 & F & E).
  unfold extract_and_validate_dates. rewrite E. rsimpl. cbn [app].
  destruct (date_errors fs0) as [|e1 es] eqn:D; [|discriminate].
  destruct (scan_ranges_spec reference_date false range_patterns text
              (fun p m Hp Hm => range_matches_groups text m
                 (proj2 (in_flat_map _ _ _) (ex_intro _ p (conj Hp Hm)))) [])
    as (os & R & ->).
  rsimpl. cbn [app].
  destruct (range_errors os) as [|r1 rs] eqn:Er; [|discriminate].
  intros _. split.
  - intros m Hm. destruct (Forall2_In_left _ _ _ _ F Hm) as (f & Hf & C).
    pose proof (proj1 (date_errors_nil fs0) D f Hf) as Hv.
    destruct (checked_valid _ _ C Hv) as (He & a & Hp).
    destruct C as [_ C]. rewrite Hv, He, Hp in C. now exists a.
  - intros m Hm. destruct (Forall2_In_left _ _ _ _ R Hm) as (o & Ho & C).
    pose proof (proj1 (range_errors_nil os) Er o Ho) as ->.
    destruct C as (s & e & v & msg0 & Gs & Ge & V & Hv).
    destruct v; [|discriminate].
    destruct (validate_date_range_accepted _ _ _ _ _ _ _ V)
      as (-> & ds & de & Ps & Pe & Past & Lt).
    exists s, e, ds, de. auto 10.
Qed.

Section Gate.

Variable backend : nat -> option str.
Variable json_action : str -> option str.
Variable isalpha : N -> bool.
Variable reference_date : datetime.

(** C1, as the code has it: when the router answers "updated", the
    contract it returns is the one now stored for the session, and it passes
    the date scan. So every date-like match of the contract is a valid
    date, and every range phrase that the scan detects in it is a valid
    range: its two dates parse, the start is not before the reference date
    and the end is later than the start. A range in a wording that the
    range patterns do not match is not examined. *)
Theorem updated_contract_passes_scan
        (user_input : str) (current_contract : option str) (session_id : str)
        (st st' : state) (msg : str) (contract : option str)
        (H : get_chat_response backend json_action isalpha reference_date
               user_input current_contract session_id st
             = (Ok (msg, contract, updated), st')) :
  exists t,
    contract = Some t
    /\ contract_memory st' !! session_id = Some t
    /\ (exists m fs,
          extract_and_validate_dates reference_date t false = Ok (true, m, fs))
    /\ (forall m, In m (date_matches t) -> valid_date_match m)
    /\ (forall m, In m (range_matches t) -> valid_range_match reference_date m).
Proof.
  rewrite get_chat_response_eq in H.
  destruct (dispatch_cases backend isalpha reference_date user_input session_id
              (_detect_language isalpha user_input)
              (active current_contract session_id (contract_memory st))
              (intent_of backend json_action (ncalls st))
              (State (sync current_contract session_id (contract_memory st))
                     (S (ncalls st)) (invoked st)))
    as (msg0 & c0 & a0 & st0 & E & R).
  rewrite E in H. injection H as -> -> -> ->.
  destruct R as (t & -> & Hm & P & _).
  exists t. split; [reflexivity|]. split; [rewrite Hm; apply lookup_insert_eq|].
  split; [exact P|].
  destruct P as (m & fs & P). exact (passes_scan_matches _ _ _ _ P).
Qed.

End Gate.

(** The theorem at a create request answered with a lease that names its
    period. *)
Lemma updated_contract_passes_scan_witness :
  exists t,
    Some dated_lease = Some t
    /\ contract_memory (State {[ default_session := dated_lease ]} 2 [OpGenerate])
         !! default_session = Some t
    /\ (exists m fs,
          extract_and_validate_dates ref_2026_01_15 t false = Ok (true, m, fs))
    /\ (forall m, In m (date_matches t) -> valid_date_match m)
    /\ (forall m, In m (range_matches t) -> valid_range_match ref_2026_01_15 m).
Proof.
  apply (updated_contract_passes_scan
           (scripted [Some (reply (u "create")); Some dated_lease])
           read_action letter ref_2026_01_15
           create_request None default_session empty_state
           (State {[ default_session := dated_lease ]} 2 [OpGenerate])
           (u "Contract created successfully ✓") (Some dated_lease)).
  vm_compute. reflexivity.
Defined.

(** C1 fails as stated: the completion of a create request is a lease whose
    period runs backward, from 10/01/2027 until 05/01/2027. The range
    patterns know "from ... to ...", not "until": the scan sees two valid
    dates and no range, and the router stores the lease and answers
    "updated". The range itself is one that [validate_date_range]
    refuses. *)
Lemma updated_contract_holds_backward_range :
  get_chat_response (scripted [Some (reply (u "create")); Some backward_lease])
                    read_action letter ref_2026_01_15
                    create_request None default_session empty_state
  = (Ok (u "Contract created successfully ✓", Some backward_lease, updated),
     State {[ default_session := backward_lease ]} 2 [OpGenerate])
  /\ backward_lease
     = u "LEASE. The lease runs from " ++ u "10/01/2027" ++ u " until "
         ++ u "05/01/2027" ++ u "."
  /\ parse_date (u "10/01/2027") = Ok (Some (mkdt 2027 1 10 0 0 0 0))
  /\ parse_date (u "05/01/2027") = Ok (Some (mkdt 2027 1 5 0 0 0 0))
  /\ validate_date_range ref_2026_01_15 (u "10/01/2027") (u "05/01/2027")
                         false 1 36500
     = Ok (false,
           u "End date 05/01/2027 must be after start date 10/01/2027. The lease period goes backward in time.")
  /\ range_matches backward_lease = [].
Proof. conjs; vm_compute; reflexivity. Qed.
